(** * Orion chat front-end: response extraction, remote send, session store

    A shallow embedding of [services/orionService.ts] ([findResponseText],
    [sendMessageToOrion]) and of the session store of the [App] component
    ([createSessionObject], [createNewSession], the initialisation and
    auto-save effects, [updateCurrentMessages], [deleteSession]), with the
    parts of the JavaScript runtime they call ([String.prototype] methods,
    [JSON.parse], [JSON.stringify], [Array.prototype.slice], the bounded
    call stack and its [RangeError]) modelled beside them; of the handlers of the views that drive the store ([handleSend]
    and [handleToggleFeedback] of the chat view, [getDisplayTitle] of the
    sidebar, [handleExportSession] and [handleImageUpload] of [App]); and
    of the fetch handler of the service worker. *)

From Stdlib Require Import Ascii String DecimalString.
From Stdlib Require DecimalFacts DecimalPos.
From Stdlib Require Import List ZArith NArith Bool Lia.
Import ListNotations.

Set Warnings "-register-all".

(* ===================================================================== *)
(** ** JavaScript strings                                                  *)
(* ===================================================================== *)

(** A JavaScript string is a finite sequence of UTF-16 code units; [length],
    [slice], [indexOf] and friends all count code units. *)
Module JSString.

Definition char16 := N.
Definition jsstring := list char16.

(** An ASCII literal of the source, as code units. *)
Definition lit (s : string) : jsstring := map N_of_ascii (list_ascii_of_string s).

(** [a === b] on strings. *)
Fixpoint str_eqb (a b : jsstring) : bool :=
  match a, b with
  | [], [] => true
  | x :: a', y :: b' => N.eqb x y && str_eqb a' b'
  | _, _ => false
  end.

(** [WhiteSpace] and [LineTerminator] of ECMA-262, the code units that
    [String.prototype.trim] strips. *)
Definition isWhiteSpace (c : char16) : bool :=
  existsb (N.eqb c)
    [9; 10; 11; 12; 13; 32; 160; 5760; 8232; 8233; 8239; 8287; 12288; 65279]%N
  || (N.leb 8192 c && N.leb c 8202).

Fixpoint trimStart (s : jsstring) : jsstring :=
  match s with
  | c :: r => if isWhiteSpace c then trimStart r else s
  | [] => []
  end.

Definition trimEnd (s : jsstring) : jsstring := rev (trimStart (rev s)).

Definition trim (s : jsstring) : jsstring := trimEnd (trimStart s).

Fixpoint startsWith (s p : jsstring) : bool :=
  match p, s with
  | [], _ => true
  | x :: p', y :: s' => N.eqb x y && startsWith s' p'
  | _ :: _, [] => false
  end.

(** [s.includes(p)] *)
Fixpoint includes (s p : jsstring) : bool :=
  startsWith s p ||
  match s with
  | [] => false
  | _ :: r => includes r p
  end.

Fixpoint indexOf_from (s p : jsstring) (i : Z) : Z :=
  if startsWith s p then i
  else match s with
       | [] => (-1)%Z
       | _ :: r => indexOf_from r p (i + 1)
       end.

(** [s.indexOf(p)]: the first position at which [p] occurs, [-1] if none. *)
Definition indexOf (s p : jsstring) : Z := indexOf_from s p 0.

Fixpoint lastIndexOf_from (s p : jsstring) (i best : Z) : Z :=
  let best' := if startsWith s p then i else best in
  match s with
  | [] => best'
  | _ :: r => lastIndexOf_from r p (i + 1) best'
  end.

(** [s.lastIndexOf(p)]: the last position at which [p] occurs, [-1] if none. *)
Definition lastIndexOf (s p : jsstring) : Z := lastIndexOf_from s p 0 (-1).

(** [s.substring(a, b)]: both indices are clamped to [0 .. length] and
    swapped when [a > b]. *)
Definition substring (s : jsstring) (a b : Z) : jsstring :=
  let len := Z.of_nat (length s) in
  let a' := Z.min (Z.max a 0) len in
  let b' := Z.min (Z.max b 0) len in
  let lo := Z.min a' b' in
  let hi := Z.max a' b' in
  firstn (Z.to_nat (hi - lo)) (skipn (Z.to_nat lo) s).

(** [x.slice(start, end)] of [String.prototype] and [Array.prototype]: a
    negative index counts from the end, an omitted [end] is the length. *)
Definition slice {A : Type} (l : list A) (start : Z) (end_ : option Z) : list A :=
  let len := Z.of_nat (length l) in
  let rel (k : Z) := if (k <? 0)%Z then Z.max (len + k) 0 else Z.min k len in
  let from := rel start in
  let to := match end_ with Some e => rel e | None => len end in
  firstn (Z.to_nat (Z.max (to - from) 0)) (skipn (Z.to_nat from) l).

(** [l.join(sep)] on an array of strings. *)
Fixpoint join (sep : jsstring) (l : list jsstring) : jsstring :=
  match l with
  | [] => []
  | [x] => x
  | x :: r => x ++ sep ++ join sep r
  end.

(** [n.toString()] for an integral Number below 1e21 (a [Date.now()]
    reading, an HTTP status): its decimal digits. *)
Definition Number_toString (n : Z) : jsstring :=
  lit (NilZero.string_of_int (Z.to_int n)).

End JSString.
Import JSString.

(* ===================================================================== *)
(** ** JSON values and [JSON.parse]                                        *)
(* ===================================================================== *)

(** What [JSON.parse] returns.  A Number is kept by the exact decimal value
    [m * 10^e] of its literal; the program observes a Number only through
    its truthiness, which [number_truthy] decides on the IEEE double nearest
    to that value.  The members of an object are listed in the order
    [for ... in] enumerates them. *)
Inductive json : Type :=
| JNull
| JBool (b : bool)
| JNumber (m e : Z)
| JString (s : jsstring)
| JArray (items : list json)
| JObject (members : list (jsstring * json)).

(** The double nearest to [m * 10^e] is neither [+0] nor [-0]: the value
    lies strictly beyond half the least subnormal, [2^-1075]. *)
Definition number_truthy (m e : Z) : bool :=
  negb (m =? 0)%Z &&
  ((0 <=? e)%Z || (10 ^ (- e) <? Z.abs m * 2 ^ 1075)%Z).

(** [!!v] *)
Definition truthy (v : json) : bool :=
  match v with
  | JNull => false
  | JBool b => b
  | JNumber m e => number_truthy m e
  | JString s => match s with [] => false | _ => true end
  | JArray _ => true
  | JObject _ => true
  end.

(** Own property lookup on the member list. *)
Fixpoint get (k : jsstring) (members : list (jsstring * json)) : option json :=
  match members with
  | [] => None
  | (k', v) :: r => if str_eqb k k' then Some v else get k r
  end.

(** [data.k] on a parsed value; [None] is [undefined].  The program reads
    the properties text_response, output, response, message and content:
    none of them is inherited from [Object.prototype], and arrays, strings,
    numbers and booleans that come out of [JSON.parse] do not have them. *)
Definition prop (data : json) (k : jsstring) : option json :=
  match data with
  | JObject members => get k members
  | _ => None
  end.

(** The size of a value: one for each node, plus the length of each
    string.  It is the measure on which the extractor's recursion descends,
    and a parsed value never weighs more than its text is long. *)
Fixpoint weight (v : json) : nat :=
  match v with
  | JNull | JBool _ | JNumber _ _ => 1
  | JString s => S (length s)
  | JArray items => S (list_sum (map weight items))
  | JObject members => S (list_sum (map (fun kv => weight (snd kv)) members))
  end.

Module JSONParse.

Definition isJsonWhitespace (c : char16) : bool :=
  existsb (N.eqb c) [32; 9; 10; 13]%N.

Fixpoint skip_ws (s : jsstring) : jsstring :=
  match s with
  | c :: r => if isJsonWhitespace c then skip_ws r else s
  | [] => []
  end.

Definition isDigit (c : char16) : bool := N.leb 48 c && N.leb c 57.

Definition hexDigit (c : char16) : option N :=
  if N.leb 48 c && N.leb c 57 then Some (c - 48)%N
  else if N.leb 65 c && N.leb c 70 then Some (c - 55)%N
  else if N.leb 97 c && N.leb c 102 then Some (c - 87)%N
  else None.

Definition hex4 (a b c d : char16) : option char16 :=
  match hexDigit a, hexDigit b, hexDigit c, hexDigit d with
  | Some x, Some y, Some z, Some w => Some (((x * 16 + y) * 16 + z) * 16 + w)%N
  | _, _, _, _ => None
  end.

(** The single-character escapes: quote, backslash, slash, b, f, n, r, t. *)
Definition simpleEscape (c : char16) : option char16 :=
  if N.eqb c 34 then Some 34%N
  else if N.eqb c 92 then Some 92%N
  else if N.eqb c 47 then Some 47%N
  else if N.eqb c 98 then Some 8%N
  else if N.eqb c 102 then Some 12%N
  else if N.eqb c 110 then Some 10%N
  else if N.eqb c 114 then Some 13%N
  else if N.eqb c 116 then Some 9%N
  else None.

Definition consChar (c : char16) (r : option (jsstring * jsstring)) :
  option (jsstring * jsstring) :=
  match r with
  | Some (str, rest) => Some (c :: str, rest)
  | None => None
  end.

(** The characters of a string literal after its opening quote, up to and
    including the closing quote. *)
Fixpoint parse_string_chars (s : jsstring) : option (jsstring * jsstring) :=
  match s with
  | [] => None
  | c :: r =>
    if N.eqb c 34 then Some ([], r)
    else if N.eqb c 92 then
      match r with
      | [] => None
      | e :: r' =>
        if N.eqb e 117 then
          match r' with
          | h1 :: h2 :: h3 :: h4 :: r'' =>
            match hex4 h1 h2 h3 h4 with
            | Some u => consChar u (parse_string_chars r'')
            | None => None
            end
          | _ => None
          end
        else
          match simpleEscape e with
          | Some u => consChar u (parse_string_chars r')
          | None => None
          end
      end
    else if N.ltb c 32 then None
    else consChar c (parse_string_chars r)
  end.

Fixpoint take_digits (s : jsstring) : list N * jsstring :=
  match s with
  | c :: r =>
    if isDigit c then let (ds, rest) := take_digits r in ((c - 48)%N :: ds, rest)
    else ([], s)
  | [] => ([], [])
  end.

Definition digits_value (ds : list N) : Z :=
  fold_left (fun acc d => (acc * 10 + Z.of_N d)%Z) ds 0%Z.

(** A number literal: an optional minus sign; an integer part that is a
    single 0 or starts with a non-zero digit; an optional fraction (a dot and
    at least one digit); an optional exponent (e or E, an optional sign, at
    least one digit). *)
Definition number_sign (s : jsstring) : bool * jsstring :=
  match s with
  | c :: r => if N.eqb c 45 then (true, r) else (false, s)
  | [] => (false, s)
  end.

Definition number_int (s : jsstring) : option (list N * jsstring) :=
  match s with
  | c :: r =>
    if N.eqb c 48 then Some ([0%N], r)
    else if isDigit c then Some ((c - 48)%N :: fst (take_digits r), snd (take_digits r))
    else None
  | [] => None
  end.

Definition number_frac (s : jsstring) : option (list N * jsstring) :=
  match s with
  | c :: r =>
    if N.eqb c 46 then
      match fst (take_digits r) with
      | [] => None
      | fs => Some (fs, snd (take_digits r))
      end
    else Some ([], s)
  | [] => Some ([], s)
  end.

Definition exponent_sign (s : jsstring) : bool * jsstring :=
  match s with
  | c :: r =>
    if N.eqb c 45 then (true, r)
    else if N.eqb c 43 then (false, r)
    else (false, s)
  | [] => (false, s)
  end.

Definition number_exp (s : jsstring) : option (Z * jsstring) :=
  match s with
  | c :: r =>
    if N.eqb c 101 || N.eqb c 69 then
      let digits := take_digits (snd (exponent_sign r)) in
      match fst digits with
      | [] => None
      | es =>
        Some ((if fst (exponent_sign r) then - digits_value es else digits_value es)%Z,
              snd digits)
      end
    else Some (0%Z, s)
  | [] => Some (0%Z, s)
  end.

Definition parse_number (s : jsstring) : option (json * jsstring) :=
  match number_int (snd (number_sign s)) with
  | None => None
  | Some (ints, s2) =>
    match number_frac s2 with
    | None => None
    | Some (fracs, s3) =>
      match number_exp s3 with
      | None => None
      | Some (ex, s4) =>
        let mant := digits_value (ints ++ fracs) in
        Some (JNumber (if fst (number_sign s) then - mant else mant)%Z
                      (ex - Z.of_nat (length fracs))%Z, s4)
      end
    end
  end.

Definition parse_literal (s : jsstring) : option (json * jsstring) :=
  if startsWith s (lit "true") then Some (JBool true, skipn 4 s)
  else if startsWith s (lit "false") then Some (JBool false, skipn 5 s)
  else if startsWith s (lit "null") then Some (JNull, skipn 4 s)
  else parse_number s.

(** An array index: the canonical decimal form of an integer below
    [2^32 - 1].  Such keys are enumerated first, in ascending order. *)
Definition arrayIndex (k : jsstring) : option Z :=
  match k with
  | [] => None
  | c :: r =>
    if forallb isDigit k && (negb (N.eqb c 48) || match r with [] => true | _ => false end)
    then let n := digits_value (map (fun d => (d - 48)%N) k) in
         if (n <? 2 ^ 32 - 1)%Z then Some n else None
    else None
  end.

Fixpoint has (k : jsstring) (members : list (jsstring * json)) : bool :=
  match members with
  | [] => false
  | (k', _) :: r => str_eqb k k' || has k r
  end.

Fixpoint replace (k : jsstring) (v : json) (members : list (jsstring * json)) :
  list (jsstring * json) :=
  match members with
  | [] => []
  | (k', v') :: r => if str_eqb k k' then (k', v) :: r else (k', v') :: replace k v r
  end.

Fixpoint insert_index (i : Z) (k : jsstring) (v : json)
  (members : list (jsstring * json)) : list (jsstring * json) :=
  match members with
  | [] => [(k, v)]
  | (k', v') :: r =>
    match arrayIndex k' with
    | Some j => if (j <? i)%Z then (k', v') :: insert_index i k v r else (k, v) :: members
    | None => (k, v) :: members
    end
  end.

(** [CreateDataProperty(obj, k, v)]: an existing key keeps its place and
    takes the new value; a new array index goes among the indices, any other
    new key goes last. *)
Definition define (k : jsstring) (v : json) (members : list (jsstring * json)) :
  list (jsstring * json) :=
  if has k members then replace k v members
  else match arrayIndex k with
       | Some i => insert_index i k v members
       | None => members ++ [(k, v)]
       end.

Fixpoint parse_value (fuel : nat) (s : jsstring) {struct fuel} : option (json * jsstring) :=
  match fuel with
  | O => None
  | S fuel' =>
    match skip_ws s with
    | [] => None
    | c :: r =>
      if N.eqb c 123 then
        match skip_ws r with
        | [] => None
        | c2 :: r2 =>
          if N.eqb c2 125 then Some (JObject [], r2)
          else parse_members fuel' (c2 :: r2) []
        end
      else if N.eqb c 91 then
        match skip_ws r with
        | [] => None
        | c2 :: r2 =>
          if N.eqb c2 93 then Some (JArray [], r2)
          else parse_elements fuel' (c2 :: r2) []
        end
      else if N.eqb c 34 then
        match parse_string_chars r with
        | Some (str, r') => Some (JString str, r')
        | None => None
        end
      else parse_literal (c :: r)
    end
  end

with parse_elements (fuel : nat) (s : jsstring) (acc : list json) {struct fuel} :
  option (json * jsstring) :=
  match fuel with
  | O => None
  | S fuel' =>
    match parse_value fuel' s with
    | None => None
    | Some (v, r) =>
      match skip_ws r with
      | [] => None
      | c :: r' =>
        if N.eqb c 44 then parse_elements fuel' r' (v :: acc)
        else if N.eqb c 93 then Some (JArray (rev (v :: acc)), r')
        else None
      end
    end
  end

with parse_members (fuel : nat) (s : jsstring) (acc : list (jsstring * json))
  {struct fuel} : option (json * jsstring) :=
  match fuel with
  | O => None
  | S fuel' =>
    match skip_ws s with
    | [] => None
    | q :: r =>
      if N.eqb q 34 then
        match parse_string_chars r with
        | None => None
        | Some (k, r1) =>
          match skip_ws r1 with
          | [] => None
          | c1 :: r2 =>
            if N.eqb c1 58 then
              match parse_value fuel' r2 with
              | None => None
              | Some (v, r3) =>
                match skip_ws r3 with
                | [] => None
                | c3 :: r4 =>
                  if N.eqb c3 44 then parse_members fuel' r4 (define k v acc)
                  else if N.eqb c3 125 then Some (JObject (define k v acc), r4)
                  else None
                end
              end
            else None
          end
        end
      else None
    end
  end.

End JSONParse.

(** [JSON.parse(text)]; [None] when it throws a [SyntaxError].  Every call
    of the parser consumes a character, so twice the length is fuel enough. *)
Definition JSON_parse (text : jsstring) : option json :=
  match JSONParse.parse_value (2 * length text + 2) text with
  | Some (v, rest) =>
    match JSONParse.skip_ws rest with
    | [] => Some v
    | _ :: _ => None
    end
  | None => None
  end.

(* ===================================================================== *)
(** ** Completions and the call stack                                      *)
(* ===================================================================== *)

(** A thrown value, as far as the program looks at it. *)
Record JsError : Type := { name : jsstring; message : jsstring }.

(** [new Error(msg)] *)
Definition Error (msg : jsstring) : JsError := {| name := lit "Error"; message := msg |}.

(** How a call, an awaited call or a promise ends: it returns (resolves), or
    it throws (rejects). *)
Inductive Completion (A : Type) : Type :=
| Normal (a : A)
| Throw (e : JsError).
Arguments Normal {A} a.
Arguments Throw {A} e.

(** What the engine throws at a call for which the call stack has no room
    left (the message is V8's; the program looks at the name of an error
    and at whether its message contains 404). *)
Definition stackOverflow : JsError :=
  {| name := lit "RangeError"; message := lit "Maximum call stack size exceeded" |}.

(* ===================================================================== *)
(** ** [services/orionService.ts]: the response extractor                  *)
(* ===================================================================== *)

(** [v && typeof v === 'string']: the string, when [v] is a non-empty one. *)
Definition truthyString (v : option json) : option jsstring :=
  match v with
  | Some (JString (c :: s)) => Some (c :: s)
  | _ => None
  end.

(** [typeof data === 'object' && data !== null] *)
Definition isObject (data : json) : bool :=
  match data with
  | JArray _ | JObject _ => true
  | _ => false
  end.

(** [if (found) return found] on a [string | null]. *)
Definition truthyResult (found : option jsstring) : bool :=
  match found with
  | Some (_ :: _) => true
  | _ => false
  end.

(** Step 1 of [findResponseText]: the chain of direct field tests. *)
Definition directField (data : json) : option jsstring :=
  if isObject data then
    match truthyString (prop data (lit "text_response")) with
    | Some s => Some s
    | None =>
    match truthyString (prop data (lit "output")) with
    | Some s => Some s
    | None =>
    match truthyString (prop data (lit "response")) with
    | Some s => Some s
    | None =>
    match truthyString (prop data (lit "message")) with
    | Some s => Some s
    | None => truthyString (prop data (lit "content"))
    end end end end
  else None.

(** [for (const item of ...) { const found = ...; if (found) return found; }]
    followed by [return null]: the first truthy result of [search] along the
    list.  The loop is outside any [try]: what a search throws leaves it. *)
Fixpoint firstFound {A : Type} (search : A -> Completion (option jsstring)) (l : list A) :
  Completion (option jsstring) :=
  match l with
  | [] => Normal None
  | x :: rest =>
    match search x with
    | Throw e => Throw e
    | Normal found => if truthyResult found then Normal found else firstFound search rest
    end
  end.

(** [trimmed.substring(firstBrace, lastBrace + 1)] *)
Definition potentialJson (trimmed : jsstring) : jsstring :=
  substring trimmed (indexOf trimmed (lit "{")) (lastIndexOf trimmed (lit "}") + 1).

(** Step 2 of [findResponseText], the string case; [self] is the recursive
    call.  Each attempt parses and searches inside a [try] whose [catch] is
    empty: a text that does not parse and a search that throws both end the
    attempt and nothing more. *)
Definition searchString (self : json -> Completion (option jsstring)) (str : jsstring) :
  option jsstring :=
  let trimmed := trim str in
  if includes trimmed (lit "{") && includes trimmed (lit "}") then
    (* attempt B, reached when attempt A threw or found nothing *)
    let attemptB : option jsstring :=
      let firstBrace := indexOf trimmed (lit "{") in
      let lastBrace := lastIndexOf trimmed (lit "}") in
      if negb (firstBrace =? -1)%Z && (firstBrace <? lastBrace)%Z then
        if negb (str_eqb (potentialJson trimmed) trimmed) then
          match JSON_parse (potentialJson trimmed) with
          | None => None
          | Some parsedDeep =>
            match self parsedDeep with
            | Throw e => None
            | Normal foundDeep => if truthyResult foundDeep then foundDeep else None
            end
          end
        else None
      else None in
    (* attempt A *)
    match JSON_parse trimmed with
    | None => attemptB
    | Some parsed =>
      match self parsed with
      | Throw e => attemptB
      | Normal found => if truthyResult found then found else attemptB
      end
    end
  else None.

(** The body of [findResponseText], with its recursive calls made through
    [self]. *)
Definition findResponseText_body (self : json -> Completion (option jsstring)) (data : json) :
  Completion (option jsstring) :=
  if negb (truthy data) then Normal None
  else
    match directField data with
    | Some s => Normal (Some s)
    | None =>
      match data with
      | JString str => Normal (searchString self str)
      | JArray items => firstFound self items
      | JObject members => firstFound (fun member => self (snd member)) members
      | _ => Normal None
      end
    end.

(** [findResponseText(data)], called when the call stack has room for
    [stack] more activations of the function.  Every recursive call takes
    one of them; a call for which none is left throws [stackOverflow].
    [Normal None] is the JavaScript [null]. *)
Fixpoint findResponseText (stack : nat) (data : json) {struct stack} :
  Completion (option jsstring) :=
  match stack with
  | O => Throw stackOverflow
  | S stack' => findResponseText_body (findResponseText stack') data
  end.

(* ===================================================================== *)
(** ** [types.ts]                                                          *)
(* ===================================================================== *)

Inductive Language : Type := zh | en.

Inductive Role : Type := user | assistant.

(** [timestamp: Date].  A message made by the chat view holds a [Date]
    object (a time value in milliseconds); one read back from local storage
    holds the string [JSON.stringify] wrote for it. *)
Inductive Timestamp : Type :=
| DateObject (time : Z)
| DateString (iso : jsstring).

Module Message.
Record t : Type := make {
  id : jsstring;
  role : Role;
  content : jsstring;
  timestamp : Timestamp;
  isLiked : option bool;
  isDisliked : option bool
}.
End Message.

Module ChatSession.
Record t : Type := make {
  id : jsstring;
  title : jsstring;
  messages : list Message.t;
  updatedAt : Z
}.
End ChatSession.

Module API_CONFIG.
Definition ENDPOINT : jsstring := lit "https://a164182930.app.n8n.cloud/webhook-test/chat".
Definition KEY : jsstring := lit "164182930qwas".
End API_CONFIG.

(* ===================================================================== *)
(** ** [services/orionService.ts]: [sendMessageToOrion]                    *)
(* ===================================================================== *)

(** The string literals of the function, as UTF-16 code units (the source
    text of each is given above it). *)

(* 当前是对话的开始。 *)
Definition startOfConversation : jsstring :=
  [24403; 21069; 26159; 23545; 35805; 30340; 24320; 22987; 12290]%N.

(* 自动 *)
Definition intentAuto : jsstring := [33258; 21160]%N.

(* 连接地址错误 (404)。如果您使用的是测试 URL，请确保 N8N 中已点击'Execute'，或切换到生产 URL。 *)
Definition notFoundMessage : jsstring :=
  [36830; 25509; 22320; 22336; 38169; 35823]%N ++ lit " (404)" ++
  [12290; 22914; 26524; 24744; 20351; 29992; 30340; 26159; 27979; 35797]%N ++
  lit " URL" ++ [65292; 35831; 30830; 20445]%N ++ lit " N8N " ++
  [20013; 24050; 28857; 20987]%N ++ lit "'Execute'" ++
  [65292; 25110; 20999; 25442; 21040; 29983; 20135]%N ++ lit " URL" ++ [12290]%N.

(* 连接不稳定 (${response.status}) *)
Definition unstableMessage (status : Z) : jsstring :=
  [36830; 25509; 19981; 31283; 23450]%N ++ lit " (" ++ Number_toString status ++ lit ")".

(* Orion 收到信号，但无法解码内容 (格式解析错误)。 *)
Definition undecodableMessage : jsstring :=
  lit "Orion " ++
  [25910; 21040; 20449; 21495; 65292; 20294; 26080; 27861; 35299; 30721; 20869; 23481]%N ++
  lit " (" ++ [26684; 24335; 35299; 26512; 38169; 35823]%N ++ lit ")" ++ [12290]%N.

(* Orion 思考超时了 (请检查 N8N 是否卡住)。 *)
Definition timeoutMessage : jsstring :=
  lit "Orion " ++ [24605; 32771; 36229; 26102; 20102]%N ++ lit " (" ++
  [35831; 26816; 26597]%N ++ lit " N8N " ++ [26159; 21542; 21345; 20303]%N ++
  lit ")" ++ [12290]%N.

(* 网络连接似乎断开了。 *)
Definition networkMessage : jsstring :=
  [32593; 32476; 36830; 25509; 20284; 20046; 26029; 24320; 20102; 12290]%N.

(** A received response, with the body that [await response.text()]
    resolves to. *)
Module Response.
Record t : Type := make { status : Z; text : jsstring }.

(** [response.ok] *)
Definition ok (response : t) : bool :=
  (200 <=? status response)%Z && (status response <=? 299)%Z.
End Response.

Record Payload : Type := {
  free_text : jsstring;
  intent_selection : jsstring;
  memory_context : jsstring;
  api_key : option jsstring;
  x_api_key : option jsstring
}.

(** The request handed to [fetch]: the [X-API-KEY] header when present, and
    the payload whose [JSON.stringify] is the body.  Method, content type,
    mode and credentials are the same in both calls. *)
Record Request : Type := { X_API_KEY : option jsstring; body : Payload }.

(** [history.filter(m => m.content !== text)] *)
Definition previousMessages (text : jsstring) (history : list Message.t) : list Message.t :=
  filter (fun m => negb (str_eqb (Message.content m) text)) history.

(** [`${m.role === 'user' ? 'User' : 'Orion'}: ${m.content}`] *)
Definition contextLine (m : Message.t) : jsstring :=
  (match Message.role m with user => lit "User" | assistant => lit "Orion" end)
    ++ lit ": " ++ Message.content m.

(** [m.content.trim() !== ''] *)
Definition notBlank (m : Message.t) : bool :=
  negb (str_eqb (trim (Message.content m)) []).

(** The separator of [join]: one line feed. *)
Definition newline : jsstring := [10%N].

(** Lines 98-106: the context summary sent as [memory_context]. *)
Definition memoryContext (text : jsstring) (history : list Message.t) : jsstring :=
  let previousMessages := previousMessages text history in
  if (0 <? length previousMessages)%nat then
    join newline
         (map contextLine (slice (filter notBlank previousMessages) (-10) None))
  else startOfConversation.

Definition basePayload (text : jsstring) (history : list Message.t) : Payload :=
  {| free_text := trim text;
     intent_selection := intentAuto;
     memory_context := memoryContext text history;
     api_key := None;
     x_api_key := None |}.

Definition fallbackPayload (base : Payload) : Payload :=
  {| free_text := free_text base;
     intent_selection := intent_selection base;
     memory_context := memory_context base;
     api_key := Some API_CONFIG.KEY;
     x_api_key := Some API_CONFIG.KEY |}.

(** The [catch (error)] block of the function. *)
Definition onError (error : JsError) : Completion jsstring :=
  if str_eqb (name error) (lit "AbortError") then Normal timeoutMessage
  else if str_eqb (name error) (lit "TypeError") then Normal networkMessage
  else if includes (message error) (lit "404") then Normal (message error)
  else Throw error.

Section Send.

(** The runtime's string conversion of a parsed value that is not a string,
    as [new Error(value)] performs it: [inl] is the resulting string, [inr]
    the message of the [TypeError] the conversion throws (an object whose
    [toString] member is not callable). *)
Variable coerce : json -> jsstring + jsstring.

(** The network: what each [await fetch(...)] ends with.  The abort signal
    of the 90 second timer shows as a [Throw] of an [AbortError]. *)
Variable fetch : Request -> Completion Response.t.

(** The room the call stack has for activations of [findResponseText] when
    the function calls it. *)
Variable stack : nat.

(** Lines 116-157: the call and its one fallback. *)
Definition fetchWithFallback (base : Payload) : Completion Response.t :=
  match fetch {| X_API_KEY := Some API_CONFIG.KEY; body := base |} with
  | Normal response => Normal response
  | Throw err =>
    if str_eqb (name err) (lit "TypeError") && str_eqb (message err) (lit "Failed to fetch")
    then
      match fetch {| X_API_KEY := None; body := fallbackPayload base |} with
      | Normal response => Normal response
      | Throw fallbackErr => Throw err
      end
    else Throw err
  end.

(** [new Error(value)] for a truthy parsed value. *)
Definition ErrorOf (value : json) : Completion JsError :=
  match value with
  | JString s => Normal (Error s)
  | _ =>
    match coerce value with
    | inl s => Normal (Error s)
    | inr msg => Throw {| name := lit "TypeError"; message := msg |}
    end
  end.

(** Lines 161-199: from the received response to the returned text. *)
Definition decodeResponse (response : Response.t) : Completion jsstring :=
  let textResult := Response.text response in
  let jsonResult : json :=
    match JSON_parse textResult with
    | Some parsed => parsed
    | None => JNull
    end in
  if negb (Response.ok response) then
    if (Response.status response =? 404)%Z then Throw (Error notFoundMessage)
    else
      match prop jsonResult (lit "message") with
      | Some value =>
        if truthy value then
          match ErrorOf value with
          | Normal e => Throw e
          | Throw e => Throw e
          end
        else Throw (Error (unstableMessage (Response.status response)))
      | None => Throw (Error (unstableMessage (Response.status response)))
      end
  else
    let fromJson : Completion (option jsstring) :=
      if truthy jsonResult then
        match findResponseText stack jsonResult with
        | Throw e => Throw e
        | Normal foundText => Normal (if truthyResult foundText then foundText else None)
        end
      else Normal None in
    match fromJson with
    | Throw e => Throw e
    | Normal (Some foundText) => Normal foundText
    | Normal None =>
      if truthy (JString textResult)
         && (0 <? length (trim textResult))%nat
         && negb (truthy jsonResult)
      then Normal textResult
      else Normal undecodableMessage
    end.

(** [sendMessageToOrion(text, history)]; [Normal] is the resolved promise,
    [Throw] the rejected one. *)
Definition sendMessageToOrion (text : jsstring) (history : list Message.t) :
  Completion jsstring :=
  let tried :=
    match fetchWithFallback (basePayload text history) with
    | Normal response => decodeResponse response
    | Throw err => Throw err
    end in
  match tried with
  | Normal result => Normal result
  | Throw error => onError error
  end.

End Send.

(* ===================================================================== *)
(** ** The session store of the [App] component                            *)
(* ===================================================================== *)

(* ✨ 新对话 *)
Definition title_zh : jsstring := [10024]%N ++ lit " " ++ [26032; 23545; 35805]%N.

(* ✨ New Chat *)
Definition title_en : jsstring := [10024]%N ++ lit " New Chat".

(** The [useState] cells the store logic reads and writes (theme, sidebar
    flag and background image do not interact with them). *)
Record AppState : Type := {
  language : Language;
  sessions : list ChatSession.t;
  currentSessionId : option jsstring;
  isInitialized : bool
}.

(** The state of the first render. *)
Definition initialState : AppState :=
  {| language := zh; sessions := []; currentSessionId := None; isInitialized := false |}.

(** The state setters.  A handler reads the cells of the render it was
    created in and queues updates; React applies the queue in order, so a
    handler is a function from the render's state to a transformer of the
    pending state. *)
Definition setSessions (f : list ChatSession.t -> list ChatSession.t) (pending : AppState) :
  AppState :=
  {| language := language pending;
     sessions := f (sessions pending);
     currentSessionId := currentSessionId pending;
     isInitialized := isInitialized pending |}.

Definition setCurrentSessionId (v : option jsstring) (pending : AppState) : AppState :=
  {| language := language pending;
     sessions := sessions pending;
     currentSessionId := v;
     isInitialized := isInitialized pending |}.

Definition setIsInitialized (v : bool) (pending : AppState) : AppState :=
  {| language := language pending;
     sessions := sessions pending;
     currentSessionId := currentSessionId pending;
     isInitialized := v |}.

Definition setLanguage (f : Language -> Language) (pending : AppState) : AppState :=
  {| language := f (language pending);
     sessions := sessions pending;
     currentSessionId := currentSessionId pending;
     isInitialized := isInitialized pending |}.

(** The readings of [Date.now()] a handler takes, in the order it takes
    them. *)
Definition Clock := nat -> Z.

(** [createSessionObject(lang)]: the id is the first reading of the clock
    as a string, [updatedAt] the second. *)
Definition createSessionObject (lang : Language) (now : Clock) : ChatSession.t :=
  {| ChatSession.id := Number_toString (now 0%nat);
     ChatSession.title := match lang with zh => title_zh | en => title_en end;
     ChatSession.messages := [];
     ChatSession.updatedAt := now 1%nat |}.

(** [createNewSession()]: [setSessions(prev => [newSession, ...prev])], then
    [setCurrentSessionId(newSession.id)]. *)
Definition createNewSession (render : AppState) (now : Clock) (pending : AppState) : AppState :=
  let newSession := createSessionObject (language render) now in
  setCurrentSessionId (Some (ChatSession.id newSession))
    (setSessions (fun prev => newSession :: prev) pending).

(** [firstMsg.slice(0, 20) + (firstMsg.length > 20 ? '...' : '')] *)
Definition derivedTitle (firstMsg : jsstring) : jsstring :=
  slice firstMsg 0 (Some 20%Z) ++ (if (20 <? length firstMsg)%nat then lit "..." else []).

(** The callback of [prev.map] in [updateCurrentMessages], for a session
    whose id is the current one; [now] is its reading of [Date.now()]. *)
Definition updatedSession (session : ChatSession.t) (newMessages : list Message.t) (now : Z) :
  ChatSession.t :=
  let isDefaultTitle :=
    str_eqb (ChatSession.title session) title_zh
    || str_eqb (ChatSession.title session) title_en
    || (length (ChatSession.messages session) =? 0)%nat in
  let newTitle :=
    if isDefaultTitle && (0 <? length newMessages)%nat then
      match newMessages with
      | first :: _ => derivedTitle (Message.content first)
      | [] => ChatSession.title session
      end
    else ChatSession.title session in
  {| ChatSession.id := ChatSession.id session;
     ChatSession.title := newTitle;
     ChatSession.messages := newMessages;
     ChatSession.updatedAt := now |}.

(** [prev.map(session => ...)]: the [k]-th matching session takes the
    [k]-th reading of the clock. *)
Fixpoint updateEach (current : jsstring) (newMessages : list Message.t) (now : Clock)
  (k : nat) (prev : list ChatSession.t) : list ChatSession.t :=
  match prev with
  | [] => []
  | session :: rest =>
    if str_eqb (ChatSession.id session) current
    then updatedSession session newMessages (now k)
           :: updateEach current newMessages now (S k) rest
    else session :: updateEach current newMessages now k rest
  end.

(** [updateCurrentMessages(newMessages)]; it returns at once when the
    current id is falsy, that is [null] or the empty string. *)
Definition updateCurrentMessages (render : AppState) (newMessages : list Message.t)
  (now : Clock) (pending : AppState) : AppState :=
  match currentSessionId render with
  | None => pending
  | Some [] => pending
  | Some current => setSessions (updateEach current newMessages now 0) pending
  end.

(** [deleteSession(e, id)]: [setSessions(newSessions)]; then, when
    [newSessions.length === 0], [createNewSession()], else when
    [currentSessionId === id], [setCurrentSessionId(newSessions[0].id)]. *)
Definition deleteSession (render : AppState) (now : Clock) (id : jsstring)
  (pending : AppState) : AppState :=
  let newSessions :=
    filter (fun s => negb (str_eqb (ChatSession.id s) id)) (sessions render) in
  let pending := setSessions (fun _ => newSessions) pending in
  match newSessions with
  | [] => createNewSession render now pending
  | first :: _ =>
    match currentSessionId render with
    | Some current =>
      if str_eqb current id
      then setCurrentSessionId (Some (ChatSession.id first)) pending
      else pending
    | None => pending
    end
  end.

(** [sessions.find(s => s.id === currentSessionId)] *)
Definition getCurrentSession (st : AppState) : option ChatSession.t :=
  match currentSessionId st with
  | Some current => find (fun s => str_eqb (ChatSession.id s) current) (sessions st)
  | None => None
  end.

Definition getCurrentMessages (st : AppState) : list Message.t :=
  match getCurrentSession st with
  | Some session => ChatSession.messages session
  | None => []
  end.

(** *** Local storage *)

(** The browser's key-value store; [None] is the [null] that [getItem]
    returns for a key that is not there. *)
Definition LocalStorage := jsstring -> option jsstring.

Definition getItem (storage : LocalStorage) (key : jsstring) : option jsstring := storage key.

(** The storage after a successful [setItem(key, value)]. *)
Definition stored (storage : LocalStorage) (key value : jsstring) : LocalStorage :=
  fun k => if str_eqb k key then Some value else storage k.

Definition orion_sessions : jsstring := lit "orion_sessions".
Definition orion_current_session_id : jsstring := lit "orion_current_session_id".

(** Reading a parsed array at the type [ChatSession[]], as the unchecked
    assignment [loadedSessions = parsed] does.  The result is [None] when an
    item does not have that type; the program's behaviour on such an array is
    outside this typed model.  [updatedAt] is a [Date.now()] reading, an
    integer. *)
Module Typed.

Definition asString (v : option json) : option jsstring :=
  match v with Some (JString s) => Some s | _ => None end.

Definition asInteger (v : option json) : option Z :=
  match v with
  | Some (JNumber m e) =>
    if (0 <=? e)%Z then Some (m * 10 ^ e)%Z
    else if (m mod 10 ^ (- e) =? 0)%Z then Some (m / 10 ^ (- e))%Z
    else None
  | _ => None
  end.

(** An optional boolean member: absent, or a boolean. *)
Definition asFlag (v : option json) : option (option bool) :=
  match v with
  | None => Some None
  | Some (JBool b) => Some (Some b)
  | _ => None
  end.

Definition asRole (v : option json) : option Role :=
  match asString v with
  | Some s =>
    if str_eqb s (lit "user") then Some user
    else if str_eqb s (lit "assistant") then Some assistant
    else None
  | None => None
  end.

Definition asMessage (v : json) : option Message.t :=
  match asString (prop v (lit "id")), asRole (prop v (lit "role")),
        asString (prop v (lit "content")), asString (prop v (lit "timestamp")),
        asFlag (prop v (lit "isLiked")), asFlag (prop v (lit "isDisliked")) with
  | Some i, Some r, Some c, Some t, Some l, Some d =>
    Some (Message.make i r c (DateString t) l d)
  | _, _, _, _, _, _ => None
  end.

Fixpoint asList {A : Type} (f : json -> option A) (items : list json) : option (list A) :=
  match items with
  | [] => Some []
  | v :: rest =>
    match f v, asList f rest with
    | Some a, Some l => Some (a :: l)
    | _, _ => None
    end
  end.

Definition asMessages (v : option json) : option (list Message.t) :=
  match v with
  | Some (JArray items) => asList asMessage items
  | _ => None
  end.

Definition asChatSession (v : json) : option ChatSession.t :=
  match asString (prop v (lit "id")), asString (prop v (lit "title")),
        asMessages (prop v (lit "messages")), asInteger (prop v (lit "updatedAt")) with
  | Some i, Some t, Some ms, Some u => Some (ChatSession.make i t ms u)
  | _, _, _, _ => None
  end.

End Typed.

Section Persistence.

(** [JSON.stringify] on the session array, and whether a [setItem] fits the
    storage quota ([false]: it throws). *)
Variable JSON_stringify : list ChatSession.t -> jsstring.
Variable fits : LocalStorage -> jsstring -> jsstring -> bool.

(** [localStorage.setItem(key, value)]; [None] when it throws. *)
Definition setItem (storage : LocalStorage) (key value : jsstring) : option LocalStorage :=
  if fits storage key value then Some (stored storage key value) else None.

(** The auto-save effect of the session list: a failed write is caught and
    logged. *)
Definition saveSessions (st : AppState) (storage : LocalStorage) : LocalStorage :=
  if isInitialized st then
    match setItem storage orion_sessions (JSON_stringify (sessions st)) with
    | Some storage' => storage'
    | None => storage
    end
  else storage.

(** The auto-save effect of the selection; [None] when its write throws. *)
Definition saveCurrentSessionId (st : AppState) (storage : LocalStorage) :
  option LocalStorage :=
  match isInitialized st, currentSessionId st with
  | true, Some (c :: id) => setItem storage orion_current_session_id (c :: id)
  | _, _ => Some storage
  end.

(** Both effects, in the order the component declares them. *)
Definition persist (st : AppState) (storage : LocalStorage) : option LocalStorage :=
  saveCurrentSessionId st (saveSessions st storage).

End Persistence.

(** Lines 134-144: [loadedSessions]; the outer [None] is an array that is
    not a [ChatSession[]]. *)
Definition loadSessions (storage : LocalStorage) : option (list ChatSession.t) :=
  match getItem storage orion_sessions with
  | Some (c :: savedSessions) =>
    match JSON_parse (c :: savedSessions) with
    | Some (JArray items) => Typed.asList Typed.asChatSession items
    | Some _ => Some []
    | None => Some []
    end
  | _ => Some []
  end.

(** The initialisation effect (lines 125-162), run on the first render. *)
Definition initialize (storage : LocalStorage) (now : Clock) : option AppState :=
  let savedSessionId := getItem storage orion_current_session_id in
  match loadSessions storage with
  | None => None
  | Some loadedSessions =>
    let pending :=
      match loadedSessions with
      | first :: _ =>
        let pending := setSessions (fun _ => loadedSessions) initialState in
        match savedSessionId with
        | Some (c :: saved) =>
          if existsb (fun s => str_eqb (ChatSession.id s) (c :: saved)) loadedSessions
          then setCurrentSessionId (Some (c :: saved)) pending
          else setCurrentSessionId (Some (ChatSession.id first)) pending
        | _ => setCurrentSessionId (Some (ChatSession.id first)) pending
        end
      | [] =>
        let newSession := createSessionObject zh now in
        setCurrentSessionId (Some (ChatSession.id newSession))
          (setSessions (fun _ => [newSession]) initialState)
      end in
    Some (setIsInitialized true pending)
  end.

(** *** The store as a transition system *)

(** What the user does: the sidebar's new-chat button, a click on a
    session, its delete button, a message log handed over by the chat view,
    and the language button. *)
Inductive Event : Type :=
| NewChat
| SelectSession (id : jsstring)
| DeleteSession (id : jsstring)
| UpdateMessages (newMessages : list Message.t)
| ToggleLanguage.

(** One event handled in the render that shows the state [st]. *)
Definition handle (ev : Event) (now : Clock) (st : AppState) : AppState :=
  match ev with
  | NewChat => createNewSession st now st
  | SelectSession id => setCurrentSessionId (Some id) st
  | DeleteSession id => deleteSession st now id st
  | UpdateMessages newMessages => updateCurrentMessages st newMessages now st
  | ToggleLanguage => setLanguage (fun l => match l with zh => en | en => zh end) st
  end.

(** The states the store goes through.  [reach_late_update] is the reply
    of [handleSend]: [onUpdateMessages] is called after the [await], with the
    handler of the render in which the message was sent. *)
Inductive reachable : AppState -> Prop :=
| reach_init : forall storage now st,
    initialize storage now = Some st -> reachable st
| reach_event : forall st ev now,
    reachable st -> reachable (handle ev now st)
| reach_late_update : forall render st newMessages now,
    reachable render -> reachable st ->
    reachable (updateCurrentMessages render newMessages now st).

(* ===================================================================== *)
(** ** Specification-side definitions                                      *)
(* ===================================================================== *)

(** The recognised reply fields, highest priority first. *)
Definition recognizedFields : list jsstring :=
  [lit "text_response"; lit "output"; lit "response"; lit "message"; lit "content"].

(** The member [k] of the object holds the non-empty string [s]. *)
Definition holdsText (members : list (jsstring * json)) (k s : jsstring) : Prop :=
  get k members = Some (JString s) /\ s <> [].

(** A recognised field holding a non-empty string occurs somewhere in the
    value: in the object itself, in a member or an element, or in the JSON
    document a string carries (the whole trimmed string, or its part from
    the first opening to the last closing brace). *)
Inductive Occurs : json -> Prop :=
| occurs_here : forall members k s,
    In k recognizedFields -> holdsText members k s -> Occurs (JObject members)
| occurs_member : forall members k v,
    In (k, v) members -> Occurs v -> Occurs (JObject members)
| occurs_element : forall items v,
    In v items -> Occurs v -> Occurs (JArray items)
| occurs_embedded : forall str document v,
    document = trim str \/ document = potentialJson (trim str) ->
    JSON_parse document = Some v -> Occurs v -> Occurs (JString str).

(** The last [n] elements of a list. *)
Definition lastN {A : Type} (n : nat) (l : list A) : list A := rev (firstn n (rev l)).

(** The messages of the history that the context summary is about: content
    different from the text being sent, and not blank. *)
Definition qualifying (text : jsstring) (history : list Message.t) : list Message.t :=
  filter (fun m => negb (str_eqb (Message.content m) text) && notBlank m) history.

(** The context summary as the specification words it: the last ten
    qualifying messages as lines, or the marker when there is none. *)
Definition memoryContext_spec (text : jsstring) (history : list Message.t) : jsstring :=
  match lastN 10 (qualifying text history) with
  | [] => startOfConversation
  | kept => join newline (map contextLine kept)
  end.

(** A string cut at twenty code units, with an ellipsis when it was longer. *)
Definition truncated20 (s : jsstring) : jsstring :=
  if (length s <=? 20)%nat then s else firstn 20 s ++ lit "...".

Definition isPlaceholder (title : jsstring) : bool :=
  str_eqb title title_zh || str_eqb title title_en.

(** The title after an append as the specification words it: derived from
    the first message if and only if the old title is a placeholder. *)
Definition titleAfterAppend_spec (session : ChatSession.t) (first : Message.t) : jsstring :=
  if isPlaceholder (ChatSession.title session)
  then truncated20 (Message.content first)
  else ChatSession.title session.

(** The reply to a successful response as the specification words it. *)
Definition reply_spec (stack : nat) (textResult : jsstring) : jsstring :=
  match JSON_parse textResult with
  | Some parsed =>
    match findResponseText stack parsed with
    | Normal (Some found) => found
    | _ => undecodableMessage
    end
  | None =>
    match textResult with
    | _ :: _ => textResult
    | [] => undecodableMessage
    end
  end.

(** The response that the function reads, if the network yields one. *)
Definition received (fetch : Request -> Completion Response.t) (text : jsstring)
  (history : list Message.t) : Completion Response.t :=
  fetchWithFallback fetch (basePayload text history).

Section Stored.

(** [Date.prototype.toISOString], through which [JSON.stringify] writes a
    [Date]. *)
Variable toISOString : Z -> jsstring.

(** What a JSON round trip makes of a message, a session and the
    collection: a [Date] comes back as its ISO string, all else as it was. *)
Definition storedMessage (m : Message.t) : Message.t :=
  {| Message.id := Message.id m;
     Message.role := Message.role m;
     Message.content := Message.content m;
     Message.timestamp :=
       match Message.timestamp m with
       | DateObject time => DateString (toISOString time)
       | DateString iso => DateString iso
       end;
     Message.isLiked := Message.isLiked m;
     Message.isDisliked := Message.isDisliked m |}.

Definition storedSession (s : ChatSession.t) : ChatSession.t :=
  {| ChatSession.id := ChatSession.id s;
     ChatSession.title := ChatSession.title s;
     ChatSession.messages := map storedMessage (ChatSession.messages s);
     ChatSession.updatedAt := ChatSession.updatedAt s |}.

(** Two collections are equivalent when they differ at most in how their
    timestamps are held. *)
Definition equivalent (a b : list ChatSession.t) : Prop :=
  map storedSession a = map storedSession b.

(** [JSON.parse(JSON.stringify(sessions))] is the array that reads, at type
    [ChatSession[]], as the stored form of [sessions]. *)
Definition roundTrips (JSON_stringify : list ChatSession.t -> jsstring)
  (sessions : list ChatSession.t) : Prop :=
  exists items,
    JSON_parse (JSON_stringify sessions) = Some (JArray items) /\
    Typed.asList Typed.asChatSession items = Some (map storedSession sessions).

End Stored.

(** The selection after a reload as the specification words it: the saved
    id when a loaded session has it, the first session otherwise. *)
Definition restoredSelection (current : jsstring) (loaded : list ChatSession.t) :
  option jsstring :=
  if existsb (fun s => str_eqb (ChatSession.id s) current) loaded then Some current
  else match loaded with
       | first :: _ => Some (ChatSession.id first)
       | [] => None
       end.

(** The summed weight of a list of values and of the members of an
    object. *)
Definition items_weight (l : list json) : nat := list_sum (map weight l).

Definition members_weight (ms : list (jsstring * json)) : nat :=
  list_sum (map (fun kv => weight (snd kv)) ms).

(** How deep arrays and objects are nested in a value: the number of
    activations of the extractor that are live at once when it walks the
    value down to its innermost element.  What a string carries does not
    count: it is searched inside a [try]. *)
Fixpoint nesting (v : json) : nat :=
  match v with
  | JArray items => S (list_max (map nesting items))
  | JObject members => S (list_max (map (fun kv => nesting (snd kv)) members))
  | _ => 1
  end.

(** An empty array inside [n] arrays. *)
Fixpoint nestedArrays (n : nat) : json :=
  match n with
  | O => JArray []
  | S n' => JArray [nestedArrays n']
  end.

(* ===================================================================== *)
(** ** The claims as first stated, and concrete inputs                     *)
(* ===================================================================== *)

(** The title rule as the specification words it, for the session at
    position [i] when it is the current one. *)
Definition title_claim (render pending : AppState) (now : Clock)
  (first : Message.t) (rest : list Message.t) : Prop :=
  forall (i : nat) (session session' : ChatSession.t),
    nth_error (sessions pending) i = Some session ->
    currentSessionId render = Some (ChatSession.id session) ->
    nth_error (sessions (updateCurrentMessages render (first :: rest) now pending)) i
    = Some session' ->
    ChatSession.title session' = titleAfterAppend_spec session first.

(** The null rule as the specification words it: a value without a
    recognised field anywhere gives [null], not an exception. *)
Definition null_claim (stack : nat) : Prop :=
  forall data : json, ~ Occurs data -> findResponseText stack data = Normal None.

(** The deletion rule as the specification words it: in a store of at
    least two sessions, deleting a session that is not the current one
    removes exactly that session. *)
Definition delete_claim (st : AppState) (now : Clock) : Prop :=
  forall s : ChatSession.t,
    2 <= length (sessions st) ->
    In s (sessions st) ->
    currentSessionId st <> Some (ChatSession.id s) ->
    exists l1 l2,
      sessions st = l1 ++ s :: l2
      /\ sessions (deleteSession st now (ChatSession.id s) st) = l1 ++ l2.

(** The reply rule as the specification words it. *)
Definition reply_claim (coerce : json -> jsstring + jsstring)
  (fetch : Request -> Completion Response.t) (stack : nat) (text : jsstring)
  (history : list Message.t) : Prop :=
  forall response : Response.t,
    received fetch text history = Normal response ->
    Response.ok response = true ->
    sendMessageToOrion coerce fetch stack text history
    = Normal (reply_spec stack (Response.text response)).

(** The round trip as the specification words it, for any collection and
    current id. *)
Definition roundtrip_claim (toISOString : Z -> jsstring)
  (JSON_stringify : list ChatSession.t -> jsstring)
  (fits : LocalStorage -> jsstring -> jsstring -> bool)
  (st : AppState) (storage : LocalStorage) (now : Clock) : Prop :=
  forall (storage' : LocalStorage) (current : jsstring),
    isInitialized st = true ->
    currentSessionId st = Some current ->
    fits storage orion_sessions (JSON_stringify (sessions st)) = true ->
    persist JSON_stringify fits st storage = Some storage' ->
    roundTrips toISOString JSON_stringify (sessions st) ->
    exists st' : AppState,
      initialize storage' now = Some st' /\
      equivalent toISOString (sessions st) (sessions st') /\
      currentSessionId st' = restoredSelection current (sessions st').

Module Sample.

(** A string literal of a JSON text: the characters between two quotes. *)
Definition quoted (s : string) : jsstring := [34%N] ++ lit s ++ [34%N].

Definition message (r : Role) (c : string) : Message.t :=
  Message.make (lit "1767225600000") r (lit c) (DateObject 1767225600000) None None.

Definition clock : Clock := fun k => (1767225600000 + Z.of_nat k)%Z.

Definition coerce : json -> jsstring + jsstring := fun _ => inl (lit "[object Object]").

Definition responds (status : Z) (body : jsstring) : Request -> Completion Response.t :=
  fun _ => Normal {| Response.status := status; Response.text := body |}.

Definition emptyStorage : LocalStorage := fun _ => None.

Definition fits : LocalStorage -> jsstring -> jsstring -> bool := fun _ _ _ => true.

Definition toISOString : Z -> jsstring := fun _ => lit "2026-01-01T00:00:00.000Z".

Definition session (id title : string) (messages : list Message.t) : ChatSession.t :=
  ChatSession.make (lit id) (lit title) messages 1767225600000.

Definition store (sessions : list ChatSession.t) (current : string) : AppState :=
  {| language := zh; sessions := sessions;
     currentSessionId := Some (lit current); isInitialized := true |}.

(** The text [JSON.stringify] writes for a session without messages. *)
Definition sessionText (id title : string) : jsstring :=
  lit "{" ++ quoted "id" ++ lit ":" ++ quoted id ++ lit ","
    ++ quoted "title" ++ lit ":" ++ quoted title ++ lit ","
    ++ quoted "messages" ++ lit ":[],"
    ++ quoted "updatedAt" ++ lit ":1767225600000}".

(** The text [JSON.stringify] writes for a session with one user message. *)
Definition sessionWithMessageText (id title content : string) : jsstring :=
  lit "{" ++ quoted "id" ++ lit ":" ++ quoted id ++ lit ","
    ++ quoted "title" ++ lit ":" ++ quoted title ++ lit ","
    ++ quoted "messages" ++ lit ":[{"
    ++ quoted "id" ++ lit ":" ++ quoted "1767225600000" ++ lit ","
    ++ quoted "role" ++ lit ":" ++ quoted "user" ++ lit ","
    ++ quoted "content" ++ lit ":" ++ quoted content ++ lit ","
    ++ quoted "timestamp" ++ lit ":" ++ quoted "2026-01-01T00:00:00.000Z" ++ lit "}],"
    ++ quoted "updatedAt" ++ lit ":1767225600000}".

Definition twoSessions : list ChatSession.t :=
  [session "17" "hello" [message user "hello"]; session "18" "trip" []].

Definition twoSessionsText : jsstring :=
  lit "[" ++ sessionWithMessageText "17" "hello" "hello" ++ lit ","
    ++ sessionText "18" "trip" ++ lit "]".

Definition twoSessionsItems : list json :=
  Eval vm_compute in
    match JSON_parse twoSessionsText with
    | Some (JArray items) => items
    | _ => []
    end.

(** A collection in which one session has the empty string as its id. *)
Definition emptyIdSessions : list ChatSession.t :=
  [session "x" "one" []; session "" "two" []].

Definition emptyIdText : jsstring :=
  lit "[" ++ sessionText "x" "one" ++ lit "," ++ sessionText "" "two" ++ lit "]".

Definition emptyIdItems : list json :=
  Eval vm_compute in
    match JSON_parse emptyIdText with
    | Some (JArray items) => items
    | _ => []
    end.

End Sample.

(* ===================================================================== *)
(** ** The extractor's answers                                             *)
(* ===================================================================== *)

(** [s] is the non-empty string that a recognised field holds somewhere in
    the value: in the object itself, in a member or an element, or in the
    JSON document a string carries. *)
Inductive Answer : json -> jsstring -> Prop :=
| answer_here : forall members k s,
    In k recognizedFields -> holdsText members k s -> Answer (JObject members) s
| answer_member : forall members k v s,
    In (k, v) members -> Answer v s -> Answer (JObject members) s
| answer_element : forall items v s,
    In v items -> Answer v s -> Answer (JArray items) s
| answer_embedded : forall str document v s,
    document = trim str \/ document = potentialJson (trim str) ->
    JSON_parse document = Some v -> Answer v s -> Answer (JString str) s.

(** A recognised field holding a non-empty string is reached through
    members and elements alone, without reading any string as JSON. *)
Inductive Carries : json -> Prop :=
| carries_here : forall members k s,
    In k recognizedFields -> holdsText members k s -> Carries (JObject members)
| carries_member : forall members k v,
    In (k, v) members -> Carries v -> Carries (JObject members)
| carries_element : forall items v,
    In v items -> Carries v -> Carries (JArray items).

(* ===================================================================== *)
(** ** The two requests of [sendMessageToOrion]                            *)
(* ===================================================================== *)

(** The first call: the key travels in the [X-API-KEY] header. *)
Definition primaryRequest (base : Payload) : Request :=
  {| X_API_KEY := Some API_CONFIG.KEY; body := base |}.

(** The fallback call: no key header, the key in two members of the body. *)
Definition fallbackRequest (base : Payload) : Request :=
  {| X_API_KEY := None; body := fallbackPayload base |}.

(** The status codes an HTTP response can carry, 100 to 599. *)
Definition statusCodes : list Z := map Z.of_nat (seq 100 500).

(** What [JSON.parse] left in [jsonResult]: the parsed body, or the initial
    [null] when the body is not JSON. *)
Definition jsonResultOf (textResult : jsstring) : json :=
  match JSON_parse textResult with
  | Some parsed => parsed
  | None => JNull
  end.

(* ===================================================================== *)
(** ** The store as the views drive it                                     *)
(* ===================================================================== *)

(** The events the views offer in a state: the sidebar lists the sessions
    of the store, and its select and delete buttons carry the id of the
    session they belong to. *)
Definition offered (st : AppState) (ev : Event) : Prop :=
  match ev with
  | SelectSession id => In id (map ChatSession.id (sessions st))
  | DeleteSession id => In id (map ChatSession.id (sessions st))
  | _ => True
  end.

(** The states the store goes through when every event is one the views
    offer. *)
Inductive displayed : AppState -> Prop :=
| displayed_init : forall storage now st,
    initialize storage now = Some st -> displayed st
| displayed_event : forall st ev now,
    displayed st -> offered st ev -> displayed (handle ev now st)
| displayed_late_update : forall render st newMessages now,
    displayed render -> displayed st ->
    displayed (updateCurrentMessages render newMessages now st).

(** The state that initialisation builds when it finds no sessions. *)
Definition freshStore (now : Clock) : AppState :=
  {| language := zh;
     sessions := [createSessionObject zh now];
     currentSessionId := Some (ChatSession.id (createSessionObject zh now));
     isInitialized := true |}.

(* ===================================================================== *)
(** ** The chat view: [handleSend] and [handleToggleFeedback]              *)
(* ===================================================================== *)

(** [t.errorGeneric] of [TRANSLATIONS]. *)

(* Orion 迷失在太空中。请稍后重试。 *)
Definition errorGeneric (language : Language) : jsstring :=
  match language with
  | zh =>
    lit "Orion " ++
    [36855; 22833; 22312; 22826; 31354; 20013; 12290; 35831; 31245; 21518; 37325; 35797;
     12290]%N
  | en => lit "Orion is lost in space. Please try again later."
  end.

(* 服务器繁忙 *)
Definition serverBusy : jsstring := [26381; 21153; 22120; 32321; 24537]%N.

(** The [useState] cells of the chat view that [handleSend] reads and
    writes. *)
Record ChatState : Type := {
  inputText : jsstring;
  isLoading : bool;
  error : option jsstring
}.

(** [!!flag] on an optional boolean member; [undefined] is falsy. *)
Definition flagged (flag : option bool) : bool :=
  match flag with
  | Some b => b
  | None => false
  end.

Inductive Feedback : Type := like | dislike.

(** The callback of [messages.map] in [handleToggleFeedback]. *)
Definition toggleFeedback (id : jsstring) (type : Feedback) (msg : Message.t) : Message.t :=
  if negb (str_eqb (Message.id msg) id) then msg
  else
    match type with
    | like =>
      {| Message.id := Message.id msg;
         Message.role := Message.role msg;
         Message.content := Message.content msg;
         Message.timestamp := Message.timestamp msg;
         Message.isLiked := Some (negb (flagged (Message.isLiked msg)));
         Message.isDisliked := Some false |}
    | dislike =>
      {| Message.id := Message.id msg;
         Message.role := Message.role msg;
         Message.content := Message.content msg;
         Message.timestamp := Message.timestamp msg;
         Message.isLiked := Some false;
         Message.isDisliked := Some (negb (flagged (Message.isDisliked msg))) |}
    end.

(** [handleToggleFeedback(id, type)], in the render that shows [render]:
    the view's [messages] are the current messages of that render and its
    [onUpdateMessages] is that render's [updateCurrentMessages]. *)
Definition handleToggleFeedback (render : AppState) (id : jsstring) (type : Feedback)
  (now : Clock) (pending : AppState) : AppState :=
  updateCurrentMessages render (map (toggleFeedback id type) (getCurrentMessages render))
    now pending.

(** The readings of a clock from the [n]-th on. *)
Definition later (n : nat) (now : Clock) : Clock := fun k => now (n + k)%nat.

(** [textToUse]: the argument when [handleSend] is called with a string (a
    suggestion chip), the input box otherwise. *)
Definition textToUse (manualInput : option jsstring) (chat : ChatState) : jsstring :=
  match manualInput with
  | Some text => text
  | None => inputText chat
  end.

(** [userMsg]: the id is the first reading of the clock, the timestamp the
    second. *)
Definition userMsg (textToUse : jsstring) (now : Clock) : Message.t :=
  {| Message.id := Number_toString (now 0%nat);
     Message.role := user;
     Message.content := textToUse;
     Message.timestamp := DateObject (now 1%nat);
     Message.isLiked := None;
     Message.isDisliked := None |}.

(** [aiMsg]: the id is [(Date.now() + 1).toString()]. *)
Definition aiMsg (responseText : jsstring) (now : Clock) : Message.t :=
  {| Message.id := Number_toString (now 0%nat + 1);
     Message.role := assistant;
     Message.content := responseText;
     Message.timestamp := DateObject (now 1%nat);
     Message.isLiked := None;
     Message.isDisliked := None |}.

(** [updatedMessages]; [None] when [handleSend] returns at once because the
    text is blank or a send is in flight. *)
Definition updatedMessages (render : AppState) (chat : ChatState)
  (manualInput : option jsstring) (now : Clock) : option (list Message.t) :=
  if str_eqb (trim (textToUse manualInput chat)) [] || isLoading chat then None
  else Some (getCurrentMessages render ++ [userMsg (textToUse manualInput chat) now]).

(** What [handleSend] does to the store before it awaits the reply: the
    first [onUpdateMessages]. *)
Definition handleSend_sent (render : AppState) (chat : ChatState)
  (manualInput : option jsstring) (now : Clock) (pending : AppState) : AppState :=
  match updatedMessages render chat manualInput now with
  | None => pending
  | Some updated => updateCurrentMessages render updated (later 2 now) pending
  end.

(** What it does to the store once the awaited call has ended, in the state
    [pending] the store has by then: the second [onUpdateMessages], made by
    the same closure, or nothing when the call was rejected. *)
Definition handleSend_settled (render : AppState) (updated : list Message.t)
  (outcome : Completion jsstring) (now : Clock) (pending : AppState) : AppState :=
  match outcome with
  | Normal responseText =>
    updateCurrentMessages render (updated ++ [aiMsg responseText now]) (later 2 now) pending
  | Throw err => pending
  end.

(** [displayError] of the [catch] block. *)
Definition displayError (language : Language) (err : JsError) : jsstring :=
  if (match language with en => true | zh => false end) && includes (message err) serverBusy
  then errorGeneric language
  else if negb (truthy (JString (message err))) then errorGeneric language
  else message err.

(** The view's own cells before the [await] and after it. *)
Definition chat_sent (manualInput : option jsstring) (pending : ChatState) : ChatState :=
  {| inputText := match manualInput with Some _ => inputText pending | None => [] end;
     isLoading := true;
     error := None |}.

Definition chat_settled (language : Language) (outcome : Completion jsstring)
  (pending : ChatState) : ChatState :=
  {| inputText := inputText pending;
     isLoading := false;
     error := match outcome with
              | Normal _ => error pending
              | Throw err => Some (displayError language err)
              end |}.

Section ChatInterface.

Variable coerce : json -> jsstring + jsstring.
Variable fetch : Request -> Completion Response.t.
Variable stack : nat.

(** [handleSend(manualInput)] from its call to its end, when nothing else
    touches the store while the reply is awaited: [now] is the clock before
    the [await], [after] the clock once the call has ended. *)
Definition handleSend (render : AppState) (chat : ChatState)
  (manualInput : option jsstring) (now after : Clock) : AppState * ChatState :=
  match updatedMessages render chat manualInput now with
  | None => (render, chat)
  | Some updated =>
    let outcome :=
      sendMessageToOrion coerce fetch stack (textToUse manualInput chat) updated in
    (handleSend_settled render updated outcome after
       (handleSend_sent render chat manualInput now render),
     chat_settled (language render) outcome (chat_sent manualInput chat))
  end.

End ChatInterface.

(* ===================================================================== *)
(** ** [components/Sidebar.tsx]: [getDisplayTitle]                         *)
(* ===================================================================== *)

(* '✨ 新对话', '✨ New Chat', '新对话', 'New Chat', 'Untitled Session', '未命名对话' *)
Definition defaultTitles : list jsstring :=
  [title_zh; title_en; [26032; 23545; 35805]%N; lit "New Chat"; lit "Untitled Session";
   [26410; 21629; 21517; 23545; 35805]%N].

(** [t.defaultTitle] of the sidebar. *)
Definition defaultTitle (language : Language) : jsstring :=
  match language with
  | zh => title_zh
  | en => title_en
  end.

(** [getDisplayTitle(session)], in the sidebar of the given language. *)
Definition getDisplayTitle (language : Language) (session : ChatSession.t) : jsstring :=
  let isDefaultTitle :=
    negb (truthy (JString (ChatSession.title session)))
    || existsb (str_eqb (ChatSession.title session)) defaultTitles in
  if isDefaultTitle then
    match find (fun m => match Message.role m with user => true | assistant => false end)
               (ChatSession.messages session) with
    | Some firstUserMsg =>
      if truthy (JString (Message.content firstUserMsg))
         && truthy (JString (trim (Message.content firstUserMsg)))
      then
        let content := trim (Message.content firstUserMsg) in
        if (20 <? length content)%nat then slice content 0 (Some 20%Z) ++ lit "..."
        else content
      else defaultTitle language
    | None => defaultTitle language
    end
  else ChatSession.title session.

(* ===================================================================== *)
(** ** The [App] component: export and background image                    *)
(* ===================================================================== *)

(** [getCurrentSessionTitle()] *)
Definition getCurrentSessionTitle (st : AppState) : jsstring :=
  match getCurrentSession st with
  | Some session => ChatSession.title session
  | None => []
  end.

(* 未命名对话 *)
Definition untitled (language : Language) : jsstring :=
  match language with
  | zh => [26410; 21629; 21517; 23545; 35805]%N
  | en => lit "Untitled Session"
  end.

(** [session?.title || (language === 'zh' ? ... : ...)] *)
Definition exportTitle (st : AppState) : jsstring :=
  match getCurrentSession st with
  | Some session =>
    match ChatSession.title session with
    | [] => untitled (language st)
    | title => title
    end
  | None => untitled (language st)
  end.

(** The characters that [/[^a-z0-9\u4e00-\u9fa5]/gi] does not match: the
    letters of either case, the digits and the ideographs from U+4E00 to
    U+9FA5. *)
Definition isFileNameChar (c : char16) : bool :=
  (N.leb 97 c && N.leb c 122) || (N.leb 65 c && N.leb c 90)
  || (N.leb 48 c && N.leb c 57) || (N.leb 19968 c && N.leb c 40869).

(** [title.replace(/[^a-z0-9\u4e00-\u9fa5]/gi, '_').slice(0, 30)] *)
Definition sanitized (title : jsstring) : jsstring :=
  slice (map (fun c => if isFileNameChar c then c else 95%N) title) 0 (Some 30%Z).

(** What the export hands to the browser: the text of the file and the
    name of the download. *)
Record ExportedFile : Type := { fileContent : jsstring; fileName : jsstring }.

Section ExportedSession.

(** [new Date(x).toLocaleString(locale)], the locale being zh-CN or en-US
    after the language. *)
Variable toLocaleString : Language -> Timestamp -> jsstring.

(** The four lines that open the file. *)
Definition exportHeader (st : AppState) (now : Clock) : jsstring :=
  lit "Orion AI Chat Export" ++ newline
  ++ lit "Session: " ++ exportTitle st ++ newline
  ++ lit "Date: " ++ toLocaleString (language st) (DateObject (now 0%nat)) ++ newline
  ++ lit "----------------------------------------" ++ newline ++ newline.

(** The text appended for one message. *)
Definition exportBlock (language : Language) (msg : Message.t) : jsstring :=
  lit "[" ++ toLocaleString language (Message.timestamp msg) ++ lit "] "
  ++ (match Message.role msg with user => lit "User" | assistant => lit "Orion" end)
  ++ lit ":" ++ newline ++ Message.content msg ++ newline ++ newline.

(** [handleExportSession()]; [None] when it returns at once because the
    current log is empty.  The clock is read for the date line and then for
    the name of the download. *)
Definition handleExportSession (st : AppState) (now : Clock) : option ExportedFile :=
  match getCurrentMessages st with
  | [] => None
  | messages =>
    Some {| fileContent :=
              fold_left (fun content msg => content ++ exportBlock (language st) msg)
                        messages (exportHeader st now);
            fileName :=
              lit "Orion-Chat-" ++ sanitized (exportTitle st) ++ lit "-"
              ++ Number_toString (now 1%nat) ++ lit ".txt" |}
  end.

End ExportedSession.

Definition orion_bg_image : jsstring := lit "orion_bg_image".

(* 图片太大，请上传小于 2MB 的图片 *)
Definition imageTooLarge (language : Language) : jsstring :=
  match language with
  | zh =>
    [22270; 29255; 22826; 22823; 65292; 35831; 19978; 20256; 23567; 20110]%N
    ++ lit " 2MB " ++ [30340; 22270; 29255]%N
  | en => lit "Image too large. Please upload an image smaller than 2MB."
  end.

(* 无法保存背景图片（存储空间不足）。 *)
Definition storageFull (language : Language) : jsstring :=
  match language with
  | zh =>
    [26080; 27861; 20445; 23384; 32972; 26223; 22270; 29255; 65288; 23384; 20648; 31354;
     38388; 19981; 36275; 65289; 12290]%N
  | en => lit "Could not save background image (Storage full)."
  end.

(** The chosen file: its size in bytes and what [FileReader.readAsDataURL]
    leaves in [reader.result] at [loadend], the data URL, or [null] when the
    read failed. *)
Record File : Type := { size : Z; result : option jsstring }.

(** The state [handleImageUpload] works on, and what it tells the user. *)
Record Upload : Type := {
  bgImage : option jsstring;
  storage : LocalStorage;
  alert : option jsstring
}.

Section Background.

Variable fits : LocalStorage -> jsstring -> jsstring -> bool.

(** [handleImageUpload(e)] with the reader's [onloadend]; [file] is
    [e.target.files?.[0]].  A [null] result is written as the string
    [null], as [setItem] converts it. *)
Definition handleImageUpload (language : Language) (file : option File)
  (bgImage : option jsstring) (storage : LocalStorage) : Upload :=
  match file with
  | None => {| bgImage := bgImage; storage := storage; alert := None |}
  | Some file =>
    if (2 * 1024 * 1024 <? size file)%Z then
      {| bgImage := bgImage; storage := storage; alert := Some (imageTooLarge language) |}
    else
      let value := match result file with Some url => url | None => lit "null" end in
      match setItem fits storage orion_bg_image value with
      | Some storage' =>
        {| bgImage := result file; storage := storage'; alert := None |}
      | None =>
        {| bgImage := bgImage; storage := storage; alert := Some (storageFull language) |}
      end
  end.

End Background.

(** The background of the first render after the initialisation effect:
    [if (savedBg) setBgImage(savedBg)] on the initial [null]. *)
Definition initializeBackground (storage : LocalStorage) : option jsstring :=
  match getItem storage orion_bg_image with
  | Some (c :: savedBg) => Some (c :: savedBg)
  | _ => None
  end.

(* ===================================================================== *)
(** ** [sw.js]: the service worker's fetch handler                         *)
(* ===================================================================== *)

Module ServiceWorker.

Definition CACHE_NAME : jsstring := lit "orion-cache-v1".

(** [response.type] *)
Inductive ResponseType : Type :=
| basic | cors | default | error | opaque | opaqueredirect.

(** A response, as far as the handler looks at it. *)
Record Fetched : Type := { status : Z; type : ResponseType; payload : jsstring }.

(** The request of a fetch event: the hostname of its URL and its method. *)
Record FetchEvent : Type := { hostname : jsstring; method : jsstring }.

(** What the handler does with the event: it returns without
    [respondWith], leaving the request to the browser, or it answers with a
    response (or a rejection) and may put a copy of the response in the
    cache [CACHE_NAME]. *)
Inductive Handling : Type :=
| Ignored
| Answered (response : Completion Fetched) (put : option Fetched).

(** The fetch handler; [cached] is what [caches.match(event.request)]
    resolves to and [network] what [fetch(fetchRequest)] ends with. *)
Definition onFetch (cached : option Fetched) (network : Completion Fetched)
  (event : FetchEvent) : Handling :=
  if includes (hostname event) (lit "n8n.cloud") then Ignored
  else
    match cached with
    | Some response => Answered (Normal response) None
    | None =>
      match network with
      | Throw e => Answered (Throw e) None
      | Normal response =>
        if negb (status response =? 200)%Z
           || (match type response with basic => false | _ => true end
               && match type response with cors => false | _ => true end)
        then Answered (Normal response) None
        else Answered (Normal response)
                      (if str_eqb (method event) (lit "GET") then Some response else None)
      end
    end.

End ServiceWorker.

(* ===================================================================== *)
(** ** [JSON.stringify] on the session collection                          *)
(* ===================================================================== *)

(** The text [JSON.stringify(sessions)] writes for a [ChatSession[]]:
    [QuoteJSONString] for the strings, [SerializeJSONObject] and
    [SerializeJSONArray] without indentation for the structure. *)
Module JSONStringify.

(** A hexadecimal digit in lower case. *)
Definition hexChar (d : N) : char16 :=
  if (d <? 10)%N then (48 + d)%N else (87 + d)%N.

(** [UnicodeEscape]: a backslash, the letter u and four hexadecimal
    digits. *)
Definition unicodeEscape (c : char16) : jsstring :=
  [92; 117; hexChar (c / 4096); hexChar ((c / 256) mod 16); hexChar ((c / 16) mod 16);
   hexChar (c mod 16)]%N.

Definition isLeadingSurrogate (c : char16) : bool := N.leb 55296 c && N.leb c 56319.

Definition isTrailingSurrogate (c : char16) : bool := N.leb 56320 c && N.leb c 57343.

(** The characters between the quotes of [QuoteJSONString]: the short
    escapes for backspace, tab, line feed, form feed, carriage return, quote
    and backslash; a unicode escape for the other control characters and for
    a surrogate that is not part of a pair; every other character as it
    is. *)
Fixpoint quoteChars (s : jsstring) : jsstring :=
  match s with
  | [] => []
  | c :: r =>
    if N.eqb c 8 then [92; 98]%N ++ quoteChars r
    else if N.eqb c 9 then [92; 116]%N ++ quoteChars r
    else if N.eqb c 10 then [92; 110]%N ++ quoteChars r
    else if N.eqb c 12 then [92; 102]%N ++ quoteChars r
    else if N.eqb c 13 then [92; 114]%N ++ quoteChars r
    else if N.eqb c 34 then [92; 34]%N ++ quoteChars r
    else if N.eqb c 92 then [92; 92]%N ++ quoteChars r
    else if N.ltb c 32 then unicodeEscape c ++ quoteChars r
    else if isLeadingSurrogate c then
      match r with
      | d :: r' =>
        if isTrailingSurrogate d then c :: d :: quoteChars r'
        else unicodeEscape c ++ quoteChars r
      | [] => unicodeEscape c
      end
    else if isTrailingSurrogate c then unicodeEscape c ++ quoteChars r
    else c :: quoteChars r
  end.

(** [QuoteJSONString(s)] *)
Definition quote (s : jsstring) : jsstring := [34%N] ++ quoteChars s ++ [34%N].

(** [SerializeJSONObject]: the members, each a key and the text of its
    value, in the order the object enumerates them. *)
Definition stringifyObject (members : list (jsstring * jsstring)) : jsstring :=
  lit "{"
  ++ join (lit ",") (map (fun member => quote (fst member) ++ lit ":" ++ snd member) members)
  ++ lit "}".

(** [SerializeJSONArray] *)
Definition stringifyArray (items : list jsstring) : jsstring :=
  lit "[" ++ join (lit ",") items ++ lit "]".

Definition stringifyBoolean (b : bool) : jsstring :=
  if b then lit "true" else lit "false".

Section Sessions.

(** [Date.prototype.toISOString], through which [toJSON] writes a [Date]. *)
Variable toISOString : Z -> jsstring.

(** The two feedback flags are enumerated in the order the message got
    them: [isLiked] first when the first button pressed was the like button,
    [isDisliked] first otherwise. *)
Variable dislikedFirst : Message.t -> bool.

(** An optional member: absent when the value is [undefined]. *)
Definition flagMember (k : string) (flag : option bool) : list (jsstring * jsstring) :=
  match flag with
  | Some b => [(lit k, stringifyBoolean b)]
  | None => []
  end.

Definition stringifyMessage (msg : Message.t) : jsstring :=
  stringifyObject
    ([(lit "id", quote (Message.id msg));
      (lit "role", quote (match Message.role msg with
                          | user => lit "user"
                          | assistant => lit "assistant"
                          end));
      (lit "content", quote (Message.content msg));
      (lit "timestamp", quote (match Message.timestamp msg with
                               | DateObject time => toISOString time
                               | DateString iso => iso
                               end))]
     ++ (if dislikedFirst msg
         then flagMember "isDisliked" (Message.isDisliked msg)
              ++ flagMember "isLiked" (Message.isLiked msg)
         else flagMember "isLiked" (Message.isLiked msg)
              ++ flagMember "isDisliked" (Message.isDisliked msg))).

Definition stringifySession (session : ChatSession.t) : jsstring :=
  stringifyObject
    [(lit "id", quote (ChatSession.id session));
     (lit "title", quote (ChatSession.title session));
     (lit "messages", stringifyArray (map stringifyMessage (ChatSession.messages session)));
     (lit "updatedAt", Number_toString (ChatSession.updatedAt session))].

(** [JSON.stringify(sessions)] *)
Definition JSON_stringify (sessions : list ChatSession.t) : jsstring :=
  stringifyArray (map stringifySession sessions).

End Sessions.

End JSONStringify.

(** The character after a value inside a JSON text: a comma, a closing
    bracket or brace, or the end of the text. *)
Definition delimited (rest : jsstring) : bool :=
  match rest with
  | [] => true
  | c :: _ => N.eqb c 44 || N.eqb c 93 || N.eqb c 125
  end.

(** The parser reads [text] as [v], whatever delimiter follows it. *)
Definition Reads (text : jsstring) (v : json) : Prop :=
  forall rest : jsstring,
    delimited rest = true ->
    exists fuel, JSONParse.parse_value fuel (text ++ rest) = Some (v, rest).

(** The digits of a decimal numeral. *)
Fixpoint uint_digits (d : Decimal.uint) : list N :=
  match d with
  | Decimal.Nil => []
  | Decimal.D0 l => 0%N :: uint_digits l
  | Decimal.D1 l => 1%N :: uint_digits l
  | Decimal.D2 l => 2%N :: uint_digits l
  | Decimal.D3 l => 3%N :: uint_digits l
  | Decimal.D4 l => 4%N :: uint_digits l
  | Decimal.D5 l => 5%N :: uint_digits l
  | Decimal.D6 l => 6%N :: uint_digits l
  | Decimal.D7 l => 7%N :: uint_digits l
  | Decimal.D8 l => 8%N :: uint_digits l
  | Decimal.D9 l => 9%N :: uint_digits l
  end.

(** The members a parsed object has after reading the given fields in
    order. *)
Definition defineAll (fields : list (jsstring * jsstring * json))
  (acc : list (jsstring * json)) : list (jsstring * json) :=
  fold_left (fun members field => JSONParse.define (fst (fst field)) (snd field) members)
            fields acc.

(** The members of a stored message and of a stored session: for each, the
    key, the text [JSON.stringify] writes for the value, and the value
    [JSON.parse] reads from that text. *)
Section Fields.
Import JSONStringify.

Variable toISOString : Z -> jsstring.
Variable dislikedFirst : Message.t -> bool.

Definition flagField (k : string) (flag : option bool) : list (jsstring * jsstring * json) :=
  match flag with
  | Some b => [(lit k, stringifyBoolean b, JBool b)]
  | None => []
  end.

Definition stringField (k : string) (value : jsstring) : jsstring * jsstring * json :=
  (lit k, quote value, JString value).

Definition messageFields (msg : Message.t) : list (jsstring * jsstring * json) :=
  [stringField "id" (Message.id msg);
   stringField "role" (match Message.role msg with
                       | user => lit "user"
                       | assistant => lit "assistant"
                       end);
   stringField "content" (Message.content msg);
   stringField "timestamp" (match Message.timestamp msg with
                            | DateObject time => toISOString time
                            | DateString iso => iso
                            end)]
  ++ (if dislikedFirst msg
      then flagField "isDisliked" (Message.isDisliked msg)
           ++ flagField "isLiked" (Message.isLiked msg)
      else flagField "isLiked" (Message.isLiked msg)
           ++ flagField "isDisliked" (Message.isDisliked msg)).

Definition messageValue (msg : Message.t) : json :=
  JObject (defineAll (messageFields msg) []).

Definition sessionFields (session : ChatSession.t) : list (jsstring * jsstring * json) :=
  [stringField "id" (ChatSession.id session);
   stringField "title" (ChatSession.title session);
   (lit "messages",
    stringifyArray (map (stringifyMessage toISOString dislikedFirst)
                        (ChatSession.messages session)),
    JArray (map messageValue (ChatSession.messages session)));
   (lit "updatedAt", Number_toString (ChatSession.updatedAt session),
    JNumber (ChatSession.updatedAt session) 0)].

Definition sessionValue (session : ChatSession.t) : json :=
  JObject (defineAll (sessionFields session) []).

End Fields.

(** Further concrete inputs. *)
Module Scenario.

(** A stored collection whose one session has the empty string as its id
    and a placeholder title, and the store that initialisation builds from
    it. *)
Definition blankIdText : jsstring :=
  lit "[{" ++ Sample.quoted "id" ++ lit ":" ++ [34; 34]%N ++ lit ","
    ++ Sample.quoted "title" ++ lit ":" ++ [34%N] ++ title_zh ++ [34%N] ++ lit ","
    ++ Sample.quoted "messages" ++ lit ":[],"
    ++ Sample.quoted "updatedAt" ++ lit ":0}]".

Definition blankIdStorage : LocalStorage :=
  stored Sample.emptyStorage orion_sessions blankIdText.

Definition blankIdStore : AppState :=
  {| language := zh;
     sessions := [ChatSession.make [] title_zh [] 0];
     currentSessionId := Some [];
     isInitialized := true |}.

(** A clock that does not advance: two readings in one millisecond. *)
Definition sameMillisecond : Clock := fun _ => 1767225600001%Z.

(** The new-chat button pressed twice within one millisecond, then the
    first session selected again: the two new sessions share their id. *)
Definition doubleClick : AppState :=
  handle (SelectSession (lit "1767225600000")) Sample.clock
    (handle NewChat sameMillisecond
       (handle NewChat sameMillisecond (freshStore Sample.clock))).

(** A reply wrapped in a Markdown fence. *)
Definition fenceOpen : jsstring := lit "```json" ++ newline.
Definition fenceClose : jsstring := newline ++ lit "```".
Definition answerBody : jsstring :=
  Sample.quoted "output" ++ lit ": " ++ Sample.quoted "hi".
Definition answer : json := JObject [(lit "output", JString (lit "hi"))].

(** A document held as a string inside another document. *)
Definition nested : json :=
  JArray [JObject [(lit "data", JObject [(lit "content", JString (lit "x"))])]].

(** A network that blocks the call with the key header and serves the
    fallback. *)
Definition failedToFetch : JsError :=
  {| name := lit "TypeError"; message := lit "Failed to fetch" |}.

Definition blockedThenServed : Request -> Completion Response.t :=
  fun request =>
    match X_API_KEY request with
    | Some _ => Throw failedToFetch
    | None => Normal {| Response.status := 200; Response.text := lit "hello" |}
    end.

Definition quotaExceeded : jsstring :=
  lit "{" ++ Sample.quoted "message" ++ lit ":" ++ Sample.quoted "quota exceeded" ++ lit "}".

(** The chat view with a text in its input box and no send in flight. *)
Definition typed (text : string) : ChatState :=
  {| inputText := lit text; isLoading := false; error := None |}.

Definition twoSessionStore : AppState := Sample.store Sample.twoSessions "17".

(** A log with one reply, to which feedback can be given. *)
Definition reply : Message.t :=
  Message.make (lit "1767225600001") assistant (lit "sunny") (DateObject 1767225600001)
               None None.

Definition repliedStore : AppState :=
  Sample.store [Sample.session "17" "hello" [Sample.message user "hello"; reply]] "17".

Definition dislikedFirst : Message.t -> bool := fun _ => false.

Definition toLocaleString : Language -> Timestamp -> jsstring :=
  fun _ _ => lit "2026/1/1 08:00:00".

(** A storage that holds a text which is not JSON under the sessions key. *)
Definition brokenStorage : LocalStorage :=
  stored Sample.emptyStorage orion_sessions (lit "not json").

Definition picture : File :=
  {| size := 1024; result := Some (lit "data:image/png;base64,AAAA") |}.

Definition page : ServiceWorker.FetchEvent :=
  {| ServiceWorker.hostname := lit "orion.example"; ServiceWorker.method := lit "GET" |}.

Definition served : ServiceWorker.Fetched :=
  {| ServiceWorker.status := 200; ServiceWorker.type := ServiceWorker.basic;
     ServiceWorker.payload := lit "<html></html>" |}.

End Scenario.

(* ===================================================================== *)
(** ** Facts about strings                                                 *)
(* ===================================================================== *)

Lemma str_eqb_eq (a b : jsstring) : str_eqb a b = true <-> a = b.
Proof.
  revert b; induction a as [|x a IH]; intros [|y b]; simpl; split; intros H;
    try reflexivity; try discriminate.
  - apply andb_true_iff in H as [Hx Hr]. apply N.eqb_eq in Hx. apply IH in Hr.
    now subst.
  - injection H as -> ->. rewrite N.eqb_refl. simpl. now apply IH.
Qed.

Lemma str_eqb_refl (a : jsstring) : str_eqb a a = true.
Proof. now apply str_eqb_eq. Qed.

Lemma str_eqb_neq (a b : jsstring) : str_eqb a b = false <-> a <> b.
Proof.
  split.
  - intros H E. apply str_eqb_eq in E. congruence.
  - intros H. destruct (str_eqb a b) eqn:E; [|reflexivity].
    apply str_eqb_eq in E. contradiction.
Qed.

Lemma trimStart_length (s : jsstring) : length (trimStart s) <= length s.
Proof.
  induction s as [|c s IH]; simpl; [lia|].
  destruct (isWhiteSpace c); simpl; lia.
Qed.

Lemma trim_length (s : jsstring) : length (trim s) <= length s.
Proof.
  unfold trim, trimEnd. rewrite length_rev.
  etransitivity; [apply trimStart_length|].
  rewrite length_rev. apply trimStart_length.
Qed.

Lemma substring_length (s : jsstring) (a b : Z) : length (substring s a b) <= length s.
Proof.
  unfold substring. rewrite length_firstn, length_skipn. lia.
Qed.

Lemma startsWith_length (s p : jsstring) : startsWith s p = true -> length p <= length s.
Proof.
  revert s; induction p as [|x p IH]; intros [|y s]; simpl; intros H;
    try lia; try discriminate.
  apply andb_true_iff in H as [_ H]. apply IH in H. lia.
Qed.

(** [slice(0, n)] keeps the first [n] elements, [slice(-n)] the last [n]. *)
Lemma slice_prefix {A : Type} (l : list A) (n : nat) :
  slice l 0 (Some (Z.of_nat n)) = firstn n l.
Proof.
  unfold slice.
  replace (0 <? 0)%Z with false by reflexivity.
  destruct (Z.ltb_spec (Z.of_nat n) 0) as [H|_]; [lia|].
  replace (Z.to_nat (Z.min 0 (Z.of_nat (length l)))) with 0%nat by lia.
  replace (Z.to_nat (Z.max (Z.min (Z.of_nat n) (Z.of_nat (length l)) - Z.min 0 (Z.of_nat (length l))) 0))
    with (Nat.min n (length l)) by lia.
  simpl. destruct (Nat.le_ge_cases n (length l)).
  - now rewrite Nat.min_l.
  - rewrite Nat.min_r by assumption. now rewrite !firstn_all2 by lia.
Qed.

Lemma slice_suffix {A : Type} (l : list A) (n : nat) :
  (0 < n)%nat -> slice l (- Z.of_nat n) None = lastN n l.
Proof.
  intros Hn. unfold slice, lastN.
  destruct (Z.ltb_spec (- Z.of_nat n) 0) as [_|H]; [|lia].
  set (from := Z.to_nat (Z.max (Z.of_nat (length l) + - Z.of_nat n) 0)).
  replace (Z.to_nat (Z.max (Z.of_nat (length l) - Z.max (Z.of_nat (length l) + - Z.of_nat n) 0) 0))
    with (length l - from)%nat by lia.
  assert (Hfrom : from = (length l - n)%nat) by lia.
  rewrite firstn_all2 by (rewrite length_skipn; lia).
  rewrite Hfrom. clear.
  rewrite firstn_rev, rev_involutive. reflexivity.
Qed.

(* ===================================================================== *)
(** ** Facts about [JSON.parse]                                            *)
(* ===================================================================== *)

Section ParserFacts.
Import JSONParse.

Lemma skip_ws_length (s : jsstring) : length (skip_ws s) <= length s.
Proof.
  induction s as [|c s IH]; simpl; [lia|].
  destruct (isJsonWhitespace c); simpl; lia.
Qed.

Lemma consChar_inv c r str rest :
  consChar c r = Some (str, rest) ->
  exists str', r = Some (str', rest) /\ str = c :: str'.
Proof.
  destruct r as [[str' rest']|]; simpl; intros H; [|discriminate].
  injection H as <- <-. eauto.
Qed.

(** A string literal is at least as long as the string it denotes, and its
    closing quote is consumed. *)
Lemma parse_string_chars_length (s str rest : jsstring) :
  parse_string_chars s = Some (str, rest) -> length str + length rest < length s.
Proof.
  remember (length s) as n eqn:Hn.
  revert s str rest Hn.
  induction n as [n IH] using lt_wf_ind.
  intros [|c r] str rest Hn H; simpl in H; [discriminate|].
  simpl in Hn.
  destruct (N.eqb c 34).
  { injection H as <- <-. simpl. lia. }
  destruct (N.eqb c 92).
  - destruct r as [|e r']; [discriminate|].
    destruct (N.eqb e 117).
    + destruct r' as [|h1 [|h2 [|h3 [|h4 r'']]]]; try discriminate.
      destruct (hex4 h1 h2 h3 h4); [|discriminate].
      apply consChar_inv in H as (str' & H & ->).
      apply (IH (length r'')) in H; simpl in *; try lia.
    + destruct (simpleEscape e); [|discriminate].
      apply consChar_inv in H as (str' & H & ->).
      apply (IH (length r')) in H; simpl in *; try lia.
  - destruct (N.ltb c 32); [discriminate|].
    apply consChar_inv in H as (str' & H & ->).
    apply (IH (length r)) in H; simpl in *; try lia.
Qed.

Lemma take_digits_length (s : jsstring) :
  length (snd (take_digits s)) <= length s.
Proof.
  induction s as [|c s IH]; simpl; [lia|].
  destruct (isDigit c); simpl; [|lia].
  destruct (take_digits s) as [ds rest]; simpl in *. lia.
Qed.

Lemma number_sign_length (s : jsstring) : length (snd (number_sign s)) <= length s.
Proof.
  destruct s as [|c r]; simpl; [lia|]. destruct (N.eqb c 45); simpl; lia.
Qed.

Lemma exponent_sign_length (s : jsstring) : length (snd (exponent_sign s)) <= length s.
Proof.
  destruct s as [|c r]; simpl; [lia|].
  destruct (N.eqb c 45); simpl; [lia|]. destruct (N.eqb c 43); simpl; lia.
Qed.

Lemma number_int_length (s : jsstring) ints rest :
  number_int s = Some (ints, rest) -> length rest < length s.
Proof.
  destruct s as [|c r]; simpl; [discriminate|].
  destruct (N.eqb c 48).
  - intros H; injection H as <- <-. lia.
  - destruct (isDigit c); [|discriminate].
    intros H; injection H as <- <-. pose proof (take_digits_length r). lia.
Qed.

Lemma number_frac_length (s : jsstring) fracs rest :
  number_frac s = Some (fracs, rest) -> length rest <= length s.
Proof.
  destruct s as [|c r]; simpl; [intros H; injection H as <- <-; simpl; lia|].
  destruct (N.eqb c 46).
  - destruct (fst (take_digits r)); [discriminate|].
    intros H; injection H as <- <-. pose proof (take_digits_length r). lia.
  - intros H; injection H as <- <-. simpl; lia.
Qed.

Lemma number_exp_length (s : jsstring) ex rest :
  number_exp s = Some (ex, rest) -> length rest <= length s.
Proof.
  destruct s as [|c r]; simpl; [intros H; injection H as <- <-; simpl; lia|].
  destruct (N.eqb c 101 || N.eqb c 69).
  - destruct (fst (take_digits (snd (exponent_sign r)))); [discriminate|].
    intros H; injection H as <- <-.
    pose proof (take_digits_length (snd (exponent_sign r))).
    pose proof (exponent_sign_length r). lia.
  - intros H; injection H as <- <-. simpl; lia.
Qed.

Lemma parse_number_length (s : jsstring) v rest :
  parse_number s = Some (v, rest) -> weight v = 1 /\ length rest < length s.
Proof.
  unfold parse_number.
  destruct (number_int (snd (number_sign s))) as [[ints s2]|] eqn:Ei; [|discriminate].
  destruct (number_frac s2) as [[fracs s3]|] eqn:Ef; [|discriminate].
  destruct (number_exp s3) as [[ex s4]|] eqn:Ee; [|discriminate].
  intros H; injection H as <- <-.
  apply number_int_length in Ei. apply number_frac_length in Ef.
  apply number_exp_length in Ee. pose proof (number_sign_length s).
  split; [reflexivity|lia].
Qed.

Lemma parse_literal_length (s : jsstring) v rest :
  parse_literal s = Some (v, rest) -> weight v = 1 /\ length rest < length s.
Proof.
  unfold parse_literal.
  destruct (startsWith s (lit "true")) eqn:E1.
  { intros H; injection H as <- <-. apply startsWith_length in E1.
    pose proof (length_skipn 4 s) as L. simpl in *. split; [reflexivity|lia]. }
  destruct (startsWith s (lit "false")) eqn:E2.
  { intros H; injection H as <- <-. apply startsWith_length in E2.
    pose proof (length_skipn 5 s) as L. simpl in *. split; [reflexivity|lia]. }
  destruct (startsWith s (lit "null")) eqn:E3.
  { intros H; injection H as <- <-. apply startsWith_length in E3.
    pose proof (length_skipn 4 s) as L. simpl in *. split; [reflexivity|lia]. }
  apply parse_number_length.
Qed.

Lemma items_weight_rev (l : list json) : items_weight (rev l) = items_weight l.
Proof.
  unfold items_weight. induction l as [|x l IH]; simpl; [reflexivity|].
  rewrite map_app, list_sum_app, IH. simpl. lia.
Qed.

Lemma replace_weight k v ms :
  members_weight (replace k v ms) <= members_weight ms + weight v.
Proof.
  unfold members_weight. induction ms as [|[k' v'] ms IH]; simpl; [lia|].
  destruct (str_eqb k k'); simpl; lia.
Qed.

Lemma insert_index_weight i k v ms :
  members_weight (insert_index i k v ms) = members_weight ms + weight v.
Proof.
  unfold members_weight. induction ms as [|[k' v'] ms IH]; simpl; [lia|].
  destruct (arrayIndex k') as [j|]; [destruct (j <? i)%Z|]; simpl; lia.
Qed.

Lemma define_weight k v ms :
  members_weight (define k v ms) <= members_weight ms + weight v.
Proof.
  unfold define. destruct (has k ms).
  - apply replace_weight.
  - destruct (arrayIndex k).
    + rewrite insert_index_weight. lia.
    + unfold members_weight. rewrite map_app, list_sum_app. simpl. lia.
Qed.

(** The parser never builds more than it reads: the weight of the value and
    the length of what is left over fit in the length of the input. *)
Lemma parse_weight (fuel : nat) :
  (forall s v r, parse_value fuel s = Some (v, r) -> weight v + length r <= length s) /\
  (forall s acc v r, parse_elements fuel s acc = Some (v, r) ->
     weight v + length r <= items_weight acc + length s) /\
  (forall s acc v r, parse_members fuel s acc = Some (v, r) ->
     weight v + length r <= members_weight acc + length s).
Proof.
  induction fuel as [|fuel (IHv & IHe & IHm)].
  { repeat split; intros; discriminate. }
  repeat split.
  - intros s v r H. simpl in H.
    pose proof (skip_ws_length s) as Hs.
    destruct (skip_ws s) as [|c t]; [discriminate|]. simpl in Hs.
    destruct (N.eqb c 123).
    { pose proof (skip_ws_length t) as Ht.
      destruct (skip_ws t) as [|c2 t2]; [discriminate|]. simpl in Ht.
      destruct (N.eqb c2 125).
      - injection H as <- <-. simpl. lia.
      - apply IHm in H. unfold members_weight in H. simpl in H. lia. }
    destruct (N.eqb c 91).
    { pose proof (skip_ws_length t) as Ht.
      destruct (skip_ws t) as [|c2 t2]; [discriminate|]. simpl in Ht.
      destruct (N.eqb c2 93).
      - injection H as <- <-. simpl. lia.
      - apply IHe in H. unfold items_weight in H. simpl in H. lia. }
    destruct (N.eqb c 34).
    { destruct (parse_string_chars t) as [[str t']|] eqn:E; [|discriminate].
      injection H as <- <-. apply parse_string_chars_length in E. simpl. lia. }
    apply parse_literal_length in H. simpl in H. lia.
  - intros s acc v r H. simpl in H.
    destruct (parse_value fuel s) as [[x t]|] eqn:E; [|discriminate].
    apply IHv in E.
    pose proof (skip_ws_length t) as Ht.
    destruct (skip_ws t) as [|c t']; [discriminate|]. simpl in Ht.
    destruct (N.eqb c 44).
    { apply IHe in H. unfold items_weight in *. simpl in H. lia. }
    destruct (N.eqb c 93); [|discriminate].
    injection H as <- <-.
    change (S (items_weight (rev (x :: acc))) + length t' <= items_weight acc + length s).
    rewrite items_weight_rev. unfold items_weight. simpl. lia.
  - intros s acc v r H. simpl in H.
    pose proof (skip_ws_length s) as Hs.
    destruct (skip_ws s) as [|c t]; [discriminate|]. simpl in Hs.
    destruct (N.eqb c 34); [|discriminate].
    destruct (parse_string_chars t) as [[k t1]|] eqn:Ek; [|discriminate].
    apply parse_string_chars_length in Ek.
    pose proof (skip_ws_length t1) as Ht1.
    destruct (skip_ws t1) as [|c1 t2]; [discriminate|]. simpl in Ht1.
    destruct (N.eqb c1 58); [|discriminate].
    destruct (parse_value fuel t2) as [[x t3]|] eqn:E; [|discriminate].
    apply IHv in E.
    pose proof (skip_ws_length t3) as Ht3.
    destruct (skip_ws t3) as [|c3 t4]; [discriminate|]. simpl in Ht3.
    pose proof (define_weight k x acc) as Hd.
    destruct (N.eqb c3 44).
    { apply IHm in H. lia. }
    destruct (N.eqb c3 125); [|discriminate].
    injection H as <- <-.
    change (S (members_weight (define k x acc)) + length t4 <= members_weight acc + length s).
    lia.
Qed.

(** A parsed value weighs no more than its text is long. *)
Lemma JSON_parse_weight (text : jsstring) (v : json) :
  JSON_parse text = Some v -> weight v <= length text.
Proof.
  unfold JSON_parse.
  destruct (parse_value (2 * length text + 2) text) as [[x r]|] eqn:E; [|discriminate].
  destruct (skip_ws r); [|discriminate].
  intros H; injection H as <-.
  apply (proj1 (parse_weight _)) in E. lia.
Qed.

Lemma weight_positive (v : json) : 0 < weight v.
Proof. destruct v; simpl; lia. Qed.

(** Every successful call of the parser consumes at least one character. *)
Lemma parse_consumes (fuel : nat) :
  (forall s v r, parse_value fuel s = Some (v, r) -> length r < length s) /\
  (forall s acc v r, parse_elements fuel s acc = Some (v, r) -> length r < length s) /\
  (forall s acc v r, parse_members fuel s acc = Some (v, r) -> length r < length s).
Proof.
  assert (Hv : forall f s v r, parse_value f s = Some (v, r) -> length r < length s).
  { intros f s v r H. apply (proj1 (parse_weight f)) in H.
    pose proof (weight_positive v). lia. }
  induction fuel as [|fuel (_ & IHe & IHm)].
  { repeat split; intros; discriminate. }
  split; [apply Hv|]. split.
  - intros s acc v r H. simpl in H.
    destruct (parse_value fuel s) as [[x t]|] eqn:E; [|discriminate].
    apply Hv in E.
    pose proof (skip_ws_length t) as Ht.
    destruct (skip_ws t) as [|c t']; [discriminate|]. simpl in Ht.
    destruct (N.eqb c 44).
    + apply IHe in H. lia.
    + destruct (N.eqb c 93); [|discriminate]. injection H as <- <-. lia.
  - intros s acc v r H. simpl in H.
    pose proof (skip_ws_length s) as Hs.
    destruct (skip_ws s) as [|c t]; [discriminate|]. simpl in Hs.
    destruct (N.eqb c 34); [|discriminate].
    destruct (parse_string_chars t) as [[k t1]|] eqn:Ek; [|discriminate].
    apply parse_string_chars_length in Ek.
    pose proof (skip_ws_length t1) as Ht1.
    destruct (skip_ws t1) as [|c1 t2]; [discriminate|]. simpl in Ht1.
    destruct (N.eqb c1 58); [|discriminate].
    destruct (parse_value fuel t2) as [[x t3]|] eqn:E; [|discriminate].
    apply Hv in E.
    pose proof (skip_ws_length t3) as Ht3.
    destruct (skip_ws t3) as [|c3 t4]; [discriminate|]. simpl in Ht3.
    destruct (N.eqb c3 44).
    + apply IHm in H. lia.
    + destruct (N.eqb c3 125); [|discriminate]. injection H as <- <-. lia.
Qed.

(** The parser's answer does not depend on the fuel, once there is enough:
    a successful run succeeds again, with the same result, on twice the
    number of characters it consumed. *)
Lemma parse_fuel (fuel : nat) :
  (forall s v r, parse_value fuel s = Some (v, r) ->
     forall fuel', 2 * (length s - length r) <= fuel' ->
     parse_value fuel' s = Some (v, r)) /\
  (forall s acc v r, parse_elements fuel s acc = Some (v, r) ->
     forall fuel', 2 * (length s - length r) + 1 <= fuel' ->
     parse_elements fuel' s acc = Some (v, r)) /\
  (forall s acc v r, parse_members fuel s acc = Some (v, r) ->
     forall fuel', 2 * (length s - length r) + 1 <= fuel' ->
     parse_members fuel' s acc = Some (v, r)).
Proof.
  induction fuel as [|fuel (IHv & IHe & IHm)].
  { repeat split; intros; discriminate. }
  repeat split.
  - intros s v r H fuel' Hf.
    pose proof (proj1 (parse_consumes _) _ _ _ H) as Hc.
    destruct fuel' as [|fuel']; [lia|].
    simpl in H |- *.
    pose proof (skip_ws_length s) as Hs.
    destruct (skip_ws s) as [|c t]; [discriminate|]. simpl in Hs.
    destruct (N.eqb c 123).
    { pose proof (skip_ws_length t) as Ht.
      destruct (skip_ws t) as [|c2 t2]; [discriminate|]. simpl in Ht.
      destruct (N.eqb c2 125); [assumption|].
      pose proof (proj2 (proj2 (parse_consumes _)) _ _ _ _ H) as Hm.
      apply (IHm _ _ _ _ H). cbn [length] in *. lia. }
    destruct (N.eqb c 91).
    { pose proof (skip_ws_length t) as Ht.
      destruct (skip_ws t) as [|c2 t2]; [discriminate|]. simpl in Ht.
      destruct (N.eqb c2 93); [assumption|].
      pose proof (proj1 (proj2 (parse_consumes _)) _ _ _ _ H) as He.
      apply (IHe _ _ _ _ H). cbn [length] in *. lia. }
    assumption.
  - intros s acc v r H fuel' Hf.
    destruct fuel' as [|fuel']; [lia|].
    simpl in H |- *.
    destruct (parse_value fuel s) as [[x t]|] eqn:E; [|discriminate].
    pose proof (proj1 (parse_consumes _) _ _ _ E) as Hx.
    pose proof (skip_ws_length t) as Ht.
    destruct (skip_ws t) as [|c t'] eqn:Et; [discriminate|]. simpl in Ht.
    destruct (N.eqb c 44) eqn:Ec.
    + pose proof (proj1 (proj2 (parse_consumes _)) _ _ _ _ H) as Hr.
      rewrite (IHv _ _ _ E fuel') by lia.
      rewrite Et, Ec. apply (IHe _ _ _ _ H). lia.
    + assert (length r < length t).
      { destruct (N.eqb c 93); [|discriminate]. injection H as <- <-. lia. }
      rewrite (IHv _ _ _ E fuel') by lia.
      rewrite Et, Ec. assumption.
  - intros s acc v r H fuel' Hf.
    destruct fuel' as [|fuel']; [lia|].
    simpl in H |- *.
    pose proof (skip_ws_length s) as Hs.
    destruct (skip_ws s) as [|c t]; [discriminate|]. simpl in Hs.
    destruct (N.eqb c 34); [|discriminate].
    destruct (parse_string_chars t) as [[k t1]|] eqn:Ek; [|discriminate].
    apply parse_string_chars_length in Ek.
    pose proof (skip_ws_length t1) as Ht1.
    destruct (skip_ws t1) as [|c1 t2]; [discriminate|]. simpl in Ht1.
    destruct (N.eqb c1 58); [|discriminate].
    destruct (parse_value fuel t2) as [[x t3]|] eqn:E; [|discriminate].
    pose proof (proj1 (parse_consumes _) _ _ _ E) as Hx.
    pose proof (skip_ws_length t3) as Ht3.
    destruct (skip_ws t3) as [|c3 t4] eqn:Et; [discriminate|]. simpl in Ht3.
    destruct (N.eqb c3 44) eqn:Ec.
    + pose proof (proj2 (proj2 (parse_consumes _)) _ _ _ _ H) as Hr.
      rewrite (IHv _ _ _ E fuel') by lia.
      rewrite Et, Ec. apply (IHm _ _ _ _ H). lia.
    + assert (length r < length t3).
      { destruct (N.eqb c3 125); [|discriminate]. injection H as <- <-. lia. }
      rewrite (IHv _ _ _ E fuel') by lia.
      rewrite Et, Ec. assumption.
Qed.

(** [JSON_parse] is the parser run to completion: a text that parses with
    any amount of fuel, up to trailing whitespace, parses with the fuel
    [JSON_parse] gives it. *)
Lemma JSON_parse_complete (fuel : nat) (text rest : jsstring) (v : json) :
  parse_value fuel text = Some (v, rest) -> skip_ws rest = [] ->
  JSON_parse text = Some v.
Proof.
  intros H Hr. unfold JSON_parse.
  rewrite (proj1 (parse_fuel fuel) _ _ _ H) by lia.
  now rewrite Hr.
Qed.

End ParserFacts.

(* ===================================================================== *)
(** ** The response extractor                                              *)
(* ===================================================================== *)

(** *** The call stack *)

Lemma findResponseText_equation (stack : nat) (data : json) :
  findResponseText (S stack) data = findResponseText_body (findResponseText stack) data.
Proof. reflexivity. Qed.

Lemma firstFound_ext {A : Type} (search search' : A -> Completion (option jsstring)) l :
  (forall x, In x l -> search x = search' x) ->
  firstFound search l = firstFound search' l.
Proof.
  induction l as [|x l IH]; simpl; intros Hs; [reflexivity|].
  rewrite (Hs x (or_introl eq_refl)).
  destruct (search' x) as [r|e]; [|reflexivity].
  destruct (truthyResult r); [reflexivity|].
  apply IH. intros y Hy. apply Hs. now right.
Qed.

Lemma firstFound_Normal {A : Type} (search : A -> Completion (option jsstring)) (l : list A) :
  (forall x, In x l -> exists r, search x = Normal r) ->
  exists found, firstFound search l = Normal found.
Proof.
  induction l as [|x l IH]; simpl; intros Hs; [eauto|].
  destruct (Hs x (or_introl eq_refl)) as [r ->].
  destruct (truthyResult r); [eauto|]. apply IH. intros y Hy. apply Hs. now right.
Qed.

Lemma firstFound_Throw {A : Type} (search : A -> Completion (option jsstring)) l e :
  firstFound search l = Throw e -> exists x, In x l /\ search x = Throw e.
Proof.
  induction l as [|x l IH]; simpl; [discriminate|].
  destruct (search x) as [r|e'] eqn:E.
  - destruct (truthyResult r); [discriminate|].
    intros H. apply IH in H as (y & Hy & H). exists y. auto.
  - intros H; injection H as ->. exists x. auto.
Qed.

(** An overflow in one search, when the others find nothing, is the
    outcome of the loop. *)
Lemma firstFound_overflow {A : Type} (search : A -> Completion (option jsstring)) l e :
  (forall x, In x l -> search x = Normal None \/ search x = Throw e) ->
  (exists x, In x l /\ search x = Throw e) ->
  firstFound search l = Throw e.
Proof.
  induction l as [|x l IH]; simpl; intros Hs (y & Hy & Ht); [contradiction|].
  destruct (Hs x (or_introl eq_refl)) as [E|E]; rewrite E; [|reflexivity].
  simpl. apply IH.
  - intros z Hz. apply Hs. now right.
  - destruct Hy as [->|Hy]; [congruence|]. exists y. auto.
Qed.

Lemma firstFound_None {A : Type} (search : A -> Completion (option jsstring)) l :
  (forall x, In x l -> search x = Normal None) -> firstFound search l = Normal None.
Proof.
  induction l as [|x l IH]; simpl; intros Hs; [reflexivity|].
  rewrite (Hs x (or_introl eq_refl)). simpl. apply IH. intros y Hy. apply Hs. now right.
Qed.

Lemma searchString_ext self self' str :
  (forall v, weight v <= length str -> self v = self' v) ->
  searchString self str = searchString self' str.
Proof.
  intros Hs. unfold searchString. cbv zeta.
  pose proof (trim_length str) as Ht.
  assert (HA : forall v, JSON_parse (trim str) = Some v -> self v = self' v).
  { intros v E. apply Hs. apply JSON_parse_weight in E. lia. }
  assert (HB : forall v, JSON_parse (potentialJson (trim str)) = Some v -> self v = self' v).
  { intros v E. apply Hs. apply JSON_parse_weight in E. unfold potentialJson in E.
    pose proof (substring_length (trim str)
      (indexOf (trim str) (lit "{")) (lastIndexOf (trim str) (lit "}") + 1)). lia. }
  destruct (JSON_parse (potentialJson (trim str))) as [vB|];
    [rewrite (HB vB eq_refl)|];
    (destruct (JSON_parse (trim str)) as [vA|]; [rewrite (HA vA eq_refl)|]; reflexivity).
Qed.

Lemma weight_item (items : list json) (v : json) :
  In v items -> weight v <= items_weight items.
Proof.
  unfold items_weight. induction items as [|x l IH]; simpl; [intros []|].
  intros [->|H]; [lia|]. apply IH in H. lia.
Qed.

Lemma weight_member (members : list (jsstring * json)) (kv : jsstring * json) :
  In kv members -> weight (snd kv) <= members_weight members.
Proof.
  unfold members_weight. induction members as [|x l IH]; simpl; [intros []|].
  intros [->|H]; [lia|]. apply IH in H. lia.
Qed.

Lemma list_max_In (l : list nat) (n : nat) : In n l -> n <= list_max l.
Proof.
  induction l as [|x l IH]; simpl; [intros []|].
  intros [->|H]; [lia|]. apply IH in H. lia.
Qed.

Lemma list_max_reached (l : list nat) : l <> [] -> In (list_max l) l.
Proof.
  induction l as [|x l IH]; [contradiction|]. intros _. simpl.
  destruct l as [|y l]; [left; simpl; lia|].
  destruct (Nat.max_spec x (list_max (y :: l))) as [[_ E]|[_ E]]; rewrite E.
  - right. apply IH. discriminate.
  - now left.
Qed.

Lemma nesting_positive (v : json) : 1 <= nesting v.
Proof. destruct v; simpl; lia. Qed.

Lemma nesting_item (items : list json) (v : json) :
  In v items -> nesting v < nesting (JArray items).
Proof.
  intros H. simpl. apply Nat.lt_succ_r, list_max_In, in_map, H.
Qed.

Lemma nesting_member (members : list (jsstring * json)) (kv : jsstring * json) :
  In kv members -> nesting (snd kv) < nesting (JObject members).
Proof.
  intros H. simpl. apply Nat.lt_succ_r, list_max_In.
  exact (in_map (fun kv => nesting (snd kv)) members kv H).
Qed.

(** The body asks its recursive calls only about values of smaller weight:
    it is the same function of any two [self] that agree on them. *)
Lemma findResponseText_body_ext self self' data :
  (forall v, weight v < weight data -> self v = self' v) ->
  findResponseText_body self data = findResponseText_body self' data.
Proof.
  intros Hs. unfold findResponseText_body.
  destruct (negb (truthy data)); [reflexivity|].
  destruct (directField data); [reflexivity|].
  destruct data; try reflexivity.
  - f_equal. apply searchString_ext. intros v Hv. apply Hs. simpl. lia.
  - apply firstFound_ext. intros x Hx. apply Hs.
    apply weight_item in Hx. unfold items_weight in Hx. simpl. lia.
  - apply firstFound_ext. intros x Hx. apply Hs.
    apply weight_member in Hx. unfold members_weight in Hx. simpl. lia.
Qed.

(** When the calls on the values of smaller weight return, the body
    returns. *)
Lemma findResponseText_body_descends self data :
  (forall v, weight v < weight data -> exists r, self v = Normal r) ->
  exists found, findResponseText_body self data = Normal found.
Proof.
  intros Hs. unfold findResponseText_body.
  destruct (negb (truthy data)); [eauto|].
  destruct (directField data); [eauto|].
  destruct data; eauto.
  - apply firstFound_Normal. intros x Hx. apply Hs.
    apply weight_item in Hx. unfold items_weight in Hx. simpl. lia.
  - apply firstFound_Normal. intros x Hx. apply Hs.
    apply weight_member in Hx. unfold members_weight in Hx. simpl. lia.
Qed.

(** Once the stack has room for [weight data] activations, more room
    changes nothing. *)
Lemma findResponseText_deep (n : nat) :
  forall (data : json) (stack : nat),
    weight data <= n -> n <= stack ->
    findResponseText stack data = findResponseText n data.
Proof.
  induction n as [|n IH]; intros data stack Hw Hle.
  { pose proof (weight_positive data). lia. }
  destruct stack as [|stack]; [lia|].
  rewrite !findResponseText_equation. apply findResponseText_body_ext.
  intros v Hv. apply IH; lia.
Qed.

(** The only error the extractor throws is the overflow of the stack, and
    only on a value nested deeper than the stack has room. *)
Lemma findResponseText_thrown (stack : nat) :
  forall (data : json) (e : JsError),
    findResponseText stack data = Throw e -> e = stackOverflow /\ stack < nesting data.
Proof.
  induction stack as [|stack IH]; intros data e H.
  { simpl in H. injection H as <-. split; [reflexivity|apply nesting_positive]. }
  rewrite findResponseText_equation in H. unfold findResponseText_body in H.
  destruct (negb (truthy data)); [discriminate|].
  destruct (directField data); [discriminate|].
  destruct data; try discriminate.
  - apply firstFound_Throw in H as (x & Hx & H). apply IH in H as [-> H].
    split; [reflexivity|]. apply nesting_item in Hx. lia.
  - apply firstFound_Throw in H as (x & Hx & H). apply IH in H as [-> H].
    split; [reflexivity|]. apply nesting_member in Hx. lia.
Qed.

(** A stack with room for the nesting of the value is enough for the
    extractor to return. *)
Lemma findResponseText_within (stack : nat) (data : json) :
  nesting data <= stack -> exists found, findResponseText stack data = Normal found.
Proof.
  intros Hn. destruct (findResponseText stack data) as [found|e] eqn:E; [eauto|].
  apply findResponseText_thrown in E as [_ E]. lia.
Qed.

(** Every recursive call is on a value of smaller weight, so a stack with
    room for [weight data] activations is never exhausted. *)
Lemma findResponseText_enough (n : nat) :
  forall data : json,
    weight data <= n -> exists found, findResponseText n data = Normal found.
Proof.
  induction n as [|n IH]; intros data Hw.
  { pose proof (weight_positive data). lia. }
  rewrite findResponseText_equation. apply findResponseText_body_descends.
  intros v Hv. apply IH. lia.
Qed.

(** *** What the extractor returns *)

Lemma truthyString_Some v s : truthyString v = Some s -> v = Some (JString s) /\ s <> [].
Proof.
  destruct v as [[| | |[|c t]| |]|]; simpl; try discriminate.
  intros H; injection H as <-. split; [reflexivity|discriminate].
Qed.

Lemma truthyString_holds members k s :
  holdsText members k s -> truthyString (get k members) = Some s.
Proof.
  intros [-> Hs]. destruct s; [contradiction|reflexivity].
Qed.

Lemma truthyString_none members k :
  (forall s, ~ holdsText members k s) -> truthyString (get k members) = None.
Proof.
  intros H. destruct (truthyString (get k members)) as [s|] eqn:E; [|reflexivity].
  apply truthyString_Some in E. exfalso. apply (H s). exact E.
Qed.

Lemma truthyResult_true found :
  truthyResult found = true -> exists c s, found = Some (c :: s).
Proof. destruct found as [[|c s]|]; simpl; try discriminate. eauto. Qed.

Lemma firstFound_Some {A : Type} (search : A -> Completion (option jsstring)) l s :
  firstFound search l = Normal (Some s) ->
  s <> [] /\ exists x, In x l /\ search x = Normal (Some s).
Proof.
  induction l as [|x l IH]; simpl; [discriminate|].
  destruct (search x) as [r|e] eqn:E; [|discriminate].
  destruct (truthyResult r) eqn:T.
  - intros H; injection H as ->. apply truthyResult_true in T as (c & t & T).
    injection T as ->. split; [discriminate|]. exists x. auto.
  - intros H. apply IH in H as (Hs & y & Hy & Hr). split; [assumption|].
    exists y. auto.
Qed.

Lemma searchString_Some self str s :
  searchString self str = Some s ->
  s <> [] /\
  exists document v,
    (document = trim str \/ document = potentialJson (trim str)) /\
    JSON_parse document = Some v /\ self v = Normal (Some s).
Proof.
  unfold searchString.
  destruct (includes (trim str) (lit "{") && includes (trim str) (lit "}")); [|discriminate].
  cbv zeta.
  assert (HB :
    (if negb (indexOf (trim str) (lit "{") =? -1)%Z
        && (indexOf (trim str) (lit "{") <? lastIndexOf (trim str) (lit "}"))%Z
     then if negb (str_eqb (potentialJson (trim str)) (trim str))
          then match JSON_parse (potentialJson (trim str)) with
               | None => None
               | Some parsedDeep =>
                 match self parsedDeep with
                 | Throw e => None
                 | Normal foundDeep => if truthyResult foundDeep then foundDeep else None
                 end
               end
          else None
     else None) = Some s ->
    s <> [] /\
    exists document v,
      (document = trim str \/ document = potentialJson (trim str)) /\
      JSON_parse document = Some v /\ self v = Normal (Some s)).
  { destruct (negb (indexOf (trim str) (lit "{") =? -1)%Z
              && (indexOf (trim str) (lit "{") <? lastIndexOf (trim str) (lit "}"))%Z);
      [|discriminate].
    destruct (negb (str_eqb (potentialJson (trim str)) (trim str))); [|discriminate].
    destruct (JSON_parse (potentialJson (trim str))) as [v|] eqn:E; [|discriminate].
    destruct (self v) as [r|e] eqn:Er; [|discriminate].
    destruct (truthyResult r) eqn:T; [|discriminate].
    intros ->. apply truthyResult_true in T as (c & t & T).
    injection T as ->. split; [discriminate|]. eauto 6. }
  destruct (JSON_parse (trim str)) as [v|] eqn:E; [|assumption].
  destruct (self v) as [r|e] eqn:Er; [|assumption].
  destruct (truthyResult r) eqn:T; [|assumption].
  intros ->. apply truthyResult_true in T as (c & t & T).
  injection T as ->. split; [discriminate|]. eauto 6.
Qed.

Lemma directField_Some data s :
  directField data = Some s ->
  s <> [] /\
  exists members k, data = JObject members /\ In k recognizedFields /\ holdsText members k s.
Proof.
  unfold directField. destruct data; simpl; try discriminate.
  unfold recognizedFields.
  repeat match goal with
  | |- context [truthyString (get ?k members)] =>
    let E := fresh "E" in
    destruct (truthyString (get k members)) eqn:E;
    [ intros H; injection H as ->; apply truthyString_Some in E;
      split; [apply E|]; exists members, k; repeat split; try apply E; simpl; tauto | ]
  end.
  discriminate.
Qed.

Lemma directField_Occurs data s : directField data = Some s -> Occurs data.
Proof.
  intros D. apply directField_Some in D as (_ & members & k & -> & Hk & Hh).
  eapply occurs_here; eassumption.
Qed.

(** Whatever the recursive calls do, what the body returns is [null] or a
    non-empty string. *)
Lemma findResponseText_body_result self data found :
  findResponseText_body self data = Normal found ->
  found = None \/ exists c s, found = Some (c :: s).
Proof.
  unfold findResponseText_body.
  destruct (negb (truthy data)); [intros H; injection H as <-; auto|].
  destruct (directField data) as [s|] eqn:D.
  { intros H; injection H as <-. apply directField_Some in D as [Hs _].
    destruct s; [contradiction|eauto]. }
  destruct found as [s|]; [|auto]. intros H. right.
  assert (s <> [] -> exists c t, Some s = Some (c :: t)) as Hne.
  { destruct s; [contradiction|eauto]. }
  destruct data; try discriminate.
  - injection H as H. apply searchString_Some in H as [Hs _]. auto.
  - apply firstFound_Some in H as [Hs _]. auto.
  - apply firstFound_Some in H as [Hs _]. auto.
Qed.

(** What the extractor returns is [null] or a non-empty string. *)
Lemma findResponseText_result (stack : nat) (data : json) (found : option jsstring) :
  findResponseText stack data = Normal found ->
  found = None \/ exists c s, found = Some (c :: s).
Proof.
  destruct stack as [|stack]; [discriminate|].
  rewrite findResponseText_equation. apply findResponseText_body_result.
Qed.

(** A non-null answer comes from a recognised field that occurs in the
    value. *)
Lemma findResponseText_sound (stack : nat) :
  forall data s, findResponseText stack data = Normal (Some s) -> Occurs data.
Proof.
  induction stack as [|stack IH]; intros data s H; [discriminate|].
  rewrite findResponseText_equation in H. unfold findResponseText_body in H.
  destruct (negb (truthy data)); [discriminate|].
  destruct (directField data) as [s'|] eqn:D; [exact (directField_Occurs _ _ D)|].
  destruct data; try discriminate.
  - injection H as H. apply searchString_Some in H as (_ & document & v & Hd & Hp & Hv).
    eapply occurs_embedded; eauto.
  - apply firstFound_Some in H as (_ & x & Hx & Hv).
    eapply occurs_element; eauto.
  - apply firstFound_Some in H as (_ & [k v] & Hx & Hv).
    eapply occurs_member; eauto.
Qed.

(** On a value without a recognised field the outcome is decided by the
    nesting alone. *)
Lemma findResponseText_no_field (stack : nat) :
  forall data : json,
    ~ Occurs data ->
    findResponseText stack data
    = if nesting data <=? stack then Normal None else Throw stackOverflow.
Proof.
  induction stack as [|stack IH]; intros data Hno.
  { pose proof (nesting_positive data) as Hp.
    destruct (Nat.leb_spec (nesting data) 0); [lia|reflexivity]. }
  destruct (Nat.leb_spec (nesting data) (S stack)) as [Hn|Hn].
  { destruct (findResponseText_within _ _ Hn) as [[s|] E]; [|exact E].
    exfalso. apply Hno. exact (findResponseText_sound _ _ _ E). }
  rewrite findResponseText_equation. unfold findResponseText_body.
  destruct (directField data) as [s|] eqn:D.
  { exfalso. apply Hno. exact (directField_Occurs _ _ D). }
  destruct data; simpl in Hn; try lia; simpl negb; cbv iota.
  - apply firstFound_overflow.
    + intros x Hx. rewrite IH by (intros Ho; apply Hno; eapply occurs_element; eauto).
      destruct (nesting x <=? stack); auto.
    + assert (Hne : map nesting items <> []).
      { destruct items; [simpl in Hn; lia|discriminate]. }
      apply list_max_reached, in_map_iff in Hne as (x & Ex & Hx).
      exists x. split; [exact Hx|].
      rewrite IH by (intros Ho; apply Hno; eapply occurs_element; eauto).
      destruct (Nat.leb_spec (nesting x) stack); [lia|reflexivity].
  - apply firstFound_overflow.
    + intros [k x] Hx. simpl.
      rewrite IH by (intros Ho; apply Hno; eapply occurs_member; eauto).
      destruct (nesting x <=? stack); auto.
    + assert (Hne : map (fun kv : jsstring * json => nesting (snd kv)) members <> []).
      { destruct members; [simpl in Hn; lia|discriminate]. }
      apply list_max_reached, in_map_iff in Hne as ([k x] & Ex & Hx). simpl in Ex.
      exists (k, x). split; [exact Hx|]. simpl.
      rewrite IH by (intros Ho; apply Hno; eapply occurs_member; eauto).
      destruct (Nat.leb_spec (nesting x) stack); [lia|reflexivity].
Qed.

Lemma nestedArrays_no_field (n : nat) : ~ Occurs (nestedArrays n).
Proof.
  induction n as [|n IH]; intros H; inversion H; subst; simpl in *.
  - contradiction.
  - destruct H1 as [<-|[]]. contradiction.
Qed.

Lemma nestedArrays_nesting (n : nat) : nesting (nestedArrays n) = S n.
Proof. induction n as [|n IH]; simpl; [reflexivity|]. simpl in IH. rewrite IH. lia. Qed.

(** C1. An object with a recognised field holding a non-empty string: the
    extractor returns the string of the first such field in priority order
    (text_response, output, response, message, content).  It does so
    whenever the stack has room for the call itself: the answer is there
    before any recursive call. *)
Theorem findResponseText_direct_field :
  forall (members : list (jsstring * json)) (before after : list jsstring)
         (k s : jsstring),
    recognizedFields = before ++ k :: after ->
    holdsText members k s ->
    (forall k', In k' before -> forall s', ~ holdsText members k' s') ->
    forall stack : nat,
      findResponseText (S stack) (JObject members) = Normal (Some s).
Proof.
  intros members before after k s Hf Hk Hbefore stack.
  assert (D : directField (JObject members) = Some s).
  { unfold directField, isObject, prop.
    apply truthyString_holds in Hk.
    assert (Hn : forall k', In k' before -> truthyString (get k' members) = None).
    { intros k' Hin. apply truthyString_none. intros s'. now apply Hbefore. }
    unfold recognizedFields in Hf.
    destruct before as [|b1 [|b2 [|b3 [|b4 [|b5 before]]]]]; simpl in Hf;
      injection Hf; intros; subst;
      repeat (rewrite Hn by (simpl; tauto));
      try (rewrite Hk; reflexivity).
    destruct before; discriminate. }
  rewrite findResponseText_equation. unfold findResponseText_body. simpl negb. cbv iota.
  now rewrite D.
Qed.

(** C2, as amended.  The extractor terminates on every value: each
    recursive call is on a value of strictly smaller weight (an element or
    member of the value, or the parse of a substring of the string), so a
    stack with room for [weight data] activations is never exhausted and
    more room changes nothing.  It returns whenever the stack has room for
    the nesting of the value; the only error it throws is the overflow of
    the stack, on a value nested deeper than that.  When no recognised field
    holding a non-empty string occurs anywhere in the value, the answer is
    [null] if the nesting fits the stack, and the overflow otherwise. *)
Theorem findResponseText_terminates :
  forall (stack : nat) (data : json),
    (nesting data <= stack -> exists found, findResponseText stack data = Normal found)
    /\ (forall e, findResponseText stack data = Throw e ->
                  e = stackOverflow /\ stack < nesting data)
    /\ (~ Occurs data ->
        findResponseText stack data
        = if nesting data <=? stack then Normal None else Throw stackOverflow)
    /\ (weight data <= stack ->
        exists found,
          findResponseText stack data = Normal found
          /\ findResponseText (weight data) data = Normal found)
    /\ (forall self : json -> Completion (option jsstring),
          (forall v, weight v < weight data -> exists r, self v = Normal r) ->
          exists r, findResponseText_body self data = Normal r).
Proof.
  intros stack data. split; [|split; [|split; [|split]]].
  - apply findResponseText_within.
  - apply findResponseText_thrown.
  - apply findResponseText_no_field.
  - intros Hw. destruct (findResponseText_enough _ data (le_n _)) as [found E].
    exists found. split; [|exact E].
    rewrite (findResponseText_deep (weight data) data stack (le_n _) Hw). exact E.
  - intros self Hs. apply findResponseText_body_descends. exact Hs.
Qed.

(** C9. Whenever the extractor returns, it returns [null] or a non-empty
    string, never the empty string; and it returns whenever the stack has
    room for the nesting of the value. *)
Theorem findResponseText_never_empty :
  forall (stack : nat) (data : json),
    (forall found : option jsstring,
        findResponseText stack data = Normal found ->
        found = None \/ exists c s, found = Some (c :: s))
    /\ (nesting data <= stack -> exists found, findResponseText stack data = Normal found).
Proof.
  intros stack data. split.
  - apply findResponseText_result.
  - apply findResponseText_within.
Qed.

(* ===================================================================== *)
(** ** The remote send operation                                           *)
(* ===================================================================== *)

(** *** The context summary *)

Lemma filter_filter {A : Type} (f g : A -> bool) (l : list A) :
  filter g (filter f l) = filter (fun x => f x && g x) l.
Proof.
  induction l as [|x l IH]; simpl; [reflexivity|].
  destruct (f x); simpl; [destruct (g x)|]; now rewrite IH.
Qed.

Lemma previousMessages_nil text history :
  previousMessages text history = [] <->
  forall m, In m history -> Message.content m = text.
Proof.
  unfold previousMessages. induction history as [|m l IH]; simpl.
  - split; [intros _ m []|reflexivity].
  - destruct (str_eqb (Message.content m) text) eqn:E; simpl.
    + apply str_eqb_eq in E. rewrite IH. split.
      * intros H x [<-|Hx]; auto.
      * intros H x Hx. apply H. now right.
    + apply str_eqb_neq in E. split; [discriminate|].
      intros H. exfalso. apply E, H. now left.
Qed.

Lemma memoryContext_some_previous text history :
  previousMessages text history <> [] ->
  memoryContext text history
  = join newline (map contextLine (lastN 10 (qualifying text history))).
Proof.
  intros H. unfold memoryContext.
  destruct (previousMessages text history) as [|m l] eqn:E; [contradiction|].
  change (0 <? length (m :: l))%nat with true. cbv iota.
  rewrite <- E. unfold previousMessages. rewrite filter_filter.
  change (-10)%Z with (- Z.of_nat 10)%Z.
  rewrite slice_suffix by lia. reflexivity.
Qed.

(** C3, as amended.  When some message of the history differs from the text
    being sent, the context summary is made of the messages that differ from
    the text and are not blank: the last ten of them, each as a line
    [Role: content], joined by newlines in their order.  When no message
    differs from the text, the summary is the start-of-conversation marker.
    Wherever the bounded set is not empty, this is the summary of the
    specification. *)
Theorem memoryContext_summary :
  forall (text : jsstring) (history : list Message.t),
    ((exists m, In m history /\ Message.content m <> text) ->
       memoryContext text history
       = join newline (map contextLine (lastN 10 (qualifying text history))))
    /\ ((forall m, In m history -> Message.content m = text) ->
       memoryContext text history = startOfConversation)
    /\ (lastN 10 (qualifying text history) <> [] ->
       memoryContext text history = memoryContext_spec text history).
Proof.
  intros text history. repeat split.
  - intros (m & Hm & Hne). apply memoryContext_some_previous.
    intros E. apply Hne. now apply (proj1 (previousMessages_nil text history) E).
  - intros H. apply previousMessages_nil in H. unfold memoryContext. now rewrite H.
  - intros H. unfold memoryContext_spec.
    destruct (lastN 10 (qualifying text history)) as [|k kept] eqn:E; [contradiction|].
    rewrite <- E. apply memoryContext_some_previous.
    intros P. unfold qualifying in E. rewrite <- filter_filter in E.
    fold (previousMessages text history) in E. rewrite P in E. discriminate.
Qed.

(** *** The reply to a response *)

Lemma findResponseText_falsy (stack : nat) (data : json) (found : option jsstring) :
  truthy data = false -> findResponseText stack data = Normal found -> found = None.
Proof.
  intros H. destruct stack as [|stack]; [discriminate|].
  rewrite findResponseText_equation. unfold findResponseText_body. rewrite H. simpl.
  congruence.
Qed.

Lemma truthyResult_found (stack : nat) (found : option jsstring) (data : json) :
  findResponseText stack data = Normal found ->
  truthyResult found = match found with Some _ => true | None => false end.
Proof.
  intros H. destruct (findResponseText_result _ _ _ H) as [->|(c & s & ->)]; reflexivity.
Qed.

Lemma notFoundMessage_returned : onError (Error notFoundMessage) = Normal notFoundMessage.
Proof. vm_compute. reflexivity. Qed.

Lemma stackOverflow_rethrown : onError stackOverflow = Throw stackOverflow.
Proof. vm_compute. reflexivity. Qed.

Section SendFacts.

Variable coerce : json -> jsstring + jsstring.
Variable fetch : Request -> Completion Response.t.
Variable stack : nat.

(** The result of [sendMessageToOrion] once a response has been received:
    what [decodeResponse] makes of it, through the [catch] block. *)
Lemma sendMessageToOrion_received text history response :
  received fetch text history = Normal response ->
  sendMessageToOrion coerce fetch stack text history
  = match decodeResponse coerce stack response with
    | Normal result => Normal result
    | Throw error => onError error
    end.
Proof.
  unfold received, sendMessageToOrion. now intros ->.
Qed.

(** C7. A response with status 404 makes [sendMessageToOrion] resolve to
    the fixed endpoint-misconfigured message, whatever its body. *)
Theorem sendMessageToOrion_404 :
  forall (text : jsstring) (history : list Message.t) (response : Response.t),
    received fetch text history = Normal response ->
    Response.status response = 404%Z ->
    sendMessageToOrion coerce fetch stack text history = Normal notFoundMessage.
Proof.
  intros text history response Hr Hs.
  rewrite (sendMessageToOrion_received _ _ _ Hr).
  unfold decodeResponse, Response.ok. rewrite Hs. simpl.
  exact notFoundMessage_returned.
Qed.

(** C6, as amended.  For a successful response, [sendMessageToOrion]
    resolves to: the extractor's result, when the body parses and the
    extractor returns a string; otherwise the body itself, when it is not
    blank and did not parse to a truthy value (it did not parse at all, or
    it parsed to null, false, zero or the empty string); otherwise, when
    the extractor returned [null], the fixed undecodable-reply message.
    When the extractor overflows the call stack on the parsed body, the
    promise is rejected with that error; this does not happen when the
    stack has room for the nesting of the parsed body. *)
Theorem sendMessageToOrion_success :
  forall (text : jsstring) (history : list Message.t) (response : Response.t),
    received fetch text history = Normal response ->
    Response.ok response = true ->
    let body := Response.text response in
    let result := sendMessageToOrion coerce fetch stack text history in
    (forall parsed found,
        JSON_parse body = Some parsed ->
        findResponseText stack parsed = Normal (Some found) ->
        result = Normal found)
    /\ (forall parsed,
        JSON_parse body = Some parsed ->
        findResponseText stack parsed = Normal None ->
        truthy parsed = true ->
        result = Normal undecodableMessage)
    /\ (JSON_parse body = None \/
        (exists parsed, JSON_parse body = Some parsed /\ truthy parsed = false) ->
        result = Normal (match trim body with [] => undecodableMessage | _ :: _ => body end))
    /\ (forall parsed e,
        JSON_parse body = Some parsed ->
        truthy parsed = true ->
        findResponseText stack parsed = Throw e ->
        result = Throw e /\ e = stackOverflow /\ stack < nesting parsed)
    /\ (forall parsed,
        JSON_parse body = Some parsed ->
        nesting parsed <= stack ->
        exists reply, result = Normal reply).
Proof.
  intros text history response Hr Hok body result.
  subst result. rewrite (sendMessageToOrion_received _ _ _ Hr).
  unfold decodeResponse. rewrite Hok. simpl negb. cbv iota. fold body.
  split; [|split; [|split; [|split]]].
  - intros parsed found Hp Hf. rewrite Hp.
    destruct (truthy parsed) eqn:T.
    + pose proof (truthyResult_found _ _ _ Hf) as TR.
      change (truthyResult (Some found) = true) in TR.
      rewrite Hf, TR. reflexivity.
    + apply (findResponseText_falsy _ _ _ T) in Hf. discriminate.
  - intros parsed Hp Hf T. rewrite Hp, T, Hf. simpl.
    rewrite andb_false_r. reflexivity.
  - intros H.
    assert (T : truthy (match JSON_parse body with Some parsed => parsed | None => JNull end)
                = false).
    { destruct H as [->|(parsed & -> & T)]; [reflexivity|exact T]. }
    rewrite T. simpl negb. rewrite andb_true_r.
    pose proof (trim_length body) as L.
    destruct body as [|c b]; [reflexivity|].
    simpl truthy. simpl andb.
    destruct (trim (c :: b)); reflexivity.
  - intros parsed e Hp T Hf. rewrite Hp, T, Hf.
    apply findResponseText_thrown in Hf as [-> Hf].
    split; [exact stackOverflow_rethrown|]. split; [reflexivity|exact Hf].
  - intros parsed Hp Hn. rewrite Hp.
    destruct (findResponseText_within _ _ Hn) as [found Hf]. rewrite Hf.
    destruct (truthy parsed) eqn:T.
    + destruct (findResponseText_result _ _ _ Hf) as [->|(c & t & ->)].
      * simpl. rewrite andb_false_r. eauto.
      * simpl. eauto.
    + rewrite andb_true_r.
      destruct (truthy (JString body) && (0 <? length (trim body))%nat); eauto.
Qed.

End SendFacts.

(* ===================================================================== *)
(** ** The session store                                                   *)
(* ===================================================================== *)

(** *** Appending messages *)

Lemma derivedTitle_truncated (s : jsstring) : derivedTitle s = truncated20 s.
Proof.
  unfold derivedTitle, truncated20.
  change 20%Z with (Z.of_nat 20). rewrite slice_prefix.
  destruct (Nat.leb_spec (length s) 20) as [H|H].
  - destruct (Nat.ltb_spec 20 (length s)) as [H'|_]; [lia|].
    rewrite firstn_all2 by assumption. apply app_nil_r.
  - destruct (Nat.ltb_spec 20 (length s)) as [_|H']; [reflexivity|lia].
Qed.

Lemma updateEach_nth current newMessages now (prev : list ChatSession.t) :
  forall k i session,
    nth_error prev i = Some session ->
    exists reading,
      nth_error (updateEach current newMessages now k prev) i
      = Some (if str_eqb (ChatSession.id session) current
              then updatedSession session newMessages reading
              else session).
Proof.
  induction prev as [|x prev IH]; intros k [|i] session H; simpl in H; try discriminate.
  - injection H as ->. simpl.
    destruct (str_eqb (ChatSession.id session) current); simpl; eauto.
  - simpl. destruct (str_eqb (ChatSession.id x) current); simpl; eauto.
Qed.

Lemma updateEach_length current newMessages now k (prev : list ChatSession.t) :
  length (updateEach current newMessages now k prev) = length prev.
Proof.
  revert k; induction prev as [|x prev IH]; intros k; simpl; [reflexivity|].
  destruct (str_eqb (ChatSession.id x) current); simpl; now rewrite IH.
Qed.

(** C4, as amended.  Appending a non-empty log through
    [updateCurrentMessages], when the current id is a non-empty string,
    gives each session with that id the new log and keeps its id; its title
    becomes the first message's content cut at twenty code units (with an
    ellipsis when longer) if and only if the old title is a placeholder or
    the session's old log is empty, and is unchanged otherwise; every
    session with another id is unchanged.  When there is no current id, or
    it is the empty string, nothing changes at all. *)
Theorem updateCurrentMessages_title :
  forall (render pending : AppState) (now : Clock)
         (first : Message.t) (rest : list Message.t),
    let after := updateCurrentMessages render (first :: rest) now pending in
    (forall (current : jsstring) (i : nat) (session : ChatSession.t),
        currentSessionId render = Some current ->
        current <> [] ->
        nth_error (sessions pending) i = Some session ->
        (ChatSession.id session = current ->
           exists session',
             nth_error (sessions after) i = Some session' /\
             ChatSession.id session' = ChatSession.id session /\
             ChatSession.messages session' = first :: rest /\
             ChatSession.title session'
             = if isPlaceholder (ChatSession.title session)
                  || (length (ChatSession.messages session) =? 0)%nat
               then truncated20 (Message.content first)
               else ChatSession.title session)
        /\ (ChatSession.id session <> current ->
            nth_error (sessions after) i = Some session))
    /\ (currentSessionId render = None \/ currentSessionId render = Some [] ->
        after = pending).
Proof.
  intros render pending now first rest after. subst after. split.
  - intros current i session Hc Hne Hnth.
    unfold updateCurrentMessages. rewrite Hc.
    destruct current as [|c current]; [contradiction|].
    simpl sessions.
    destruct (updateEach_nth (c :: current) (first :: rest) now _ 0 i session Hnth)
      as [reading Hr].
    split.
    + intros Hid. apply str_eqb_eq in Hid. rewrite Hid in Hr.
      eexists. split; [exact Hr|]. repeat split.
      simpl. unfold isPlaceholder. rewrite derivedTitle_truncated.
      destruct (str_eqb (ChatSession.title session) title_zh
                || str_eqb (ChatSession.title session) title_en
                || (length (ChatSession.messages session) =? 0)%nat); reflexivity.
    + intros Hid. apply str_eqb_neq in Hid. now rewrite Hid in Hr.
  - unfold updateCurrentMessages. intros [->| ->]; reflexivity.
Qed.

(** *** Deleting sessions *)

Lemma filter_other_id (id : jsstring) (l : list ChatSession.t) :
  forall x, In x (filter (fun s => negb (str_eqb (ChatSession.id s) id)) l) <->
            In x l /\ ChatSession.id x <> id.
Proof.
  intros x. rewrite filter_In. rewrite negb_true_iff, str_eqb_neq. tauto.
Qed.

Lemma filter_unique_id (s : ChatSession.t) (l : list ChatSession.t) :
  NoDup (map ChatSession.id l) -> In s l ->
  exists l1 l2,
    l = l1 ++ s :: l2 /\
    filter (fun x => negb (str_eqb (ChatSession.id x) (ChatSession.id s))) l = l1 ++ l2.
Proof.
  induction l as [|x l IH]; simpl; intros Hnd Hin; [contradiction|].
  inversion Hnd as [|? ? Hx Hnd']; subst.
  destruct Hin as [->|Hin].
  - exists [], l. split; [reflexivity|].
    rewrite str_eqb_refl. simpl.
    apply forallb_filter_id. apply forallb_forall. intros y Hy.
    apply negb_true_iff, str_eqb_neq. intros E. apply Hx. rewrite <- E.
    now apply in_map.
  - destruct (IH Hnd' Hin) as (l1 & l2 & -> & Hf).
    assert (Hne : ChatSession.id x <> ChatSession.id s).
    { intros E. apply Hx. rewrite E. apply in_map, in_or_app. right. now left. }
    apply str_eqb_neq in Hne. rewrite Hne. simpl.
    exists (x :: l1), l2. split; [reflexivity|]. now rewrite Hf.
Qed.

(** The store is never empty once it is initialised. *)
Lemma reachable_nonempty (st : AppState) : reachable st -> sessions st <> [].
Proof.
  induction 1 as [storage now st Hinit | st ev now Hst IH | render st newMessages now _ _ Hst IH].
  - unfold initialize in Hinit.
    destruct (loadSessions storage) as [[|first loaded]|]; try discriminate.
    + injection Hinit as <-. simpl. discriminate.
    + injection Hinit as <-.
      destruct (getItem storage orion_current_session_id) as [[|c saved]|]; simpl;
        try discriminate.
      destruct (str_eqb (ChatSession.id first) (c :: saved)
                || existsb (fun s => str_eqb (ChatSession.id s) (c :: saved)) loaded);
        simpl; discriminate.
  - destruct ev; simpl; try assumption.
    + discriminate.
    + unfold deleteSession.
      destruct (filter (fun s => negb (str_eqb (ChatSession.id s) id)) (sessions st))
        as [|first l] eqn:E; simpl; [discriminate|].
      destruct (currentSessionId st) as [current|]; simpl; [|discriminate].
      destruct (str_eqb current id); simpl; discriminate.
    + unfold updateCurrentMessages.
      destruct (currentSessionId st) as [[|c current]|]; simpl; try assumption.
      intros E. apply IH. apply length_zero_iff_nil.
      rewrite <- (updateEach_length (c :: current) newMessages now 0), E. reflexivity.
  - unfold updateCurrentMessages.
    destruct (currentSessionId render) as [[|c current]|]; simpl; try assumption.
    intros E. apply IH. apply length_zero_iff_nil.
    rewrite <- (updateEach_length (c :: current) newMessages now 0), E. reflexivity.
Qed.

(** C5. Deleting the only session leaves exactly one session, the one
    [createSessionObject] has just made (no messages, a placeholder title),
    and selects it; and no state the store reaches has an empty session
    list. *)
Theorem deleteSession_only_session :
  (forall (st : AppState) (s : ChatSession.t) (now : Clock),
      sessions st = [s] ->
      let after := deleteSession st now (ChatSession.id s) st in
      let fresh := createSessionObject (language st) now in
      sessions after = [fresh] /\
      currentSessionId after = Some (ChatSession.id fresh) /\
      ChatSession.messages fresh = [] /\
      isPlaceholder (ChatSession.title fresh) = true)
  /\ (forall st : AppState, reachable st -> sessions st <> []).
Proof.
  split; [|exact reachable_nonempty].
  intros st s now Hs after fresh. subst after fresh.
  unfold deleteSession. rewrite Hs. simpl. rewrite str_eqb_refl. simpl.
  repeat split. destruct (language st); reflexivity.
Qed.

(** C10, as amended.  Deleting a session that is not the current one
    removes every session that has its id.  As long as a session with
    another id remains, the sessions with other ids stay as they were and in
    their order, and the current id, the language and the initialised flag
    are unchanged.  In a store of at least two sessions with distinct ids,
    that session and nothing else is removed. *)
Theorem deleteSession_other_session :
  forall (st : AppState) (now : Clock) (s : ChatSession.t),
    In s (sessions st) ->
    currentSessionId st <> Some (ChatSession.id s) ->
    let after := deleteSession st now (ChatSession.id s) st in
    let others :=
      filter (fun x => negb (str_eqb (ChatSession.id x) (ChatSession.id s))) (sessions st) in
    (forall x, In x others <-> In x (sessions st) /\ ChatSession.id x <> ChatSession.id s)
    /\ ((exists x, In x (sessions st) /\ ChatSession.id x <> ChatSession.id s) ->
        sessions after = others
        /\ currentSessionId after = currentSessionId st
        /\ language after = language st
        /\ isInitialized after = isInitialized st)
    /\ (NoDup (map ChatSession.id (sessions st)) ->
        2 <= length (sessions st) ->
        (exists l1 l2, sessions st = l1 ++ s :: l2 /\ sessions after = l1 ++ l2)
        /\ (forall x, In x (sessions after) <-> In x (sessions st) /\ x <> s)
        /\ currentSessionId after = currentSessionId st
        /\ language after = language st
        /\ isInitialized after = isInitialized st).
Proof.
  intros st now s Hin Hcur after others.
  assert (Hkept : others <> [] ->
            sessions after = others
            /\ currentSessionId after = currentSessionId st
            /\ language after = language st
            /\ isInitialized after = isInitialized st).
  { subst after. unfold deleteSession. fold others. intros Hne.
    destruct others as [|first l]; [contradiction|].
    destruct (currentSessionId st) as [current|] eqn:Ec; simpl; [|auto].
    destruct (str_eqb current (ChatSession.id s)) eqn:Eq; simpl; [|auto].
    apply str_eqb_eq in Eq. subst current. contradiction. }
  split; [intros x; apply filter_other_id|]. split.
  - intros (x & Hx & Hne). apply Hkept. intros E.
    assert (Hi : In x others) by (apply filter_other_id; auto).
    rewrite E in Hi. contradiction.
  - intros Hnd Hlen.
    destruct (filter_unique_id s (sessions st) Hnd Hin) as (l1 & l2 & Hsplit & Hf).
    fold others in Hf.
    assert (Hne : others <> []).
    { rewrite Hf. intros E. rewrite Hsplit in Hlen. apply app_eq_nil in E as [-> ->].
      simpl in Hlen. lia. }
    destruct (Hkept Hne) as (Hs & Hc & Hl & Hi).
    split; [exists l1, l2; split; [assumption|congruence]|].
    split; [|repeat split; assumption].
    intros x. rewrite Hs. unfold others. rewrite filter_other_id.
    split; intros [Hx Hd]; (split; [assumption|]).
    + intros ->. now apply Hd.
    + intros E. apply Hd.
      rewrite Hsplit in Hnd, Hx. clear - Hnd Hx E.
      rewrite map_app in Hnd. simpl in Hnd.
      apply NoDup_remove in Hnd as [_ Hnot].
      apply in_app_or in Hx as [Hx|[Hx|Hx]]; [| now symmetry |].
      * exfalso. apply Hnot. apply in_or_app. left. rewrite <- E. now apply in_map.
      * exfalso. apply Hnot. apply in_or_app. right. rewrite <- E. now apply in_map.
Qed.

(** *** Persisting and reloading *)

Lemma getItem_stored_same storage key value :
  getItem (stored storage key value) key = Some value.
Proof. unfold getItem, stored. now rewrite str_eqb_refl. Qed.

Lemma getItem_stored_other storage key key' value :
  key' <> key -> getItem (stored storage key value) key' = getItem storage key'.
Proof. intros H. unfold getItem, stored. apply str_eqb_neq in H. now rewrite H. Qed.

Lemma JSON_parse_empty : JSON_parse [] = None.
Proof. reflexivity. Qed.

Section RoundTripFacts.

Variable toISOString : Z -> jsstring.
Variable JSON_stringify : list ChatSession.t -> jsstring.
Variable fits : LocalStorage -> jsstring -> jsstring -> bool.

Lemma storedMessage_idempotent m :
  storedMessage toISOString (storedMessage toISOString m) = storedMessage toISOString m.
Proof. destruct m as [i r c [t|t] l d]; reflexivity. Qed.

Lemma storedSession_idempotent s :
  storedSession toISOString (storedSession toISOString s) = storedSession toISOString s.
Proof.
  destruct s as [i t ms u]. unfold storedSession. simpl. f_equal.
  rewrite map_map. apply map_ext. apply storedMessage_idempotent.
Qed.

Lemma storedSession_id s : ChatSession.id (storedSession toISOString s) = ChatSession.id s.
Proof. reflexivity. Qed.

Lemma existsb_stored current (l : list ChatSession.t) :
  existsb (fun s => str_eqb (ChatSession.id s) current) (map (storedSession toISOString) l)
  = existsb (fun s => str_eqb (ChatSession.id s) current) l.
Proof. induction l as [|x l IH]; simpl; [reflexivity|]. now rewrite IH. Qed.

(** What the two auto-save effects leave in storage when both writes fit. *)
Lemma persist_written st storage storage' c current :
  isInitialized st = true ->
  currentSessionId st = Some (c :: current) ->
  fits storage orion_sessions (JSON_stringify (sessions st)) = true ->
  persist JSON_stringify fits st storage = Some storage' ->
  getItem storage' orion_sessions = Some (JSON_stringify (sessions st)) /\
  getItem storage' orion_current_session_id = Some (c :: current).
Proof.
  intros Hi Hc Hf Hp. unfold persist, saveCurrentSessionId, saveSessions, setItem in Hp.
  rewrite Hi, Hc, Hf in Hp.
  destruct (fits _ orion_current_session_id (c :: current)); [|discriminate].
  injection Hp as <-. split.
  - rewrite getItem_stored_other by (vm_compute; discriminate).
    apply getItem_stored_same.
  - apply getItem_stored_same.
Qed.

(** C8, as amended.  Take an initialised store with at least one session
    and a non-empty current id, let both auto-save writes fit, and let
    [JSON.parse] read back what [JSON.stringify] wrote.  Then initialisation
    from the resulting storage loads the stored form of the collection,
    which is equivalent to it (timestamps come back as ISO strings), and
    selects the saved id when a loaded session has it, the first session
    otherwise. *)
Theorem persist_initialize_roundtrip :
  forall (st : AppState) (storage storage' : LocalStorage) (current : jsstring)
         (now : Clock),
    isInitialized st = true ->
    sessions st <> [] ->
    currentSessionId st = Some current ->
    current <> [] ->
    fits storage orion_sessions (JSON_stringify (sessions st)) = true ->
    persist JSON_stringify fits st storage = Some storage' ->
    roundTrips toISOString JSON_stringify (sessions st) ->
    exists st' : AppState,
      initialize storage' now = Some st' /\
      sessions st' = map (storedSession toISOString) (sessions st) /\
      equivalent toISOString (sessions st) (sessions st') /\
      currentSessionId st' = restoredSelection current (sessions st') /\
      (In current (map ChatSession.id (sessions st)) -> currentSessionId st' = Some current) /\
      (~ In current (map ChatSession.id (sessions st)) ->
       currentSessionId st' = option_map ChatSession.id (hd_error (sessions st'))).
Proof.
  intros st storage storage' current now Hi Hne Hc Hcur Hf Hp (items & Hparse & Hread).
  destruct current as [|c current]; [contradiction|].
  destruct (persist_written _ _ _ _ _ Hi Hc Hf Hp) as [Hs Hid].
  assert (Hload : loadSessions storage' = Some (map (storedSession toISOString) (sessions st))).
  { unfold loadSessions. rewrite Hs.
    destruct (JSON_stringify (sessions st)) as [|x text] eqn:E.
    - rewrite JSON_parse_empty in Hparse. discriminate.
    - rewrite Hparse. exact Hread. }
  unfold initialize. rewrite Hload, Hid.
  destruct (sessions st) as [|first others] eqn:Es; [contradiction|].
  simpl map. cbv iota.
  set (loaded := storedSession toISOString first :: map (storedSession toISOString) others).
  assert (Hex : existsb (fun s => str_eqb (ChatSession.id s) (c :: current)) loaded
                = existsb (fun s => str_eqb (ChatSession.id s) (c :: current)) (first :: others)).
  { exact (existsb_stored (c :: current) (first :: others)). }
  eexists. split; [reflexivity|].
  split; [destruct (existsb _ loaded); reflexivity|].
  split.
  { unfold equivalent.
    replace (sessions _) with loaded by (destruct (existsb _ loaded); reflexivity).
    unfold loaded. change (map (storedSession toISOString) (first :: others)
      = map (storedSession toISOString) (map (storedSession toISOString) (first :: others))).
    rewrite map_map. apply map_ext. intros s. symmetry. apply storedSession_idempotent. }
  split.
  { unfold restoredSelection.
    replace (sessions _) with loaded by (destruct (existsb _ loaded); reflexivity).
    destruct (existsb _ loaded); reflexivity. }
  split.
  - intros Hin. rewrite Hex.
    assert (E : existsb (fun s => str_eqb (ChatSession.id s) (c :: current)) (first :: others)
                = true).
    { apply existsb_exists.
      change (In (c :: current) (map ChatSession.id (first :: others))) in Hin.
      apply in_map_iff in Hin as (s & Hs' & Hin).
      exists s. split; [assumption|]. now apply str_eqb_eq. }
    rewrite E. reflexivity.
  - intros Hin. rewrite Hex.
    assert (E : existsb (fun s => str_eqb (ChatSession.id s) (c :: current)) (first :: others)
                = false).
    { destruct (existsb _ (first :: others)) eqn:E; [|reflexivity].
      exfalso. apply Hin. apply existsb_exists in E as (s & Hs' & E).
      apply str_eqb_eq in E. rewrite <- E.
      change (In (ChatSession.id s) (map ChatSession.id (first :: others))).
      now apply in_map. }
    rewrite E. reflexivity.
Qed.

End RoundTripFacts.
(* ===================================================================== *)
(** ** Instances and counterexamples                                       *)
(* ===================================================================== *)

(** C1 at an object whose [message] and [output] members both hold text:
    [output] has the higher priority. *)
Lemma findResponseText_direct_field_witness :
  holdsText [(lit "message", JString (lit "m")); (lit "output", JString (lit "o"))]
            (lit "output") (lit "o")
  /\ findResponseText 1
       (JObject [(lit "message", JString (lit "m")); (lit "output", JString (lit "o"))])
     = Normal (Some (lit "o")).
Proof.
  assert (H : holdsText [(lit "message", JString (lit "m")); (lit "output", JString (lit "o"))]
                        (lit "output") (lit "o")).
  { split; [reflexivity|discriminate]. }
  split; [exact H|].
  apply (findResponseText_direct_field
           [(lit "message", JString (lit "m")); (lit "output", JString (lit "o"))]
           [lit "text_response"] [lit "response"; lit "message"; lit "content"]
           (lit "output") (lit "o")).
  - reflexivity.
  - exact H.
  - intros k' [<-|[]] s' [Hget _]. vm_compute in Hget. discriminate.
Defined.

(** C2 at an array with a number and a plain sentence, searched with room
    for two activations: no field occurs in it, its nesting is two, and the
    extractor returns [null]. *)
Lemma findResponseText_terminates_witness :
  findResponseText 2 (JArray [JNumber 1 0; JString (lit "plain text")]) = Normal None.
Proof.
  destruct (findResponseText_terminates 2 (JArray [JNumber 1 0; JString (lit "plain text")]))
    as (_ & _ & Hnull & _).
  apply Hnull. intros Hocc.
  inversion Hocc as [| |items v Hin Hv|]; subst.
  destruct Hin as [<-|[<-|[]]].
  - inversion Hv.
  - inversion Hv as [| | |str document w Hdoc Hparse _]; subst.
    destruct Hdoc as [->| ->]; vm_compute in Hparse; discriminate.
Defined.

(** C2 as first stated fails on arrays nested deeper than the call stack
    has room: no field occurs in them, and the extractor throws.  With room
    for three activations, an empty array inside three arrays is enough; and
    whatever the room, some such value overflows it. *)
Lemma findResponseText_deep_nesting :
  ~ Occurs (nestedArrays 3)
  /\ findResponseText 3 (nestedArrays 3) = Throw stackOverflow
  /\ ~ (exists stack : nat, null_claim stack).
Proof.
  split; [apply nestedArrays_no_field|]. split; [vm_compute; reflexivity|].
  intros [stack H].
  specialize (H (nestedArrays stack) (nestedArrays_no_field stack)).
  rewrite findResponseText_no_field in H by apply nestedArrays_no_field.
  rewrite nestedArrays_nesting in H.
  destruct (Nat.leb_spec (S stack) stack); [lia|discriminate].
Qed.

(** C9 at an object with an [output] member. *)
Lemma findResponseText_never_empty_witness :
  Some (lit "o") = None \/ exists c s, Some (lit "o") = Some (c :: s).
Proof.
  apply (proj1 (findResponseText_never_empty 1 (JObject [(lit "output", JString (lit "o"))]))).
  vm_compute. reflexivity.
Defined.

(** C3 at the history of the specification's example. *)
Lemma memoryContext_summary_witness :
  memoryContext (lit "weather?")
    [Sample.message user "hi"; Sample.message assistant "hello";
     Sample.message user "weather?"]
  = lit "User: hi" ++ newline ++ lit "Orion: hello".
Proof.
  destruct (memoryContext_summary (lit "weather?")
              [Sample.message user "hi"; Sample.message assistant "hello";
               Sample.message user "weather?"]) as (H & _ & _).
  rewrite H.
  - vm_compute. reflexivity.
  - exists (Sample.message user "hi"). split; [now left|]. vm_compute. discriminate.
Defined.

(** C3 as first stated fails when every earlier message is blank: the user
    sends the same text again after a reply of one space.  The summary is
    the empty string, not the marker. *)
Lemma memoryContext_blank_history :
  memoryContext (lit "hi")
    [Sample.message user "hi"; Sample.message assistant " "; Sample.message user "hi"]
  = []
  /\ memoryContext (lit "hi")
       [Sample.message user "hi"; Sample.message assistant " "; Sample.message user "hi"]
     <> memoryContext_spec (lit "hi")
          [Sample.message user "hi"; Sample.message assistant " "; Sample.message user "hi"].
Proof. split; vm_compute; [reflexivity|discriminate]. Qed.

(** C4 at a fresh session that receives a long first message. *)
Lemma updateCurrentMessages_title_witness :
  exists session' : ChatSession.t,
    nth_error
      (sessions
         (updateCurrentMessages
            (Sample.store [ChatSession.make (lit "17") title_zh [] 0] "17")
            [Sample.message user "what is the weather in Paris"]
            Sample.clock
            (Sample.store [ChatSession.make (lit "17") title_zh [] 0] "17"))) 0
    = Some session'
    /\ ChatSession.title session' = lit "what is the weather " ++ lit "...".
Proof.
  destruct (proj1 (updateCurrentMessages_title
              (Sample.store [ChatSession.make (lit "17") title_zh [] 0] "17")
              (Sample.store [ChatSession.make (lit "17") title_zh [] 0] "17")
              Sample.clock
              (Sample.message user "what is the weather in Paris") [])
              (lit "17") 0%nat (ChatSession.make (lit "17") title_zh [] 0)) as [H _].
  - reflexivity.
  - discriminate.
  - reflexivity.
  - destruct (H eq_refl) as (session' & Hn & _ & _ & Ht).
    exists session'. split; [exact Hn|]. rewrite Ht. vm_compute. reflexivity.
Defined.

(** C4 as first stated fails for a session whose title is not a
    placeholder and whose log is empty: the title is replaced.  It also
    fails in the store that initialisation builds from a stored session
    whose id is the empty string: the placeholder title stays. *)
Lemma updateCurrentMessages_replaces_title :
  ~ title_claim (Sample.store [Sample.session "17" "Trip" []] "17")
                (Sample.store [Sample.session "17" "Trip" []] "17")
                Sample.clock (Sample.message user "hello") []
  /\ (initialize Scenario.blankIdStorage Sample.clock = Some Scenario.blankIdStore
      /\ ~ title_claim Scenario.blankIdStore Scenario.blankIdStore
                       Sample.clock (Sample.message user "hello") []).
Proof.
  split; [|split; [vm_compute; reflexivity|]]; intros H.
  - specialize (H 0%nat (Sample.session "17" "Trip" [])
                  (ChatSession.make (lit "17") (lit "hello") [Sample.message user "hello"]
                                    1767225600000)
                  eq_refl eq_refl eq_refl).
    vm_compute in H. discriminate.
  - specialize (H 0%nat (ChatSession.make [] title_zh [] 0)
                  (ChatSession.make [] title_zh [] 0) eq_refl eq_refl eq_refl).
    vm_compute in H. discriminate.
Qed.

(** C5 at a store with one session. *)
Lemma deleteSession_only_session_witness :
  sessions (deleteSession (Sample.store [Sample.session "17" "hello" []] "17")
              Sample.clock (lit "17")
              (Sample.store [Sample.session "17" "hello" []] "17"))
  = [createSessionObject zh Sample.clock]
  /\ currentSessionId
       (deleteSession (Sample.store [Sample.session "17" "hello" []] "17")
          Sample.clock (lit "17")
          (Sample.store [Sample.session "17" "hello" []] "17"))
     = Some (lit "1767225600000").
Proof.
  destruct (proj1 deleteSession_only_session
              (Sample.store [Sample.session "17" "hello" []] "17")
              (Sample.session "17" "hello" []) Sample.clock eq_refl)
    as (Hs & Hc & _ & _).
  split; [exact Hs|exact Hc].
Defined.

(** C6 at a successful response whose body is an object with an [output]
    member. *)
Lemma sendMessageToOrion_success_witness :
  sendMessageToOrion Sample.coerce
    (Sample.responds 200 (lit "{" ++ Sample.quoted "output" ++ lit ":"
                            ++ Sample.quoted "sunny" ++ lit "}"))
    8 (lit "weather?") []
  = Normal (lit "sunny").
Proof.
  destruct (sendMessageToOrion_success Sample.coerce
              (Sample.responds 200 (lit "{" ++ Sample.quoted "output" ++ lit ":"
                                      ++ Sample.quoted "sunny" ++ lit "}"))
              8 (lit "weather?") []
              {| Response.status := 200;
                 Response.text := lit "{" ++ Sample.quoted "output" ++ lit ":"
                           ++ Sample.quoted "sunny" ++ lit "}" |}
              eq_refl eq_refl) as (H & _ & _).
  apply (H (JObject [(lit "output", JString (lit "sunny"))]) (lit "sunny"));
    vm_compute; reflexivity.
Defined.

(** C6 as first stated fails on a successful response whose body is one
    space (not empty, not JSON: the function answers the undecodable
    message, not the body), on one whose body is [0] (it parses, the
    extractor finds nothing: the function answers the body, not the
    undecodable message), and on one whose body is nested deeper than the
    call stack has room (the promise is rejected). *)
Lemma sendMessageToOrion_blank_or_falsy_body :
  ~ reply_claim Sample.coerce (Sample.responds 200 (lit " ")) 8 (lit "weather?") []
  /\ ~ reply_claim Sample.coerce (Sample.responds 200 (lit "0")) 8 (lit "weather?") []
  /\ ~ reply_claim Sample.coerce (Sample.responds 200 (lit "[[[]]]")) 2 (lit "weather?") [].
Proof.
  split; [|split]; intros H.
  - specialize (H {| Response.status := 200; Response.text := lit " " |} eq_refl eq_refl).
    vm_compute in H. discriminate.
  - specialize (H {| Response.status := 200; Response.text := lit "0" |} eq_refl eq_refl).
    vm_compute in H. discriminate.
  - specialize (H {| Response.status := 200; Response.text := lit "[[[]]]" |}
                  eq_refl eq_refl).
    vm_compute in H. discriminate.
Qed.

(** C7 at a 404 response with some body. *)
Lemma sendMessageToOrion_404_witness :
  sendMessageToOrion Sample.coerce
    (Sample.responds 404 (lit "{" ++ Sample.quoted "message" ++ lit ":"
                            ++ Sample.quoted "no such webhook" ++ lit "}"))
    8 (lit "weather?") []
  = Normal notFoundMessage.
Proof.
  apply (sendMessageToOrion_404 Sample.coerce
           (Sample.responds 404 (lit "{" ++ Sample.quoted "message" ++ lit ":"
                                   ++ Sample.quoted "no such webhook" ++ lit "}"))
           8 (lit "weather?") []
           {| Response.status := 404;
              Response.text := lit "{" ++ Sample.quoted "message" ++ lit ":"
                        ++ Sample.quoted "no such webhook" ++ lit "}" |});
    reflexivity.
Defined.

Lemma twoSessions_roundTrips :
  roundTrips Sample.toISOString (fun _ => Sample.twoSessionsText) Sample.twoSessions.
Proof. exists Sample.twoSessionsItems. split; vm_compute; reflexivity. Qed.

(** C8 at a store of two sessions, the second one selected. *)
Lemma persist_initialize_roundtrip_witness :
  exists st' : AppState,
    initialize
      (stored (stored Sample.emptyStorage orion_sessions Sample.twoSessionsText)
              orion_current_session_id (lit "18"))
      Sample.clock
    = Some st'
    /\ equivalent Sample.toISOString Sample.twoSessions (sessions st')
    /\ currentSessionId st' = Some (lit "18").
Proof.
  destruct (persist_initialize_roundtrip Sample.toISOString
              (fun _ => Sample.twoSessionsText) Sample.fits
              (Sample.store Sample.twoSessions "18") Sample.emptyStorage
              (stored (stored Sample.emptyStorage orion_sessions Sample.twoSessionsText)
                      orion_current_session_id (lit "18"))
              (lit "18") Sample.clock)
    as (st' & Hinit & _ & Heq & _ & Hcur & _).
  - reflexivity.
  - discriminate.
  - reflexivity.
  - discriminate.
  - reflexivity.
  - reflexivity.
  - exact twoSessions_roundTrips.
  - exists st'. split; [exact Hinit|]. split; [exact Heq|].
    apply Hcur. right. now left.
Defined.

Lemma emptyCollection_roundTrips :
  roundTrips Sample.toISOString (fun _ => lit "[]") [].
Proof. exists []. split; reflexivity. Qed.

Lemma emptyIdSessions_roundTrips :
  roundTrips Sample.toISOString (fun _ => Sample.emptyIdText) Sample.emptyIdSessions.
Proof. exists Sample.emptyIdItems. split; vm_compute; reflexivity. Qed.

(** C8 as first stated fails for the empty collection (initialisation
    makes a fresh session instead of loading none) and for a current id
    that is the empty string (it is not written, so the reload selects the
    first session although a loaded session has that id). *)
Lemma persist_initialize_empty :
  ~ roundtrip_claim Sample.toISOString (fun _ => lit "[]") Sample.fits
      (Sample.store [] "17") Sample.emptyStorage Sample.clock
  /\ ~ roundtrip_claim Sample.toISOString (fun _ => Sample.emptyIdText) Sample.fits
         (Sample.store Sample.emptyIdSessions "") Sample.emptyStorage Sample.clock.
Proof.
  split; intros H.
  - destruct (H (stored (stored Sample.emptyStorage orion_sessions (lit "[]"))
                        orion_current_session_id (lit "17"))
                (lit "17") eq_refl eq_refl eq_refl eq_refl emptyCollection_roundTrips)
      as (st' & Hinit & Heq & _).
    vm_compute in Hinit. injection Hinit as <-.
    unfold equivalent in Heq. simpl in Heq. discriminate.
  - destruct (H (stored Sample.emptyStorage orion_sessions Sample.emptyIdText)
                [] eq_refl eq_refl eq_refl eq_refl emptyIdSessions_roundTrips)
      as (st' & Hinit & _ & Hcur).
    vm_compute in Hinit. injection Hinit as <-.
    vm_compute in Hcur. discriminate.
Qed.

(** C10 at a store of two sessions, deleting the one that is not
    selected. *)
Lemma deleteSession_other_session_witness :
  sessions (deleteSession (Sample.store Sample.twoSessions "17") Sample.clock (lit "18")
              (Sample.store Sample.twoSessions "17"))
  = [Sample.session "17" "hello" [Sample.message user "hello"]]
  /\ currentSessionId
       (deleteSession (Sample.store Sample.twoSessions "17") Sample.clock (lit "18")
          (Sample.store Sample.twoSessions "17"))
     = Some (lit "17").
Proof.
  destruct (deleteSession_other_session (Sample.store Sample.twoSessions "17")
              Sample.clock (Sample.session "18" "trip" [])) as (_ & H & _).
  - right. now left.
  - discriminate.
  - destruct H as (Hs & Hc & _).
    + exists (Sample.session "17" "hello" [Sample.message user "hello"]).
      split; [now left|discriminate].
    + split; [exact Hs|exact Hc].
Defined.

(** C10 as first stated fails in a store that the views reach: the
    new-chat button pressed twice within one millisecond makes two sessions
    with one id, and deleting one of them, while another session is
    selected, removes both. *)
Lemma deleteSession_shared_id :
  displayed Scenario.doubleClick
  /\ ~ delete_claim Scenario.doubleClick Sample.clock.
Proof.
  split.
  - unfold Scenario.doubleClick.
    apply displayed_event; [|vm_compute; auto].
    apply displayed_event; [|exact I].
    apply displayed_event; [|exact I].
    apply (displayed_init Sample.emptyStorage Sample.clock). reflexivity.
  - intros H.
    destruct (H (createSessionObject zh Scenario.sameMillisecond)) as (l1 & l2 & E1 & E2).
    + vm_compute. lia.
    + vm_compute. auto.
    + vm_compute. discriminate.
    + assert (L1 : length (sessions Scenario.doubleClick) = 3) by (vm_compute; reflexivity).
      assert (L2 : length (sessions
                             (deleteSession Scenario.doubleClick Sample.clock
                                (ChatSession.id (createSessionObject zh Scenario.sameMillisecond))
                                Scenario.doubleClick)) = 1)
        by (vm_compute; reflexivity).
      rewrite E1 in L1. rewrite E2 in L2. rewrite length_app in L1, L2.
      simpl in L1. lia.
Qed.

(* ===================================================================== *)
(** ** Further properties and worked examples                              *)
(* ===================================================================== *)

(** A duplicate key keeps its place and takes the last value; an integer
    key is enumerated before the others. *)
Example JSON_parse_member_order :
  JSON_parse (lit "{" ++ Sample.quoted "b" ++ lit ": 1, " ++ Sample.quoted "7"
                ++ lit ": [true, null], " ++ Sample.quoted "b" ++ lit ": "
                ++ Sample.quoted "x" ++ lit "}")
  = Some (JObject [(lit "7", JArray [JBool true; JNull]); (lit "b", JString (lit "x"))]).
Proof. vm_compute. reflexivity. Qed.

Example JSON_parse_rejects :
  JSON_parse (lit "[1,]") = None /\ JSON_parse (lit "01") = None
  /\ JSON_parse (lit "{} x") = None /\ JSON_parse (lit "") = None.
Proof. vm_compute. repeat split. Qed.

(** The third case of the source's comment: a member that holds a JSON
    document as a string. *)
Example findResponseText_stringified :
  findResponseText 3
    (JObject [(lit "sms",
               JString (lit "{" ++ Sample.quoted "text_response" ++ lit ": "
                          ++ Sample.quoted "hello" ++ lit "}"))])
  = Normal (Some (lit "hello")).
Proof. vm_compute. reflexivity. Qed.

(** The fourth case: a JSON document inside a Markdown code fence, found
    by the second attempt (first opening to last closing brace). *)
Example findResponseText_fenced :
  findResponseText 2
    (JString (lit "```json" ++ newline ++ lit "{" ++ Sample.quoted "output" ++ lit ": "
                ++ Sample.quoted "hello" ++ lit "}" ++ newline ++ lit "```"))
  = Normal (Some (lit "hello")).
Proof. vm_compute. reflexivity. Qed.

(** Priority is among the fields of one object; a lower-priority field of
    the object itself is returned before any field of a child. *)
Example findResponseText_parent_first :
  findResponseText 1
    (JObject [(lit "data", JObject [(lit "text_response", JString (lit "inner"))]);
              (lit "content", JString (lit "outer"))])
  = Normal (Some (lit "outer")).
Proof. vm_compute. reflexivity. Qed.

Example derivedTitle_examples :
  derivedTitle (lit "short") = lit "short"
  /\ derivedTitle (lit "exactly twenty chars") = lit "exactly twenty chars"
  /\ derivedTitle (lit "twenty-one characters") = lit "twenty-one character...".
Proof. vm_compute. repeat split. Qed.

(** A document carried by a string is searched inside a [try]: when the
    search overflows the stack, the string gives [null], where the same
    document as a value makes the extractor throw. *)
Example findResponseText_swallowed_overflow :
  let text := lit "{" ++ Sample.quoted "a" ++ lit ":[{" ++ Sample.quoted "output" ++ lit ":"
                ++ Sample.quoted "x" ++ lit "}]}" in
  let document := JObject [(lit "a", JArray [JObject [(lit "output", JString (lit "x"))]])] in
  JSON_parse text = Some document
  /\ findResponseText 3 (JString text) = Normal None
  /\ findResponseText 4 (JString text) = Normal (Some (lit "x"))
  /\ findResponseText 2 document = Throw stackOverflow
  /\ findResponseText 3 document = Normal (Some (lit "x")).
Proof. vm_compute. repeat split. Qed.

(** X1: A string without a brace pair is never an answer: whenever the
    stack has room for the call, the extractor returns [null] on it. *)
Theorem findResponseText_no_brace_pair :
  forall (stack : nat) (str : jsstring),
    includes (trim str) (lit "{") && includes (trim str) (lit "}") = false ->
    findResponseText (S stack) (JString str) = Normal None.
Proof.
  intros stack str H. rewrite findResponseText_equation. unfold findResponseText_body.
  destruct (negb (truthy (JString str))); [reflexivity|].
  change (directField (JString str)) with (@None jsstring). cbv iota.
  unfold searchString. rewrite H. reflexivity.
Qed.

Lemma findResponseText_no_brace_pair_witness :
  findResponseText 1 (JString (lit "it is {sunny today")) = Normal None.
Proof. apply findResponseText_no_brace_pair. vm_compute. reflexivity. Defined.

Section SendOutcomes.

Variable coerce : json -> jsstring + jsstring.
Variable fetch : Request -> Completion Response.t.
Variable stack : nat.

(** X2: When the network yields no response, an abort (the 90 second deadline)
    resolves to the timeout message and a [TypeError] to the
    connection-lost message. *)
Theorem sendMessageToOrion_no_response :
  forall (text : jsstring) (history : list Message.t) (err : JsError),
    received fetch text history = Throw err ->
    (name err = lit "AbortError" ->
     sendMessageToOrion coerce fetch stack text history = Normal timeoutMessage)
    /\ (name err = lit "TypeError" ->
        sendMessageToOrion coerce fetch stack text history = Normal networkMessage).
Proof.
  intros text history err H. unfold received in H.
  unfold sendMessageToOrion. rewrite H. unfold onError.
  split; intros ->; reflexivity.
Qed.

End SendOutcomes.

Lemma sendMessageToOrion_no_response_witness :
  sendMessageToOrion Sample.coerce
    (fun _ => Throw {| name := lit "TypeError"; message := lit "Failed to fetch" |})
    8 (lit "weather?") []
  = Normal networkMessage.
Proof.
  apply (proj2 (sendMessageToOrion_no_response Sample.coerce
                  (fun _ => Throw {| name := lit "TypeError";
                                     message := lit "Failed to fetch" |})
                  8 (lit "weather?") []
                  {| name := lit "TypeError"; message := lit "Failed to fetch" |}
                  eq_refl)).
  reflexivity.
Defined.

(* ===================================================================== *)
(** ** The extractor: order of search, provenance, embedded documents      *)
(* ===================================================================== *)

(** The outcome of the loop is the outcome of the first search that does
    not return [null]. *)
Lemma firstFound_first {A : Type} (search : A -> Completion (option jsstring))
  (before after : list A) (x : A) :
  (forall y, In y before -> search y = Normal None) ->
  (forall found, search x = Normal found -> truthyResult found = true) ->
  firstFound search (before ++ x :: after) = search x.
Proof.
  intros Hb Hx. induction before as [|y before IH]; simpl.
  - destruct (search x) as [found|e]; [|reflexivity].
    now rewrite (Hx found eq_refl).
  - rewrite (Hb y (or_introl eq_refl)). simpl. apply IH.
    intros z Hz. apply Hb. now right.
Qed.

Lemma findResponseText_truthy (stack : nat) (data : json) (found : option jsstring) :
  findResponseText stack data <> Normal None ->
  findResponseText stack data = Normal found -> truthyResult found = true.
Proof.
  intros Hne H. destruct (findResponseText_result _ _ _ H) as [->|(c & s & ->)];
    [contradiction|reflexivity].
Qed.

(** X3: The order of the search.  For an array the outcome of the extractor
    is the outcome on the first element on which it does not return [null],
    be that an answer or the overflow of the stack; when it returns [null]
    on every element, the outcome is [null].  The same holds for the member
    values of an object none of whose recognised fields holds a non-empty
    string, in enumeration order. *)
Theorem findResponseText_first_answer :
  forall stack : nat,
    (forall (before after : list json) (x : json),
        (forall y, In y before -> findResponseText stack y = Normal None) ->
        findResponseText stack x <> Normal None ->
        findResponseText (S stack) (JArray (before ++ x :: after))
        = findResponseText stack x)
    /\ (forall items : list json,
          (forall y, In y items -> findResponseText stack y = Normal None) ->
          findResponseText (S stack) (JArray items) = Normal None)
    /\ (forall (before after : list (jsstring * json)) (k : jsstring) (x : json),
          directField (JObject (before ++ (k, x) :: after)) = None ->
          (forall member, In member before ->
                          findResponseText stack (snd member) = Normal None) ->
          findResponseText stack x <> Normal None ->
          findResponseText (S stack) (JObject (before ++ (k, x) :: after))
          = findResponseText stack x)
    /\ (forall members : list (jsstring * json),
          directField (JObject members) = None ->
          (forall member, In member members ->
                          findResponseText stack (snd member) = Normal None) ->
          findResponseText (S stack) (JObject members) = Normal None).
Proof.
  intros stack. split; [|split; [|split]].
  - intros before after x Hb Hx.
    rewrite findResponseText_equation. unfold findResponseText_body. simpl.
    apply (firstFound_first (findResponseText stack)); [exact Hb|].
    intros found. now apply findResponseText_truthy.
  - intros items Hn.
    rewrite findResponseText_equation. unfold findResponseText_body. simpl.
    now apply firstFound_None.
  - intros before after k x D Hb Hx.
    rewrite findResponseText_equation. unfold findResponseText_body.
    rewrite D. simpl negb. cbv iota.
    apply (firstFound_first (fun member : jsstring * json =>
                               findResponseText stack (snd member)) before after (k, x));
      [exact Hb|].
    intros found. now apply findResponseText_truthy.
  - intros members D Hn.
    rewrite findResponseText_equation. unfold findResponseText_body.
    rewrite D. simpl negb. cbv iota.
    now apply firstFound_None.
Qed.

(** X4: Whatever the extractor returns is the exact, non-empty string held
    by a recognised field somewhere in the value. *)
Theorem findResponseText_answer :
  forall (stack : nat) (data : json) (s : jsstring),
    findResponseText stack data = Normal (Some s) -> Answer data s /\ s <> [].
Proof.
  intros stack data s H. split.
  - revert data s H. induction stack as [|stack IH]; intros data s H; [discriminate|].
    rewrite findResponseText_equation in H. unfold findResponseText_body in H.
    destruct (negb (truthy data)); [discriminate|].
    destruct (directField data) as [s'|] eqn:D.
    { injection H as ->. apply directField_Some in D as (_ & members & k & -> & Hk & Hh).
      eapply answer_here; eassumption. }
    destruct data; try discriminate.
    + injection H as H. apply searchString_Some in H as (_ & document & v & Hd & Hp & Hv).
      eapply answer_embedded; eauto.
    + apply firstFound_Some in H as (_ & x & Hx & Hv).
      eapply answer_element; eauto.
    + apply firstFound_Some in H as (_ & [k v] & Hx & Hv).
      eapply answer_member; eauto.
  - destruct (findResponseText_result _ _ _ H) as [N|(c & t & N)]; [discriminate|].
    injection N as ->. discriminate.
Qed.

Lemma directField_holds members k s :
  In k recognizedFields -> holdsText members k s ->
  exists s', directField (JObject members) = Some s'.
Proof.
  intros Hk Hh. apply truthyString_holds in Hh.
  unfold directField. simpl.
  destruct (truthyString (get (lit "text_response") members)) eqn:E1; [eauto|].
  destruct (truthyString (get (lit "output") members)) eqn:E2; [eauto|].
  destruct (truthyString (get (lit "response") members)) eqn:E3; [eauto|].
  destruct (truthyString (get (lit "message") members)) eqn:E4; [eauto|].
  destruct (truthyString (get (lit "content") members)) eqn:E5; [eauto|].
  unfold recognizedFields in Hk. simpl in Hk.
  destruct Hk as [<-|[<-|[<-|[<-|[<-|[]]]]]]; congruence.
Qed.

(** A loop in which every search returns, and one of them an answer, ends
    with an answer. *)
Lemma firstFound_finds {A : Type} (search : A -> Completion (option jsstring)) (l : list A) :
  (forall x, In x l -> exists r, search x = Normal r) ->
  (exists x s, In x l /\ search x = Normal (Some s) /\ s <> []) ->
  exists s, firstFound search l = Normal (Some s).
Proof.
  induction l as [|x l IH]; simpl; intros Hr (y & s & Hy & Hs & Hne); [contradiction|].
  destruct (Hr x (or_introl eq_refl)) as [r E]. rewrite E.
  destruct (truthyResult r) eqn:T.
  - apply truthyResult_true in T as (c & t & ->). eauto.
  - apply IH; [intros z Hz; apply Hr; now right|].
    destruct Hy as [->|Hy]; [|eauto 6].
    rewrite Hs in E. injection E as <-. destruct s; [contradiction|discriminate].
Qed.

(** X5: When a recognised field holding a non-empty string can be reached
    through object members and array elements, and the stack has room for
    the nesting of the value, the extractor returns a non-empty string. *)
Theorem findResponseText_finds_carried :
  forall (data : json) (stack : nat),
    Carries data -> nesting data <= stack ->
    exists c s, findResponseText stack data = Normal (Some (c :: s)).
Proof.
  assert (N : forall stack data s, findResponseText stack data = Normal (Some s) ->
                exists c t, findResponseText stack data = Normal (Some (c :: t))).
  { intros stack data s H.
    destruct (findResponseText_result _ _ _ H) as [E|(c & t & E)]; [discriminate|].
    rewrite H, E. eauto. }
  intros data stack H. revert stack.
  induction H as [members k s Hk Hh|members k v Hin Hv IH|items v Hin Hv IH];
    intros stack Hn.
  - destruct stack as [|stack]; [simpl in Hn; lia|].
    destruct (directField_holds _ _ _ Hk Hh) as [s' D].
    apply (N _ _ s'). rewrite findResponseText_equation. unfold findResponseText_body.
    simpl negb. cbv iota. now rewrite D.
  - destruct stack as [|stack]; [simpl in Hn; lia|].
    destruct (directField (JObject members)) as [s'|] eqn:D.
    { apply (N _ _ s'). rewrite findResponseText_equation. unfold findResponseText_body.
      simpl negb. cbv iota. now rewrite D. }
    assert (F : exists s', firstFound (fun member : jsstring * json =>
                                         findResponseText stack (snd member)) members
                           = Normal (Some s')).
    { apply firstFound_finds.
      - intros x Hx. apply findResponseText_within.
        apply nesting_member in Hx. lia.
      - destruct (IH stack) as (c & t & E).
        { apply nesting_member in Hin. simpl snd in Hin. lia. }
        exists (k, v), (c :: t). split; [exact Hin|]. split; [exact E|discriminate]. }
    destruct F as [s' F]. apply (N _ _ s').
    rewrite findResponseText_equation. unfold findResponseText_body.
    simpl negb. cbv iota. rewrite D. exact F.
  - destruct stack as [|stack]; [simpl in Hn; lia|].
    assert (F : exists s', firstFound (findResponseText stack) items = Normal (Some s')).
    { apply firstFound_finds.
      - intros x Hx. apply findResponseText_within.
        apply nesting_item in Hx. lia.
      - destruct (IH stack) as (c & t & E).
        { apply nesting_item in Hin. lia. }
        exists v, (c :: t). split; [exact Hin|]. split; [exact E|discriminate]. }
    destruct F as [s' F]. apply (N _ _ s').
    rewrite findResponseText_equation. unfold findResponseText_body. simpl. exact F.
Qed.

(** *** Strings that carry a JSON document *)

Lemma trimStart_app (p : jsstring) (c : char16) (r : jsstring) :
  isWhiteSpace c = false -> trimStart (p ++ c :: r) = trimStart p ++ c :: r.
Proof.
  intros Hc. induction p as [|x p IH]; simpl.
  - now rewrite Hc.
  - destruct (isWhiteSpace x); [exact IH|reflexivity].
Qed.

Lemma trimEnd_app (a : jsstring) (c : char16) (q : jsstring) :
  isWhiteSpace c = false -> trimEnd (a ++ c :: q) = a ++ c :: trimEnd q.
Proof.
  intros Hc. unfold trimEnd.
  rewrite rev_app_distr. simpl. rewrite <- app_assoc. simpl.
  rewrite (trimStart_app _ _ _ Hc), rev_app_distr. simpl.
  rewrite rev_involutive, <- app_assoc. reflexivity.
Qed.

Lemma trimStart_head (s : jsstring) :
  trimStart s = [] \/ exists c r, trimStart s = c :: r /\ isWhiteSpace c = false.
Proof.
  induction s as [|x s IH]; simpl; [now left|].
  destruct (isWhiteSpace x) eqn:E; [exact IH|]. right. eauto.
Qed.

Lemma trimStart_fixed (c : char16) (r : jsstring) :
  isWhiteSpace c = false -> trimStart (c :: r) = c :: r.
Proof. intros H. simpl. now rewrite H. Qed.

Lemma trimEnd_nil : trimEnd [] = [].
Proof. reflexivity. Qed.

Lemma trimEnd_idempotent (s : jsstring) : trimEnd (trimEnd s) = trimEnd s.
Proof.
  unfold trimEnd. rewrite rev_involutive.
  destruct (trimStart_head (rev s)) as [->|(c & r & -> & Hc)]; [reflexivity|].
  now rewrite trimStart_fixed.
Qed.

(** Trimming a trimmed string changes nothing. *)
Lemma trim_idempotent (s : jsstring) : trim (trim s) = trim s.
Proof.
  unfold trim.
  destruct (trimStart_head s) as [->|(c & r & -> & Hc)]; [reflexivity|].
  pose proof (trimEnd_app [] c r Hc) as E0. simpl app in E0. rewrite E0.
  rewrite (trimStart_fixed c _ Hc).
  pose proof (trimEnd_app [] c (trimEnd r) Hc) as E. simpl app in E.
  rewrite E, trimEnd_idempotent. reflexivity.
Qed.

(** X6: Whitespace around a string does not change what the extractor
    does with it. *)
Theorem findResponseText_trimmed :
  forall (stack : nat) (str : jsstring),
    findResponseText stack (JString (trim str)) = findResponseText stack (JString str).
Proof.
  intros stack str. destruct stack as [|stack]; [reflexivity|].
  rewrite !findResponseText_equation. unfold findResponseText_body.
  change (directField (JString str)) with (@None jsstring).
  change (directField (JString (trim str))) with (@None jsstring).
  cbv iota. unfold searchString. rewrite trim_idempotent.
  destruct (trim str) as [|c r] eqn:E.
  - destruct str; reflexivity.
  - destruct str as [|x str]; [discriminate|]. reflexivity.
Qed.

Lemma startsWith_nil (s : jsstring) : startsWith s [] = true.
Proof. destruct s; reflexivity. Qed.

Lemma includes_char (c : char16) (s : jsstring) : In c s -> includes s [c] = true.
Proof.
  induction s as [|x s IH]; [intros []|]. intros [->|H].
  - simpl. rewrite N.eqb_refl, startsWith_nil. reflexivity.
  - simpl. rewrite (IH H). apply orb_true_r.
Qed.

Lemma indexOf_from_char (c : char16) (p r : jsstring) (i : Z) :
  ~ In c p -> indexOf_from (p ++ c :: r) [c] i = (i + Z.of_nat (length p))%Z.
Proof.
  revert i. induction p as [|x p IH]; intros i Hp.
  - simpl. rewrite N.eqb_refl, startsWith_nil. simpl. lia.
  - cbn [app indexOf_from startsWith].
    destruct (N.eqb_spec c x) as [->|Hx]; [exfalso; apply Hp; now left|].
    simpl andb. cbv iota. rewrite IH by (intros H; apply Hp; now right).
    cbn [length]. lia.
Qed.

Lemma lastIndexOf_from_absent (c : char16) (q : jsstring) (i best : Z) :
  ~ In c q -> lastIndexOf_from q [c] i best = best.
Proof.
  revert i best. induction q as [|x q IH]; intros i best Hq; [reflexivity|].
  cbn [lastIndexOf_from startsWith].
  destruct (N.eqb_spec c x) as [->|Hx]; [exfalso; apply Hq; now left|].
  simpl andb. cbv iota. apply IH. intros H; apply Hq; now right.
Qed.

Lemma lastIndexOf_from_char (c : char16) (a q : jsstring) (i best : Z) :
  ~ In c q -> lastIndexOf_from (a ++ c :: q) [c] i best = (i + Z.of_nat (length a))%Z.
Proof.
  intros Hq. revert i best. induction a as [|x a IH]; intros i best.
  - cbn [app lastIndexOf_from startsWith]. rewrite N.eqb_refl, startsWith_nil.
    simpl andb. cbv iota.
    rewrite lastIndexOf_from_absent by assumption. simpl. lia.
  - cbn [app lastIndexOf_from]. rewrite IH. cbn [length]. lia.
Qed.

Lemma substring_middle (a doc q : jsstring) :
  substring (a ++ doc ++ q) (Z.of_nat (length a)) (Z.of_nat (length a + length doc)) = doc.
Proof.
  unfold substring. rewrite !length_app.
  replace (Z.to_nat _) with (length doc) by lia.
  replace (Z.to_nat _) with (length a) by lia.
  rewrite skipn_app, skipn_all, Nat.sub_diag. simpl.
  rewrite firstn_app, firstn_all, Nat.sub_diag. simpl. apply app_nil_r.
Qed.

Lemma In_trimStart (c : char16) (s : jsstring) : In c (trimStart s) -> In c s.
Proof.
  induction s as [|x s IH]; simpl; [auto|].
  destruct (isWhiteSpace x); [auto|]. simpl. auto.
Qed.

Lemma In_trimEnd (c : char16) (s : jsstring) : In c (trimEnd s) -> In c s.
Proof.
  unfold trimEnd. intros H. apply in_rev in H. apply In_trimStart in H.
  now apply in_rev.
Qed.

(** The trimmed form of a text around a braced document, and the document
    as the part from the first opening to the last closing brace. *)
Lemma trim_around (p body q : jsstring) :
  trim (p ++ lit "{" ++ body ++ lit "}" ++ q)
  = trimStart p ++ (lit "{" ++ body ++ lit "}") ++ trimEnd q.
Proof.
  unfold trim. change (lit "{") with [123%N]. change (lit "}") with [125%N].
  simpl app. rewrite trimStart_app by reflexivity.
  pose proof (trimEnd_app (trimStart p ++ 123%N :: body) 125%N q eq_refl) as E.
  repeat rewrite <- app_assoc in E. simpl app in E.
  repeat rewrite <- app_assoc. simpl app. exact E.
Qed.

Lemma potentialJson_around (a body q : jsstring) :
  ~ In 123%N a -> ~ In 125%N q ->
  let doc := lit "{" ++ body ++ lit "}" in
  indexOf (a ++ doc ++ q) (lit "{") = Z.of_nat (length a)
  /\ lastIndexOf (a ++ doc ++ q) (lit "}") = (Z.of_nat (length a + length doc) - 1)%Z
  /\ potentialJson (a ++ doc ++ q) = doc.
Proof.
  intros Ha Hq doc.
  assert (I : indexOf (a ++ doc ++ q) (lit "{") = Z.of_nat (length a)).
  { pose proof (indexOf_from_char 123%N a (body ++ lit "}" ++ q) 0 Ha) as E.
    unfold indexOf, doc.
    assert (EQ : a ++ (lit "{" ++ body ++ lit "}") ++ q = a ++ 123%N :: body ++ lit "}" ++ q).
    { repeat rewrite <- app_assoc. reflexivity. }
    rewrite EQ. etransitivity; [exact E|]. lia. }
  assert (L : lastIndexOf (a ++ doc ++ q) (lit "}")
              = (Z.of_nat (length a + length doc) - 1)%Z).
  { pose proof (lastIndexOf_from_char 125%N (a ++ 123%N :: body) q 0 (-1) Hq) as E.
    rewrite length_app in E. cbn [length] in E.
    unfold lastIndexOf, doc.
    assert (EQ : a ++ (lit "{" ++ body ++ lit "}") ++ q = (a ++ 123%N :: body) ++ 125%N :: q).
    { repeat rewrite <- app_assoc. reflexivity. }
    rewrite EQ. etransitivity; [exact E|].
    rewrite !length_app. change (length (lit "{")) with 1%nat.
    change (length (lit "}")) with 1%nat. lia. }
  repeat split; [exact I|exact L|].
  unfold potentialJson. rewrite I, L.
  replace (Z.of_nat (length a + length doc) - 1 + 1)%Z
    with (Z.of_nat (length a + length doc)) by lia.
  apply substring_middle.
Qed.

(** X7: A JSON object wrapped in other text (a Markdown fence, a prefix, a
    suffix): when the text as a whole is not JSON, the extractor returns on
    the text what the search of the object between the first opening and
    the last closing brace returns, one activation deeper; if that search
    overflows the stack, the error is caught and the text gives [null]. *)
Theorem findResponseText_wrapped_document :
  forall (stack : nat) (p body q : jsstring) (v : json),
    ~ In 123%N p -> ~ In 125%N q ->
    JSON_parse (lit "{" ++ body ++ lit "}") = Some v ->
    JSON_parse (trim (p ++ lit "{" ++ body ++ lit "}" ++ q)) = None ->
    findResponseText (S stack) (JString (p ++ lit "{" ++ body ++ lit "}" ++ q))
    = match findResponseText stack v with
      | Normal found => Normal found
      | Throw _ => Normal None
      end.
Proof.
  intros stack p body q v Hp Hq Hv Hfull.
  rewrite findResponseText_equation. unfold findResponseText_body.
  assert (Hs : negb (truthy (JString (p ++ lit "{" ++ body ++ lit "}" ++ q))) = false).
  { destruct p; reflexivity. }
  rewrite Hs. clear Hs.
  change (directField (JString (p ++ lit "{" ++ body ++ lit "}" ++ q)))
    with (@None jsstring).
  cbv iota. unfold searchString.
  rewrite Hfull. rewrite trim_around in *.
  set (a := trimStart p) in *. set (q' := trimEnd q) in *.
  assert (Ha : ~ In 123%N a) by (intros H; apply Hp; now apply In_trimStart).
  assert (Hq' : ~ In 125%N q') by (intros H; apply Hq; now apply In_trimEnd).
  destruct (potentialJson_around a body q' Ha Hq') as (I & L & P).
  set (doc := lit "{" ++ body ++ lit "}") in *.
  assert (B1 : includes (a ++ doc ++ q') (lit "{") = true).
  { apply (includes_char 123%N). apply in_or_app. right. now left. }
  assert (B2 : includes (a ++ doc ++ q') (lit "}") = true).
  { apply (includes_char 125%N). apply in_or_app. right. apply in_or_app. left.
    unfold doc. apply in_or_app. right. apply in_or_app. right. now left. }
  rewrite B1, B2, I, L, P, Hv. simpl andb. cbv iota.
  assert (Hd : (2 <= length doc)%nat).
  { unfold doc. rewrite !length_app. simpl. lia. }
  assert (C1 : negb (Z.of_nat (length a) =? -1)%Z
               && (Z.of_nat (length a) <? Z.of_nat (length a + length doc) - 1)%Z = true).
  { apply andb_true_iff. split; [apply negb_true_iff, Z.eqb_neq; lia|apply Z.ltb_lt; lia]. }
  match goal with
  | |- Normal (if ?b then _ else _) = _ => replace b with true by (symmetry; exact C1)
  end.
  assert (C2 : str_eqb doc (a ++ doc ++ q') = false).
  { apply str_eqb_neq. intros E. rewrite <- E in Hfull. congruence. }
  rewrite C2. simpl negb. cbv iota.
  destruct (findResponseText stack v) as [found|e] eqn:E; [|reflexivity].
  destruct (findResponseText_result _ _ _ E) as [->|(c & s & ->)]; reflexivity.
Qed.

(** X8: A string whose trimmed text is a JSON document: when the search of
    the document, one activation deeper, returns an answer, the extractor
    returns that answer on the string. *)
Theorem findResponseText_stringified_document :
  forall (stack : nat) (str : jsstring) (v : json) (s : jsstring),
    includes (trim str) (lit "{") && includes (trim str) (lit "}") = true ->
    JSON_parse (trim str) = Some v ->
    findResponseText stack v = Normal (Some s) ->
    findResponseText (S stack) (JString str) = Normal (Some s).
Proof.
  intros stack str v s Hb Hv Hs.
  rewrite findResponseText_equation. unfold findResponseText_body.
  assert (Ht : negb (truthy (JString str)) = false).
  { destruct str; [discriminate|reflexivity]. }
  rewrite Ht.
  change (directField (JString str)) with (@None jsstring).
  cbv iota. unfold searchString.
  rewrite Hb, Hv, Hs.
  destruct (findResponseText_result _ _ _ Hs) as [E|(c & t & E)]; [discriminate|].
  injection E as ->. reflexivity.
Qed.

(* ===================================================================== *)
(** ** The remote send operation: replies, rejections, the fallback        *)
(* ===================================================================== *)

Lemma onError_Normal (error : JsError) (reply : jsstring) :
  onError error = Normal reply -> reply <> [].
Proof.
  unfold onError.
  destruct (str_eqb (name error) (lit "AbortError")).
  { intros H; injection H as <-. discriminate. }
  destruct (str_eqb (name error) (lit "TypeError")).
  { intros H; injection H as <-. discriminate. }
  destruct (includes (message error) (lit "404")) eqn:I; [|discriminate].
  intros H; injection H as <-. destruct (message error); [discriminate|discriminate].
Qed.

Lemma onError_Throw (error e : JsError) :
  onError error = Throw e ->
  e = error /\ name e <> lit "AbortError" /\ name e <> lit "TypeError"
  /\ includes (message e) (lit "404") = false.
Proof.
  unfold onError.
  destruct (str_eqb (name error) (lit "AbortError")) eqn:A; [discriminate|].
  destruct (str_eqb (name error) (lit "TypeError")) eqn:T; [discriminate|].
  destruct (includes (message error) (lit "404")) eqn:I; [discriminate|].
  intros H; injection H as <-.
  apply str_eqb_neq in A, T. auto.
Qed.

Section SendOutcomeFacts.

Variable coerce : json -> jsstring + jsstring.
Variable fetch : Request -> Completion Response.t.
Variable stack : nat.

Lemma decodeResponse_Normal (response : Response.t) (reply : jsstring) :
  decodeResponse coerce stack response = Normal reply -> reply <> [].
Proof.
  unfold decodeResponse.
  destruct (negb (Response.ok response)).
  { destruct (Response.status response =? 404)%Z; [discriminate|].
    destruct (prop _ _) as [value|]; [|discriminate].
    destruct (truthy value); [|discriminate].
    destruct (ErrorOf coerce value); discriminate. }
  destruct (truthy _) eqn:T.
  - destruct (findResponseText stack _) as [found|e]; [|discriminate].
    destruct (truthyResult found) eqn:R.
    + apply truthyResult_true in R as (c & s & ->).
      intros H; injection H as <-. discriminate.
    + rewrite andb_false_r. intros H; injection H as <-. discriminate.
  - destruct (Response.text response) as [|c body].
    + simpl. intros H; injection H as <-. discriminate.
    + destruct (_ && _); intros H; injection H as <-; discriminate.
Qed.

Lemma sendMessageToOrion_Normal (text : jsstring) (history : list Message.t)
  (reply : jsstring) :
  sendMessageToOrion coerce fetch stack text history = Normal reply -> reply <> [].
Proof.
  unfold sendMessageToOrion.
  destruct (fetchWithFallback fetch (basePayload text history)) as [response|err].
  - destruct (decodeResponse coerce stack response) as [r|e] eqn:D.
    + intros H; injection H as <-. exact (decodeResponse_Normal _ _ D).
    + apply onError_Normal.
  - apply onError_Normal.
Qed.

(** X9: Whenever [sendMessageToOrion] resolves, it resolves to a non-empty
    string. *)
Theorem sendMessageToOrion_reply_nonempty :
  forall (text : jsstring) (history : list Message.t) (reply : jsstring),
    sendMessageToOrion coerce fetch stack text history = Normal reply -> reply <> [].
Proof. exact sendMessageToOrion_Normal. Qed.

(** X10: [sendMessageToOrion] never rejects with an [AbortError] or a
    [TypeError], nor with an error whose message mentions 404: those are
    turned into replies. *)
Theorem sendMessageToOrion_rejection :
  forall (text : jsstring) (history : list Message.t) (e : JsError),
    sendMessageToOrion coerce fetch stack text history = Throw e ->
    name e <> lit "AbortError" /\ name e <> lit "TypeError"
    /\ includes (message e) (lit "404") = false.
Proof.
  intros text history e. unfold sendMessageToOrion.
  destruct (fetchWithFallback fetch (basePayload text history)) as [response|err].
  - destruct (decodeResponse coerce stack response) as [r|e'] eqn:D; [discriminate|].
    intros H. apply onError_Throw in H. tauto.
  - intros H. apply onError_Throw in H. tauto.
Qed.

Lemma unstableMessage_no_404 (status : Z) :
  (100 <= status <= 599)%Z -> status <> 404%Z ->
  includes (unstableMessage status) (lit "404") = false.
Proof.
  intros Hr Hs.
  assert (A : forallb (fun s => (s =? 404)%Z
                                || negb (includes (unstableMessage s) (lit "404")))
                      statusCodes = true) by (vm_compute; reflexivity).
  rewrite forallb_forall in A.
  assert (I : In status statusCodes).
  { unfold statusCodes. rewrite <- (Z2Nat.id status) by lia.
    apply in_map, in_seq. lia. }
  apply A in I. apply orb_true_iff in I as [I|I].
  - apply Z.eqb_eq in I. contradiction.
  - now apply negb_true_iff in I.
Qed.

(** X11: A response with a failure status other than 404.  When the body is
    a JSON object whose [message] is a non-empty string, the function rejects
    with that message, unless the message mentions 404: then it resolves to
    the message.  When the body has no truthy [message], it rejects with the
    connection-unstable message that carries the status. *)
Theorem sendMessageToOrion_service_error :
  forall (text : jsstring) (history : list Message.t) (response : Response.t),
    received fetch text history = Normal response ->
    Response.ok response = false ->
    Response.status response <> 404%Z ->
    let result := sendMessageToOrion coerce fetch stack text history in
    (forall (members : list (jsstring * json)) (m : jsstring),
        JSON_parse (Response.text response) = Some (JObject members) ->
        holdsText members (lit "message") m ->
        result = if includes m (lit "404") then Normal m else Throw (Error m))
    /\ ((forall v, prop (jsonResultOf (Response.text response)) (lit "message") = Some v ->
                   truthy v = false) ->
        (100 <= Response.status response <= 599)%Z ->
        result = Throw (Error (unstableMessage (Response.status response)))).
Proof.
  intros text history response Hr Hok Hs result. subst result.
  rewrite (sendMessageToOrion_received coerce fetch stack _ _ _ Hr).
  unfold decodeResponse. rewrite Hok. simpl negb. cbv iota.
  apply Z.eqb_neq in Hs. rewrite Hs. split.
  - intros members m Hp [Hg Hm]. rewrite Hp. simpl prop. rewrite Hg.
    destruct m as [|c m]; [contradiction|]. simpl truthy. cbv iota.
    simpl ErrorOf. cbv iota. unfold onError. simpl name. simpl message.
    change (str_eqb (lit "Error") (lit "AbortError")) with false.
    change (str_eqb (lit "Error") (lit "TypeError")) with false.
    cbv iota. reflexivity.
  - intros Hv Hrange. fold (jsonResultOf (Response.text response)).
    assert (E : onError (Error (unstableMessage (Response.status response)))
                = Throw (Error (unstableMessage (Response.status response)))).
    { unfold onError. simpl name. simpl message.
      change (str_eqb (lit "Error") (lit "AbortError")) with false.
      change (str_eqb (lit "Error") (lit "TypeError")) with false.
      cbv iota. rewrite unstableMessage_no_404; [reflexivity|assumption|].
      now apply Z.eqb_neq. }
    destruct (prop (jsonResultOf (Response.text response)) (lit "message")) as [v|];
      [|exact E].
    rewrite (Hv v eq_refl). exact E.
Qed.

(** X12: The fallback.  When the first call fails with the [TypeError]
    "Failed to fetch", the response of the second call is the one read, and
    a failure of the second call resolves to the connection-lost message.
    In every other case the outcome depends on the network through the first
    call alone: no second call is made. *)
Theorem sendMessageToOrion_retry_policy :
  forall (text : jsstring) (history : list Message.t),
    let base := basePayload text history in
    (forall err : JsError,
        fetch (primaryRequest base) = Throw err ->
        name err = lit "TypeError" -> message err = lit "Failed to fetch" ->
        match fetch (fallbackRequest base) with
        | Normal response => received fetch text history = Normal response
        | Throw _ => sendMessageToOrion coerce fetch stack text history = Normal networkMessage
        end)
    /\ (forall fetch' : Request -> Completion Response.t,
        fetch' (primaryRequest base) = fetch (primaryRequest base) ->
        (forall err, fetch (primaryRequest base) = Throw err ->
                     name err <> lit "TypeError" \/ message err <> lit "Failed to fetch") ->
        sendMessageToOrion coerce fetch' stack text history
        = sendMessageToOrion coerce fetch stack text history).
Proof.
  intros text history base. split.
  - intros err H1 Hn Hm.
    unfold received, sendMessageToOrion, fetchWithFallback.
    fold base. fold (primaryRequest base). fold (fallbackRequest base).
    rewrite H1, Hn, Hm, !str_eqb_refl. simpl andb. cbv iota.
    destruct (fetch (fallbackRequest base)) as [response|e]; [reflexivity|].
    unfold onError. rewrite Hn. reflexivity.
  - intros fetch' Hsame Hother.
    unfold sendMessageToOrion, fetchWithFallback.
    fold base. fold (primaryRequest base). rewrite Hsame.
    destruct (fetch (primaryRequest base)) as [response|err]; [reflexivity|].
    destruct (Hother err eq_refl) as [H|H]; apply str_eqb_neq in H; rewrite H;
      rewrite ?andb_false_r; reflexivity.
Qed.

End SendOutcomeFacts.

(* ===================================================================== *)
(** ** The session store: frame conditions and the selection               *)
(* ===================================================================== *)

Lemma updateEach_ids current newMessages now k (prev : list ChatSession.t) :
  map ChatSession.id (updateEach current newMessages now k prev) = map ChatSession.id prev.
Proof.
  revert k; induction prev as [|x prev IH]; intros k; simpl; [reflexivity|].
  destruct (str_eqb (ChatSession.id x) current); simpl; now rewrite IH.
Qed.

Lemma updateEach_absent current newMessages now k (prev : list ChatSession.t) :
  ~ In current (map ChatSession.id prev) ->
  updateEach current newMessages now k prev = prev.
Proof.
  revert k; induction prev as [|x prev IH]; intros k H; simpl; [reflexivity|].
  destruct (str_eqb (ChatSession.id x) current) eqn:E.
  - apply str_eqb_eq in E. exfalso. apply H. now left.
  - rewrite IH; [reflexivity|]. intros I. apply H. now right.
Qed.

(** What [updateCurrentMessages] leaves as it is. *)
Lemma updateCurrentMessages_unchanged :
  forall (render pending : AppState) (newMessages : list Message.t) (now : Clock),
    let after := updateCurrentMessages render newMessages now pending in
    map ChatSession.id (sessions after) = map ChatSession.id (sessions pending)
    /\ currentSessionId after = currentSessionId pending
    /\ language after = language pending
    /\ isInitialized after = isInitialized pending
    /\ ((forall current, currentSessionId render = Some current ->
                         ~ In current (map ChatSession.id (sessions pending))) ->
        after = pending).
Proof.
  intros render pending newMessages now after. subst after.
  unfold updateCurrentMessages.
  destruct (currentSessionId render) as [[|c current]|]; try (repeat split; reflexivity).
  simpl. rewrite updateEach_ids. repeat split.
  intros H. unfold setSessions. rewrite updateEach_absent by (apply H; reflexivity).
  destruct pending; reflexivity.
Qed.

(** X13: [updateCurrentMessages] never adds, removes, reorders or renames a
    session and never changes the selection, the language or the
    initialised flag; when no session has the current id of the render it
    was made in (the session was deleted meanwhile) it changes nothing. *)
Theorem updateCurrentMessages_frame :
  forall (render pending : AppState) (newMessages : list Message.t) (now : Clock),
    let after := updateCurrentMessages render newMessages now pending in
    map ChatSession.id (sessions after) = map ChatSession.id (sessions pending)
    /\ currentSessionId after = currentSessionId pending
    /\ language after = language pending
    /\ isInitialized after = isInitialized pending
    /\ ((forall current, currentSessionId render = Some current ->
                         ~ In current (map ChatSession.id (sessions pending))) ->
        after = pending).
Proof. exact updateCurrentMessages_unchanged. Qed.

Lemma find_id_In (current : jsstring) (l : list ChatSession.t) :
  In current (map ChatSession.id l) ->
  exists s, find (fun s => str_eqb (ChatSession.id s) current) l = Some s.
Proof.
  induction l as [|x l IH]; simpl; [intros []|].
  destruct (str_eqb (ChatSession.id x) current) eqn:E; [eauto|].
  intros [H|H]; [|auto]. apply str_eqb_neq in E. contradiction.
Qed.

Lemma initialize_selected (storage : LocalStorage) (now : Clock) (st : AppState) :
  initialize storage now = Some st ->
  isInitialized st = true /\
  exists current, currentSessionId st = Some current
                  /\ In current (map ChatSession.id (sessions st)).
Proof.
  intros H. unfold initialize in H.
  destruct (loadSessions storage) as [[|first loaded]|]; try discriminate.
  - injection H as <-. split; [reflexivity|]. eexists. split; [reflexivity|now left].
  - injection H as <-.
    destruct (getItem storage orion_current_session_id) as [[|c saved]|].
    + split; [reflexivity|]. eexists. split; [reflexivity|now left].
    + match goal with |- context [if ?b then _ else _] => destruct b eqn:E end.
      * split; [reflexivity|]. eexists. split; [reflexivity|].
        change (existsb (fun s => str_eqb (ChatSession.id s) (c :: saved)) (first :: loaded)
                = true) in E.
        apply existsb_exists in E as (s & Hs & E). apply str_eqb_eq in E.
        simpl sessions. rewrite <- E. now apply in_map.
      * split; [reflexivity|]. eexists. split; [reflexivity|now left].
    + split; [reflexivity|]. eexists. split; [reflexivity|now left].
Qed.

Lemma displayed_selected (st : AppState) :
  displayed st ->
  isInitialized st = true /\
  exists current, currentSessionId st = Some current
                  /\ In current (map ChatSession.id (sessions st)).
Proof.
  induction 1 as [storage now st Hinit
                 |st ev now Hst (Hi & current & Hc & Hin) Hoff
                 |render st newMessages now _ _ Hst (Hi & current & Hc & Hin)].
  - exact (initialize_selected _ _ _ Hinit).
  - destruct ev as [|id|id|newMessages|]; simpl in *.
    + split; [assumption|]. eexists. split; [reflexivity|now left].
    + split; [assumption|]. eauto.
    + unfold deleteSession.
      destruct (filter (fun s => negb (str_eqb (ChatSession.id s) id)) (sessions st))
        as [|first l] eqn:E; simpl.
      { split; [assumption|]. eexists. split; [reflexivity|now left]. }
      rewrite Hc. destruct (str_eqb current id) eqn:Q; simpl.
      * split; [assumption|]. eexists. split; [reflexivity|now left].
      * split; [assumption|]. exists current. split; [assumption|].
        apply str_eqb_neq in Q.
        apply in_map_iff in Hin as (s & Hs & Hin).
        change (In current (map ChatSession.id (first :: l))). rewrite <- E.
        apply in_map_iff. exists s. split; [assumption|].
        apply filter_other_id. split; [assumption|congruence].
    + destruct (updateCurrentMessages_unchanged st st newMessages now) as (Hids & Hcur & _ & Hinit & _).
      rewrite Hids, Hcur, Hinit. eauto.
    + split; [assumption|]. eauto.
  - destruct (updateCurrentMessages_unchanged render st newMessages now)
      as (Hids & Hcur & _ & Hinit & _).
    rewrite Hids, Hcur, Hinit. eauto.
Qed.

(** X14: In every state the store reaches through the events its views
    offer, the store is initialised and the current id is the id of one of
    its sessions: there is always a current session. *)
Theorem displayed_current_session :
  forall st : AppState,
    displayed st ->
    isInitialized st = true /\
    exists s : ChatSession.t,
      getCurrentSession st = Some s /\ In s (sessions st)
      /\ currentSessionId st = Some (ChatSession.id s).
Proof.
  intros st H. destruct (displayed_selected st H) as (Hi & current & Hc & Hin).
  split; [assumption|].
  destruct (find_id_In _ _ Hin) as [s Hs].
  exists s. unfold getCurrentSession. rewrite Hc. split; [assumption|].
  apply find_some in Hs as [Hs E]. apply str_eqb_eq in E. split; [assumption|congruence].
Qed.

(** X15: When local storage holds no non-empty array of sessions (nothing
    stored, an empty text, a text that is not JSON, a JSON value that is not
    an array, an empty array), initialisation builds a store of one fresh
    session with the Chinese placeholder title and selects it, whatever
    current id was stored. *)
Theorem initialize_without_sessions :
  forall (storage : LocalStorage) (now : Clock),
    (forall text first items,
        getItem storage orion_sessions = Some text ->
        JSON_parse text <> Some (JArray (first :: items))) ->
    initialize storage now = Some (freshStore now).
Proof.
  intros storage now H. unfold initialize.
  assert (L : loadSessions storage = Some []).
  { unfold loadSessions.
    destruct (getItem storage orion_sessions) as [[|c text]|] eqn:G; try reflexivity.
    specialize (H (c :: text)).
    destruct (JSON_parse (c :: text)) as [[| | | |[|first items]|]|]; try reflexivity.
    exfalso. exact (H first items eq_refl eq_refl). }
  rewrite L. reflexivity.
Qed.

(** X16: Deleting the current session of a store with distinct ids while
    other sessions remain keeps the other sessions in their order and makes
    the first of them current. *)
Theorem deleteSession_current_session :
  forall (st : AppState) (now : Clock) (s first : ChatSession.t)
         (l1 l2 others : list ChatSession.t),
    NoDup (map ChatSession.id (sessions st)) ->
    sessions st = l1 ++ s :: l2 ->
    currentSessionId st = Some (ChatSession.id s) ->
    l1 ++ l2 = first :: others ->
    let after := deleteSession st now (ChatSession.id s) st in
    sessions after = l1 ++ l2
    /\ currentSessionId after = Some (ChatSession.id first)
    /\ getCurrentSession after = Some first.
Proof.
  intros st now s first l1 l2 others Hnd Hsplit Hc Hrest after. subst after.
  assert (Hin : In s (sessions st)).
  { rewrite Hsplit. apply in_or_app. right. now left. }
  destruct (filter_unique_id s (sessions st) Hnd Hin) as (k1 & k2 & Hsplit' & Hf).
  assert (Hk : k1 ++ k2 = l1 ++ l2).
  { rewrite <- Hf, Hsplit. rewrite filter_app. simpl. rewrite str_eqb_refl. simpl.
    rewrite <- filter_app.
    apply forallb_filter_id, forallb_forall. intros y Hy.
    apply negb_true_iff, str_eqb_neq. intros E.
    rewrite Hsplit, map_app in Hnd. simpl in Hnd.
    apply NoDup_remove in Hnd as [_ Hnot]. apply Hnot. rewrite <- map_app, <- E.
    now apply in_map. }
  unfold deleteSession. rewrite Hf, Hk, Hrest, Hc, str_eqb_refl. simpl.
  unfold getCurrentSession. simpl. rewrite str_eqb_refl. repeat split.
Qed.

(* ===================================================================== *)
(** ** The chat view                                                       *)
(* ===================================================================== *)

Lemma updateEach_find current newMessages now (prev : list ChatSession.t) :
  forall k s,
    find (fun s => str_eqb (ChatSession.id s) current) prev = Some s ->
    exists s',
      find (fun s => str_eqb (ChatSession.id s) current)
           (updateEach current newMessages now k prev) = Some s'
      /\ ChatSession.messages s' = newMessages.
Proof.
  induction prev as [|x prev IH]; intros k s H; simpl in H; [discriminate|].
  simpl. destruct (str_eqb (ChatSession.id x) current) eqn:E.
  - simpl. rewrite E. eexists. split; reflexivity.
  - simpl. rewrite E. eauto.
Qed.

(** The current messages after an update made in the render of the same
    selection. *)
Lemma getCurrentMessages_updated (render pending : AppState) (newMessages : list Message.t)
  (now : Clock) (current : jsstring) (s : ChatSession.t) :
  currentSessionId render = Some current -> current <> [] ->
  currentSessionId pending = Some current ->
  getCurrentSession pending = Some s ->
  getCurrentMessages (updateCurrentMessages render newMessages now pending) = newMessages.
Proof.
  intros Hr Hne Hp Hs. unfold getCurrentMessages, getCurrentSession in *.
  unfold updateCurrentMessages. rewrite Hr.
  destruct current as [|c current]; [contradiction|].
  simpl. rewrite Hp in *.
  destruct (updateEach_find (c :: current) newMessages now (sessions pending) 0 s Hs)
    as (s' & -> & Hm).
  exact Hm.
Qed.

Lemma getCurrentSession_updated (render pending : AppState) (newMessages : list Message.t)
  (now : Clock) (current : jsstring) (s : ChatSession.t) :
  currentSessionId render = Some current -> current <> [] ->
  currentSessionId pending = Some current ->
  getCurrentSession pending = Some s ->
  exists s', getCurrentSession (updateCurrentMessages render newMessages now pending) = Some s'.
Proof.
  intros Hr Hne Hp Hs. unfold getCurrentSession in *.
  unfold updateCurrentMessages. rewrite Hr.
  destruct current as [|c current]; [contradiction|].
  simpl. rewrite Hp in *.
  destruct (updateEach_find (c :: current) newMessages now (sessions pending) 0 s Hs)
    as (s' & -> & Hm).
  eauto.
Qed.

Lemma displayError_nonempty (language : Language) (err : JsError) :
  displayError language err <> [].
Proof.
  unfold displayError.
  destruct (_ && _); [destruct language; discriminate|].
  destruct (message err) as [|c m]; simpl; [destruct language; discriminate|discriminate].
Qed.

Section ChatFacts.

Variable coerce : json -> jsstring + jsstring.
Variable fetch : Request -> Completion Response.t.
Variable stack : nat.

(** X17: A send from a view whose current session exists, when the text is
    not blank and no other send is in flight.  If the service resolves, the
    current session's log is afterwards the old log, the user's message with
    the text as typed, and the assistant's message with the reply, which is
    not empty; if it rejects, the log ends with the user's message and the
    view shows a non-empty error.  Either way the view is no longer loading. *)
Theorem handleSend_appends :
  forall (render : AppState) (chat : ChatState) (manualInput : option jsstring)
         (now after : Clock) (s : ChatSession.t),
    getCurrentSession render = Some s ->
    ChatSession.id s <> [] ->
    trim (textToUse manualInput chat) <> [] ->
    isLoading chat = false ->
    let text := textToUse manualInput chat in
    let sent := ChatSession.messages s ++ [userMsg text now] in
    let result := handleSend coerce fetch stack render chat manualInput now after in
    isLoading (snd result) = false
    /\ currentSessionId (fst result) = currentSessionId render
    /\ match sendMessageToOrion coerce fetch stack text sent with
       | Normal reply =>
         getCurrentMessages (fst result) = sent ++ [aiMsg reply after]
         /\ reply <> [] /\ error (snd result) = None
       | Throw err =>
         getCurrentMessages (fst result) = sent
         /\ exists shown, error (snd result) = Some shown /\ shown <> []
       end.
Proof.
  intros render chat manualInput now after s Hs Hid Htext Hload text sent result.
  assert (Hc : currentSessionId render = Some (ChatSession.id s)).
  { unfold getCurrentSession in Hs.
    destruct (currentSessionId render) as [current|]; [|discriminate].
    apply find_some in Hs as [_ E]. apply str_eqb_eq in E. now rewrite E. }
  assert (Hm : getCurrentMessages render = ChatSession.messages s).
  { unfold getCurrentMessages. now rewrite Hs. }
  assert (Hu : updatedMessages render chat manualInput now = Some sent).
  { unfold updatedMessages. apply str_eqb_neq in Htext.
    rewrite Htext, Hload, Hm. reflexivity. }
  subst result. unfold handleSend. rewrite Hu. fold text.
  unfold handleSend_sent. rewrite Hu.
  set (first := updateCurrentMessages render sent (later 2 now) render).
  destruct (updateCurrentMessages_unchanged render render sent (later 2 now))
    as (_ & Hcur & _).
  fold first in Hcur.
  destruct (getCurrentSession_updated render render sent (later 2 now) _ s Hc Hid Hc Hs)
    as [s1 Hs1].
  fold first in Hs1.
  split; [reflexivity|].
  destruct (sendMessageToOrion coerce fetch stack text sent) as [reply|err] eqn:O;
    unfold handleSend_settled; simpl fst; simpl snd.
  - split.
    { destruct (updateCurrentMessages_unchanged render first (sent ++ [aiMsg reply after])
                  (later 2 after)) as (_ & Hcur' & _).
      congruence. }
    split; [|split].
    + apply (getCurrentMessages_updated render first _ _ (ChatSession.id s) s1);
        try assumption. congruence.
    + exact (sendMessageToOrion_Normal coerce fetch stack _ _ _ O).
    + reflexivity.
  - split; [assumption|]. split.
    + apply (getCurrentMessages_updated render render _ _ (ChatSession.id s) s);
        assumption.
    + eexists. split; [reflexivity|apply displayError_nonempty].
Qed.

End ChatFacts.

(** X18: The reply of a send is written by the closure of the render the
    message was sent from.  Whatever the store has become while the reply
    was awaited, the order of the sessions and the selection stay as they
    are.  When the id that was current at the send is a non-empty string,
    each session that has it gets the sent log followed by the reply as its
    log, in place of the log it had, the sessions with other ids stay as
    they are, and when no session has that id any more the reply is
    dropped.  When there was no current id at the send, or it was the empty
    string, the reply is dropped whatever the sessions are. *)
Theorem handleSend_late_reply :
  forall (render pending : AppState) (updated : list Message.t) (reply : jsstring)
         (now : Clock),
    let after := handleSend_settled render updated (Normal reply) now pending in
    currentSessionId after = currentSessionId pending
    /\ map ChatSession.id (sessions after) = map ChatSession.id (sessions pending)
    /\ (forall origin : jsstring,
          currentSessionId render = Some origin ->
          origin <> [] ->
          (forall i s, nth_error (sessions pending) i = Some s ->
             ChatSession.id s = origin ->
             exists s', nth_error (sessions after) i = Some s'
                        /\ ChatSession.messages s' = updated ++ [aiMsg reply now])
          /\ (forall i s, nth_error (sessions pending) i = Some s ->
                ChatSession.id s <> origin ->
                nth_error (sessions after) i = Some s)
          /\ (~ In origin (map ChatSession.id (sessions pending)) -> after = pending))
    /\ (currentSessionId render = None \/ currentSessionId render = Some [] ->
        after = pending).
Proof.
  intros render pending updated reply now after. subst after.
  unfold handleSend_settled.
  destruct (updateCurrentMessages_unchanged render pending (updated ++ [aiMsg reply now])
              (later 2 now)) as (Hids & Hcur & _ & _ & Habs).
  split; [assumption|]. split; [assumption|]. split.
  - intros origin Hc Hne.
    assert (Hnth : forall i s, nth_error (sessions pending) i = Some s ->
              exists reading,
                nth_error (sessions (updateCurrentMessages render
                                       (updated ++ [aiMsg reply now]) (later 2 now) pending)) i
                = Some (if str_eqb (ChatSession.id s) origin
                        then updatedSession s (updated ++ [aiMsg reply now]) reading
                        else s)).
    { intros i s Hs. unfold updateCurrentMessages. rewrite Hc.
      destruct origin as [|c origin]; [contradiction|].
      apply updateEach_nth. exact Hs. }
    split; [|split].
    + intros i s Hs Hid. destruct (Hnth i s Hs) as [reading Hr].
      apply str_eqb_eq in Hid. rewrite Hid in Hr. eexists. split; [exact Hr|reflexivity].
    + intros i s Hs Hid. destruct (Hnth i s Hs) as [reading Hr].
      apply str_eqb_neq in Hid. now rewrite Hid in Hr.
    + intros Hno. apply Habs. intros current E. congruence.
  - unfold updateCurrentMessages. intros [->| ->]; reflexivity.
Qed.

Lemma nth_error_find_id (current : jsstring) (l : list ChatSession.t) (s : ChatSession.t) :
  find (fun s => str_eqb (ChatSession.id s) current) l = Some s ->
  In s l /\ ChatSession.id s = current.
Proof.
  intros H. apply find_some in H as [Hin E]. apply str_eqb_eq in E. auto.
Qed.

(** X19: Feedback.  After [handleToggleFeedback] the current session's log
    has the same messages in the same order, with the same ids, roles,
    contents and timestamps; a message with another id is untouched; a
    message with the given id has the chosen flag negated and the other
    flag false, so it is never both liked and disliked. *)
Theorem handleToggleFeedback_flags :
  forall (st : AppState) (id : jsstring) (type : Feedback) (now : Clock)
         (s : ChatSession.t),
    getCurrentSession st = Some s ->
    ChatSession.id s <> [] ->
    let log := getCurrentMessages (handleToggleFeedback st id type now st) in
    length log = length (ChatSession.messages s)
    /\ forall i msg,
         nth_error (ChatSession.messages s) i = Some msg ->
         exists msg',
           nth_error log i = Some msg'
           /\ Message.id msg' = Message.id msg
           /\ Message.role msg' = Message.role msg
           /\ Message.content msg' = Message.content msg
           /\ Message.timestamp msg' = Message.timestamp msg
           /\ (Message.id msg <> id -> msg' = msg)
           /\ (Message.id msg = id ->
               flagged (Message.isLiked msg') && flagged (Message.isDisliked msg') = false
               /\ match type with
                  | like =>
                    flagged (Message.isLiked msg') = negb (flagged (Message.isLiked msg))
                    /\ Message.isDisliked msg' = Some false
                  | dislike =>
                    flagged (Message.isDisliked msg') = negb (flagged (Message.isDisliked msg))
                    /\ Message.isLiked msg' = Some false
                  end).
Proof.
  intros st id type now s Hs Hid log.
  assert (Hc : currentSessionId st = Some (ChatSession.id s)).
  { unfold getCurrentSession in Hs.
    destruct (currentSessionId st) as [current|]; [|discriminate].
    apply nth_error_find_id in Hs as [_ ->]. reflexivity. }
  assert (Hm : getCurrentMessages st = ChatSession.messages s).
  { unfold getCurrentMessages. now rewrite Hs. }
  assert (Hlog : log = map (toggleFeedback id type) (ChatSession.messages s)).
  { subst log. unfold handleToggleFeedback. rewrite Hm.
    apply (getCurrentMessages_updated st st _ _ (ChatSession.id s) s); assumption. }
  rewrite Hlog. split; [apply length_map|].
  intros i msg Hmsg. exists (toggleFeedback id type msg).
  split; [now apply map_nth_error|].
  unfold toggleFeedback.
  destruct (str_eqb (Message.id msg) id) eqn:E; simpl negb; cbv iota.
  - apply str_eqb_eq in E.
    destruct type; simpl; repeat split; try contradiction;
      try (destruct (flagged _); reflexivity).
  - apply str_eqb_neq in E. repeat split; try reflexivity; contradiction.
Qed.

(** X20: Pressing the same feedback button twice brings the chosen flag back
    to what it was and leaves the other flag false; pressing the other
    button after one leaves only the second choice set. *)
Theorem toggleFeedback_twice :
  forall (id : jsstring) (msg : Message.t),
    Message.id msg = id ->
    let liked2 := toggleFeedback id like (toggleFeedback id like msg) in
    let disliked2 := toggleFeedback id dislike (toggleFeedback id dislike msg) in
    let swapped := toggleFeedback id dislike (toggleFeedback id like msg) in
    (flagged (Message.isLiked liked2) = flagged (Message.isLiked msg)
     /\ flagged (Message.isDisliked liked2) = false)
    /\ (flagged (Message.isDisliked disliked2) = flagged (Message.isDisliked msg)
        /\ flagged (Message.isLiked disliked2) = false)
    /\ (flagged (Message.isDisliked swapped) = true
        /\ flagged (Message.isLiked swapped) = false).
Proof.
  intros id msg Hid. unfold toggleFeedback. simpl.
  apply str_eqb_eq in Hid. rewrite Hid. simpl. rewrite Hid. simpl.
  rewrite !negb_involutive. repeat split.
Qed.

(* ===================================================================== *)
(** ** The sidebar, the export and the background image                    *)
(* ===================================================================== *)

Lemma In_firstn {A : Type} (x : A) (n : nat) (l : list A) : In x (firstn n l) -> In x l.
Proof.
  intros H. rewrite <- (firstn_skipn n l). apply in_or_app. now left.
Qed.

Lemma firstn_length_le {A : Type} (n : nat) (l : list A) : length (firstn n l) <= n.
Proof. rewrite length_firstn. lia. Qed.

(** X21: The title the sidebar shows is never empty; when the stored title
    is empty or one of the default titles, the shown title has at most 23
    code units: the first user message trimmed and cut at twenty code units
    with an ellipsis, or the placeholder of the sidebar's language. *)
Theorem getDisplayTitle_shown :
  forall (language : Language) (session : ChatSession.t),
    getDisplayTitle language session <> []
    /\ (ChatSession.title session = [] \/ In (ChatSession.title session) defaultTitles ->
        length (getDisplayTitle language session) <= 23).
Proof.
  intros language session.
  assert (D : defaultTitle language <> [] /\ length (defaultTitle language) <= 23).
  { destruct language; split; vm_compute; try discriminate; lia. }
  unfold getDisplayTitle.
  set (user1 := find _ (ChatSession.messages session)).
  assert (T : forall content : jsstring,
            content <> [] ->
            (if (20 <? length content)%nat
             then slice content 0 (Some 20%Z) ++ lit "..." else content) <> []
            /\ length (if (20 <? length content)%nat
                       then slice content 0 (Some 20%Z) ++ lit "..." else content) <= 23).
  { intros content Hc. destruct (Nat.ltb_spec 20 (length content)) as [H|H].
    - change 20%Z with (Z.of_nat 20). rewrite slice_prefix. split.
      + intros E. apply (f_equal (@length _)) in E. rewrite length_app in E.
        change (length (lit "...")) with 3 in E. change (@length char16 []) with 0 in E. lia.
      + rewrite length_app. pose proof (firstn_length_le 20 content).
        change (length (lit "...")) with 3. lia.
    - split; [assumption|lia]. }
  assert (B : (match user1 with
               | Some firstUserMsg =>
                 if truthy (JString (Message.content firstUserMsg))
                    && truthy (JString (trim (Message.content firstUserMsg)))
                 then
                   if (20 <? length (trim (Message.content firstUserMsg)))%nat
                   then slice (trim (Message.content firstUserMsg)) 0 (Some 20%Z) ++ lit "..."
                   else trim (Message.content firstUserMsg)
                 else defaultTitle language
               | None => defaultTitle language
               end) <> []
              /\ length (match user1 with
               | Some firstUserMsg =>
                 if truthy (JString (Message.content firstUserMsg))
                    && truthy (JString (trim (Message.content firstUserMsg)))
                 then
                   if (20 <? length (trim (Message.content firstUserMsg)))%nat
                   then slice (trim (Message.content firstUserMsg)) 0 (Some 20%Z) ++ lit "..."
                   else trim (Message.content firstUserMsg)
                 else defaultTitle language
               | None => defaultTitle language
               end) <= 23).
  { destruct user1 as [m|]; [|exact D].
    destruct (truthy (JString (Message.content m))); [|exact D]. simpl andb.
    destruct (trim (Message.content m)) as [|c t] eqn:E; [exact D|].
    simpl truthy. cbv iota. apply T. discriminate. }
  destruct B as [B1 B2].
  remember (existsb (str_eqb (ChatSession.title session)) defaultTitles) as d eqn:X.
  destruct (negb (truthy (JString (ChatSession.title session)))) eqn:N;
    [|destruct d]; simpl orb; cbv iota;
    try (split; [exact B1|intros _; exact B2]).
  split.
  - destruct (ChatSession.title session); [discriminate|discriminate].
  - intros [E|I].
    + rewrite E in N. discriminate.
    + exfalso.
      assert (existsb (str_eqb (ChatSession.title session)) defaultTitles = true).
      { apply existsb_exists. eexists. split; [exact I|apply str_eqb_refl]. }
      congruence.
Qed.

(** X22: How the shown title is derived.  A stored title that is neither
    empty nor a default title is shown as it is.  Otherwise the sidebar
    shows the first user message, trimmed, under the truncation rule of the
    stored titles ([derivedTitle]); and when there is no user message, or the
    first one is blank, the placeholder of the sidebar's language, whatever
    language the session was created in. *)
Theorem getDisplayTitle_derived :
  forall (language : Language) (session : ChatSession.t),
    let firstUserMsg :=
      find (fun m => match Message.role m with user => true | assistant => false end)
           (ChatSession.messages session) in
    (ChatSession.title session <> [] ->
     ~ In (ChatSession.title session) defaultTitles ->
     getDisplayTitle language session = ChatSession.title session)
    /\ (ChatSession.title session = [] \/ In (ChatSession.title session) defaultTitles ->
        (forall m, firstUserMsg = Some m -> trim (Message.content m) <> [] ->
           getDisplayTitle language session = derivedTitle (trim (Message.content m)))
        /\ (firstUserMsg = None
            \/ (exists m, firstUserMsg = Some m /\ trim (Message.content m) = []) ->
            getDisplayTitle language session = defaultTitle language)).
Proof.
  intros language session firstUserMsg.
  assert (X : existsb (str_eqb (ChatSession.title session)) defaultTitles = true
              <-> In (ChatSession.title session) defaultTitles).
  { rewrite existsb_exists. split.
    - intros (t & Ht & E). apply str_eqb_eq in E. now rewrite E.
    - intros H. eexists. split; [exact H|apply str_eqb_refl]. }
  unfold getDisplayTitle. fold firstUserMsg. split.
  - intros Hne Hnot.
    destruct (existsb (str_eqb (ChatSession.title session)) defaultTitles) eqn:B.
    { exfalso. apply Hnot, X. reflexivity. }
    destruct (ChatSession.title session) as [|c t] eqn:E; [contradiction|].
    reflexivity.
  - intros Hd.
    assert (D : negb (truthy (JString (ChatSession.title session)))
                || existsb (str_eqb (ChatSession.title session)) defaultTitles = true).
    { destruct Hd as [->|Hd]; [reflexivity|]. apply X in Hd. rewrite Hd.
      apply orb_true_r. }
    rewrite D. split.
    + intros m -> Hm.
      assert (Hc : truthy (JString (Message.content m)) = true).
      { destruct (Message.content m); [contradiction Hm; reflexivity|reflexivity]. }
      rewrite Hc. unfold derivedTitle.
      destruct (trim (Message.content m)) as [|c t] eqn:E; [contradiction|].
      simpl truthy. simpl andb. cbv iota.
      destruct (Nat.ltb_spec 20 (length (c :: t))) as [L|L]; [reflexivity|].
      change 20%Z with (Z.of_nat 20). rewrite slice_prefix, firstn_all2 by exact L.
      now rewrite app_nil_r.
    + intros [->|(m & -> & Hm)]; [reflexivity|].
      rewrite Hm. simpl truthy. rewrite andb_false_r. reflexivity.
Qed.

Lemma string_of_uint_digits (d : Decimal.uint) :
  Forall (fun c => JSONParse.isDigit c = true) (lit (NilEmpty.string_of_uint d)).
Proof.
  induction d; simpl; constructor; try assumption; reflexivity.
Qed.

Lemma Number_toString_chars (n : Z) :
  Forall (fun c => JSONParse.isDigit c = true \/ c = 45%N) (Number_toString n).
Proof.
  assert (U : forall d, Forall (fun c => JSONParse.isDigit c = true \/ c = 45%N)
                               (lit (NilZero.string_of_uint d))).
  { intros d. assert (H := string_of_uint_digits d).
    destruct d; simpl in *;
      try (constructor; [left; reflexivity|]);
      try (apply Forall_impl with (2 := H); auto); try constructor.
    all: inversion H; subst; eapply Forall_impl; [|eassumption]; auto. }
  unfold Number_toString. destruct (Z.to_int n) as [d|d]; simpl.
  - apply U.
  - constructor; [now right|]. apply U.
Qed.

Lemma fold_left_append {A : Type} (f : A -> jsstring) (l : list A) (init : jsstring) :
  fold_left (fun content x => content ++ f x) l init = init ++ concat (map f l).
Proof.
  revert init; induction l as [|x l IH]; intros init; simpl.
  - now rewrite app_nil_r.
  - rewrite IH. now rewrite app_assoc.
Qed.

(** The characters of a download name: those the pattern keeps, the
    underscore, the hyphen and the dot. *)
Lemma sanitized_chars (title : jsstring) :
  Forall (fun c => isFileNameChar c = true \/ c = 95%N) (sanitized title)
  /\ length (sanitized title) <= 30.
Proof.
  unfold sanitized. change 30%Z with (Z.of_nat 30). rewrite slice_prefix. split.
  - apply Forall_forall. intros c H. apply In_firstn in H.
    apply in_map_iff in H as (x & <- & _).
    destruct (isFileNameChar x) eqn:E; auto.
  - apply firstn_length_le.
Qed.

Section ExportFacts.

Variable toLocaleString : Language -> Timestamp -> jsstring.

(** X23: The export.  Nothing is exported when the current log is empty.
    Otherwise the file is the header followed by one block for each message
    of the current log, in order, and the name of the download is
    [Orion-Chat-], at most thirty characters of the title, a hyphen, the
    time and [.txt], and contains only letters, digits, ideographs,
    underscores, hyphens and dots. *)
Theorem handleExportSession_file :
  forall (st : AppState) (now : Clock),
    (getCurrentMessages st = [] -> handleExportSession toLocaleString st now = None)
    /\ (getCurrentMessages st <> [] ->
        exists file,
          handleExportSession toLocaleString st now = Some file
          /\ fileContent file
             = exportHeader toLocaleString st now
               ++ concat (map (exportBlock toLocaleString (language st))
                              (getCurrentMessages st))
          /\ fileName file
             = lit "Orion-Chat-" ++ sanitized (exportTitle st) ++ lit "-"
               ++ Number_toString (now 1%nat) ++ lit ".txt"
          /\ length (sanitized (exportTitle st)) <= 30
          /\ Forall (fun c => isFileNameChar c = true \/ In c [95; 45; 46]%N)
                    (fileName file)).
Proof.
  intros st now. unfold handleExportSession. split.
  - intros ->. reflexivity.
  - intros H. destruct (getCurrentMessages st) as [|m ms] eqn:E; [contradiction|].
    eexists. split; [reflexivity|]. cbn [fileContent fileName].
    split; [apply fold_left_append|]. split; [reflexivity|].
    destruct (sanitized_chars (exportTitle st)) as [S L]. split; [exact L|].
    repeat (apply Forall_app; split).
    + apply Forall_forall. intros c Hc. vm_compute in Hc.
      repeat (destruct Hc as [<-|Hc]; [vm_compute; auto 6|]). contradiction.
    + eapply Forall_impl; [|exact S]. simpl. intros c [?|?]; auto.
    + apply Forall_forall. intros c Hc. vm_compute in Hc.
      repeat (destruct Hc as [<-|Hc]; [vm_compute; auto 6|]). contradiction.
    + eapply Forall_impl; [|apply Number_toString_chars]. simpl.
      intros c [Hd| ->]; [|tauto]. left. unfold isFileNameChar.
      unfold JSONParse.isDigit in Hd. rewrite Hd. apply orb_true_iff. left.
      apply orb_true_r.
    + apply Forall_forall. intros c Hc. vm_compute in Hc.
      repeat (destruct Hc as [<-|Hc]; [vm_compute; auto 6|]). contradiction.
Qed.

End ExportFacts.

Section BackgroundFacts.

Variable fits : LocalStorage -> jsstring -> jsstring -> bool.

(** X24: The background image.  The handler changes the shown background
    only when the image has been written to local storage: a file above
    2 MiB and a write that exceeds the quota leave both as they were and
    alert the user.  An image that was read and written is the background
    the next initialisation restores, and the write leaves the stored
    sessions and the stored selection as they were. *)
Theorem handleImageUpload_stored :
  forall (language : Language) (file : File) (shown : option jsstring)
         (storage0 : LocalStorage),
    let after := handleImageUpload fits language (Some file) shown storage0 in
    ((2 * 1024 * 1024 < size file)%Z ->
       bgImage after = shown /\ storage after = storage0
       /\ alert after = Some (imageTooLarge language))
    /\ ((size file <= 2 * 1024 * 1024)%Z ->
        forall url, result file = Some url ->
        (fits storage0 orion_bg_image url = false ->
           bgImage after = shown /\ storage after = storage0
           /\ alert after = Some (storageFull language))
        /\ (fits storage0 orion_bg_image url = true -> url <> [] ->
            bgImage after = Some url
            /\ initializeBackground (storage after) = Some url
            /\ alert after = None
            /\ forall now, initialize (storage after) now = initialize storage0 now)).
Proof.
  intros language file shown storage0 after. subst after. unfold handleImageUpload.
  split.
  - intros H. apply Z.ltb_lt in H. rewrite H. repeat split.
  - intros H url Hu. destruct (Z.ltb_spec (2 * 1024 * 1024) (size file)) as [H'|_]; [lia|].
    rewrite Hu. unfold setItem. split.
    + intros ->. repeat split.
    + intros -> Hne. cbn [bgImage storage alert]. split; [reflexivity|]. split.
      * unfold initializeBackground. rewrite getItem_stored_same.
        destruct url; [contradiction|reflexivity].
      * split; [reflexivity|]. intros now. unfold initialize, loadSessions.
        rewrite !getItem_stored_other by (intros E; discriminate E). reflexivity.
Qed.

End BackgroundFacts.

(* ===================================================================== *)
(** ** The service worker                                                  *)
(* ===================================================================== *)

(** X25: The caching policy of the fetch handler.  A request to a host whose
    name contains n8n.cloud is left to the browser; a cached response is
    answered as it is, without a put, whatever the network would say; and a
    response is put in the cache only when the request is a GET that missed
    the cache and the network answered with status 200 and type basic or
    cors, the page receiving that same response. *)
Theorem onFetch_policy :
  forall (cached : option ServiceWorker.Fetched)
         (network : Completion ServiceWorker.Fetched)
         (event : ServiceWorker.FetchEvent),
    (includes (ServiceWorker.hostname event) (lit "n8n.cloud") = true ->
       ServiceWorker.onFetch cached network event = ServiceWorker.Ignored)
    /\ (includes (ServiceWorker.hostname event) (lit "n8n.cloud") = false ->
        forall hit, cached = Some hit ->
        ServiceWorker.onFetch cached network event
        = ServiceWorker.Answered (Normal hit) None)
    /\ (forall response stored,
        ServiceWorker.onFetch cached network event
        = ServiceWorker.Answered response (Some stored) ->
        includes (ServiceWorker.hostname event) (lit "n8n.cloud") = false
        /\ cached = None
        /\ network = Normal stored /\ response = Normal stored
        /\ ServiceWorker.status stored = 200%Z
        /\ (ServiceWorker.type stored = ServiceWorker.basic
            \/ ServiceWorker.type stored = ServiceWorker.cors)
        /\ ServiceWorker.method event = lit "GET").
Proof.
  intros cached network event. unfold ServiceWorker.onFetch. split; [|split].
  - intros ->. reflexivity.
  - intros -> hit ->. reflexivity.
  - intros response stored.
    destruct (includes (ServiceWorker.hostname event) (lit "n8n.cloud")); [discriminate|].
    destruct cached as [hit|]; [discriminate|].
    destruct network as [r|e]; [|discriminate].
    destruct (ServiceWorker.status r =? 200)%Z eqn:S; simpl negb; simpl orb.
    + destruct (ServiceWorker.type r) eqn:T; simpl; try discriminate;
        (destruct (str_eqb (ServiceWorker.method event) (lit "GET")) eqn:M;
         [|discriminate]);
        intros H; injection H as <- <-; apply Z.eqb_eq in S; apply str_eqb_eq in M;
        repeat split; auto.
    + discriminate.
Qed.

(* ===================================================================== *)
(** ** [JSON.parse] reads what [JSON.stringify] writes                     *)
(* ===================================================================== *)

Section StringifyFacts.
Import JSONParse JSONStringify.

Lemma hexDigit_hexChar (d : N) : (d < 16)%N -> hexDigit (hexChar d) = Some d.
Proof.
  intros H. unfold hexChar, hexDigit.
  destruct (N.ltb_spec d 10) as [L|L].
  - replace (N.leb 48 (48 + d)) with true by (symmetry; apply N.leb_le; lia).
    replace (N.leb (48 + d) 57) with true by (symmetry; apply N.leb_le; lia).
    cbn [andb]. f_equal. lia.
  - replace (N.leb (87 + d) 57) with false by (symmetry; apply N.leb_gt; lia).
    rewrite andb_false_r.
    replace (N.leb (87 + d) 70) with false by (symmetry; apply N.leb_gt; lia).
    rewrite andb_false_r.
    replace (N.leb 97 (87 + d)) with true by (symmetry; apply N.leb_le; lia).
    replace (N.leb (87 + d) 102) with true by (symmetry; apply N.leb_le; lia).
    cbn [andb]. f_equal. lia.
Qed.

Lemma hex4_unicodeEscape (c : char16) :
  (c < 65536)%N ->
  hex4 (hexChar (c / 4096)) (hexChar ((c / 256) mod 16)) (hexChar ((c / 16) mod 16))
       (hexChar (c mod 16)) = Some c.
Proof.
  intros H. unfold hex4.
  rewrite !hexDigit_hexChar;
    try (apply N.mod_lt; discriminate);
    try (apply N.Div0.div_lt_upper_bound; exact H).
  f_equal.
  pose proof (N.div_mod c 16 ltac:(discriminate)) as E1.
  pose proof (N.div_mod (c / 16) 16 ltac:(discriminate)) as E2.
  pose proof (N.div_mod (c / 256) 16 ltac:(discriminate)) as E3.
  replace (c / 16 / 16)%N with (c / 256)%N in E2
    by (rewrite N.Div0.div_div; reflexivity).
  replace (c / 256 / 16)%N with (c / 4096)%N in E3
    by (rewrite N.Div0.div_div; reflexivity).
  lia.
Qed.

(** A string literal written by [QuoteJSONString] is read back as the
    string it was written for. *)
Lemma parse_string_chars_quoteChars (s rest : jsstring) :
  parse_string_chars (quoteChars s ++ 34%N :: rest) = Some (s, rest).
Proof.
  remember (length s) as n eqn:Hn. revert s Hn.
  induction n as [n IH] using lt_wf_ind. intros [|c r] Hn.
  { simpl. reflexivity. }
  simpl in Hn.
  assert (IHr : parse_string_chars (quoteChars r ++ 34%N :: rest) = Some (r, rest)).
  { apply (IH (length r)); [lia|reflexivity]. }
  assert (U : (c < 65536)%N ->
              parse_string_chars (unicodeEscape c ++ quoteChars r ++ 34%N :: rest)
              = Some (c :: r, rest)).
  { intros Hc. unfold unicodeEscape. cbn [app parse_string_chars].
    change (N.eqb 92 34) with false. change (N.eqb 92 92) with true.
    change (N.eqb 117 117) with true. cbv iota.
    rewrite (hex4_unicodeEscape c Hc), IHr. reflexivity. }
  assert (S : forall e u, simpleEscape e = Some u -> N.eqb e 117 = false ->
              parse_string_chars ([92%N; e] ++ quoteChars r ++ 34%N :: rest)
              = Some (u :: r, rest)).
  { intros e u He Hu. cbn [app parse_string_chars].
    change (N.eqb 92 34) with false. change (N.eqb 92 92) with true. cbv iota.
    rewrite Hu, He, IHr. reflexivity. }
  cbn [quoteChars].
  destruct (N.eqb_spec c 8) as [->|N8]; [rewrite <- app_assoc; now apply S|].
  destruct (N.eqb_spec c 9) as [->|N9]; [rewrite <- app_assoc; now apply S|].
  destruct (N.eqb_spec c 10) as [->|N10]; [rewrite <- app_assoc; now apply S|].
  destruct (N.eqb_spec c 12) as [->|N12]; [rewrite <- app_assoc; now apply S|].
  destruct (N.eqb_spec c 13) as [->|N13]; [rewrite <- app_assoc; now apply S|].
  destruct (N.eqb_spec c 34) as [->|N34]; [rewrite <- app_assoc; now apply S|].
  destruct (N.eqb_spec c 92) as [->|N92]; [rewrite <- app_assoc; now apply S|].
  assert (Lit : forall t tail, (32 <= c)%N ->
            parse_string_chars t = Some (tail, rest) ->
            parse_string_chars (c :: t) = Some (c :: tail, rest)).
  { intros t tail H32 Ht. cbn [parse_string_chars].
    apply N.eqb_neq in N34, N92. rewrite N34, N92.
    replace (N.ltb c 32) with false by (symmetry; apply N.ltb_ge; exact H32).
    rewrite Ht. reflexivity. }
  destruct (N.ltb_spec c 32) as [L32|G32].
  { rewrite <- app_assoc. apply U. lia. }
  destruct (isLeadingSurrogate c) eqn:Lead.
  - unfold isLeadingSurrogate in Lead. apply andb_true_iff in Lead as [L1 L2].
    apply N.leb_le in L1, L2.
    destruct r as [|d r'].
    + simpl quoteChars in U. rewrite app_nil_l in U. apply U. lia.
    + destruct (isTrailingSurrogate d) eqn:Trail.
      * unfold isTrailingSurrogate in Trail. apply andb_true_iff in Trail as [T1 T2].
        apply N.leb_le in T1, T2.
        cbn [app]. apply Lit; [assumption|].
        cbn [parse_string_chars].
        replace (N.eqb d 34) with false by (symmetry; apply N.eqb_neq; lia).
        replace (N.eqb d 92) with false by (symmetry; apply N.eqb_neq; lia).
        replace (N.ltb d 32) with false by (symmetry; apply N.ltb_ge; lia).
        rewrite (IH (length r')) with (s := r'); [reflexivity|simpl in Hn; lia|reflexivity].
      * rewrite <- app_assoc. apply U. lia.
  - destruct (isTrailingSurrogate c) eqn:Trail.
    + unfold isTrailingSurrogate in Trail. apply andb_true_iff in Trail as [T1 T2].
      apply N.leb_le in T1, T2. rewrite <- app_assoc. apply U. lia.
    + cbn [app]. apply Lit; assumption.
Qed.


(** *** Numbers *)

Lemma lit_string_of_uint (d : Decimal.uint) :
  lit (NilEmpty.string_of_uint d) = map (N.add 48) (uint_digits d).
Proof. induction d; simpl; [reflexivity|..]; unfold lit in *; simpl; now f_equal. Qed.

Lemma uint_digits_lt (d : Decimal.uint) : Forall (fun x => (x < 10)%N) (uint_digits d).
Proof. induction d; simpl; constructor; try assumption; reflexivity. Qed.

Lemma digits_value_acc (d : Decimal.uint) (acc : positive) :
  fold_left (fun a x => (a * 10 + Z.of_N x)%Z) (uint_digits d) (Z.pos acc)
  = Z.pos (Pos.of_uint_acc d acc).
Proof.
  revert acc; induction d; intros acc; cbn [uint_digits fold_left Pos.of_uint_acc];
    [reflexivity|..];
    match goal with
    | |- fold_left _ _ ?z = _ =>
      match goal with
      | |- _ = Z.pos (Pos.of_uint_acc _ ?a) =>
        replace z with (Z.pos a) by lia; apply IHd
      end
    end.
Qed.

Lemma digits_value_uint (d : Decimal.uint) :
  digits_value (uint_digits d) = Z.of_N (Pos.of_uint d).
Proof.
  unfold digits_value. induction d; cbn [uint_digits fold_left Pos.of_uint];
    try reflexivity; try exact IHd; apply (digits_value_acc d).
Qed.

(** The decimal numeral of a positive number: its digits are below ten,
    the first is not zero, and their value is the number. *)
Lemma to_uint_digits (p : positive) :
  exists d0 ds,
    uint_digits (Pos.to_uint p) = d0 :: ds
    /\ d0 <> 0%N /\ Forall (fun x => (x < 10)%N) (d0 :: ds)
    /\ digits_value (d0 :: ds) = Z.pos p.
Proof.
  pose proof (uint_digits_lt (Pos.to_uint p)) as L.
  pose proof (digits_value_uint (Pos.to_uint p)) as V.
  rewrite DecimalPos.Unsigned.of_to in V.
  pose proof (DecimalPos.Unsigned.to_of (Pos.to_uint p)) as N.
  rewrite DecimalPos.Unsigned.of_to in N. simpl in N.
  pose proof (DecimalPos.Unsigned.to_uint_nonzero p) as NZ.
  pose proof (DecimalFacts.nzhead_nonzero (Pos.to_uint p)) as H0.
  unfold Decimal.unorm in N.
  destruct (Pos.to_uint p) eqn:E; simpl in *;
    try (eexists; eexists; split; [reflexivity|];
         split; [discriminate|]; split; assumption).
  - discriminate.
  - exfalso. destruct (Decimal.nzhead u) eqn:Eu; try discriminate.
    + injection N as N. subst u. contradiction.
    + injection N as N. subst u. specialize (H0 u0). apply H0. reflexivity.
Qed.


Lemma take_digits_digits (ds : list N) (rest : jsstring) :
  Forall (fun x => (x < 10)%N) ds ->
  delimited rest = true ->
  take_digits (map (N.add 48) ds ++ rest) = (ds, rest).
Proof.
  intros Hds Hrest. induction Hds as [|d ds Hd _ IH]; cbn [map app take_digits].
  - destruct rest as [|c r]; [reflexivity|]. simpl in Hrest. cbn [take_digits].
    unfold isDigit.
    apply orb_true_iff in Hrest as [Hrest|Hrest];
      [apply orb_true_iff in Hrest as [Hrest|Hrest]|];
      apply N.eqb_eq in Hrest; subst c; reflexivity.
  - unfold isDigit.
    replace (N.leb 48 (48 + d)) with true by (symmetry; apply N.leb_le; lia).
    replace (N.leb (48 + d) 57) with true by (symmetry; apply N.leb_le; lia).
    cbn [andb]. rewrite IH. f_equal. f_equal. lia.
Qed.

Lemma number_tail (rest : jsstring) :
  delimited rest = true ->
  number_frac rest = Some ([], rest) /\ number_exp rest = Some (0%Z, rest).
Proof.
  intros H. destruct rest as [|c r]; [split; reflexivity|]. simpl in H.
  apply orb_true_iff in H as [H|H]; [apply orb_true_iff in H as [H|H]|];
    apply N.eqb_eq in H; subst c; split; reflexivity.
Qed.

Lemma parse_literal_number (c : char16) (r : jsstring) :
  c <> 116%N -> c <> 102%N -> c <> 110%N ->
  parse_literal (c :: r) = parse_number (c :: r).
Proof.
  intros Ht Hf Hn. unfold parse_literal.
  cbn [startsWith lit list_ascii_of_string map].
  change (N_of_ascii "t") with 116%N. change (N_of_ascii "f") with 102%N.
  change (N_of_ascii "n") with 110%N.
  replace (N.eqb 116 c) with false by (symmetry; apply N.eqb_neq; congruence).
  replace (N.eqb 102 c) with false by (symmetry; apply N.eqb_neq; congruence).
  replace (N.eqb 110 c) with false by (symmetry; apply N.eqb_neq; congruence).
  reflexivity.
Qed.

Lemma parse_number_integer (negative : bool) (s s' : jsstring) (ints : list N)
  (rest : jsstring) :
  number_sign s = (negative, s') ->
  number_int s' = Some (ints, rest) ->
  delimited rest = true ->
  parse_number s
  = Some (JNumber (if negative then - digits_value ints else digits_value ints) 0, rest).
Proof.
  intros S I Hrest. destruct (number_tail rest Hrest) as [F E].
  unfold parse_number. rewrite S. cbn [fst snd]. rewrite I, F, E, app_nil_r.
  reflexivity.
Qed.

(** The digits of a number that is not zero, read as a number literal. *)
Lemma parse_number_digits (d0 : N) (ds : list N) (rest : jsstring) :
  d0 <> 0%N -> Forall (fun x => (x < 10)%N) (d0 :: ds) -> delimited rest = true ->
  parse_literal (map (N.add 48) (d0 :: ds) ++ rest)
  = Some (JNumber (digits_value (d0 :: ds)) 0, rest)
  /\ parse_literal (45%N :: map (N.add 48) (d0 :: ds) ++ rest)
     = Some (JNumber (- digits_value (d0 :: ds)) 0, rest).
Proof.
  intros H0 Hds Hrest. inversion Hds as [|? ? Hd Hds']; subst.
  assert (I : number_int (map (N.add 48) (d0 :: ds) ++ rest) = Some (d0 :: ds, rest)).
  { cbn [map app number_int].
    replace (N.eqb (48 + d0) 48) with false by (symmetry; apply N.eqb_neq; lia).
    unfold isDigit.
    replace (N.leb 48 (48 + d0)) with true by (symmetry; apply N.leb_le; lia).
    replace (N.leb (48 + d0) 57) with true by (symmetry; apply N.leb_le; lia).
    cbn [andb]. rewrite take_digits_digits by assumption. cbn [fst snd].
    f_equal. f_equal. f_equal. lia. }
  split.
  - cbn [map app]. rewrite parse_literal_number by lia.
    apply (parse_number_integer false) with (s' := map (N.add 48) (d0 :: ds) ++ rest);
      [|exact I|exact Hrest].
    cbn [map app number_sign].
    replace (N.eqb (48 + d0) 45) with false by (symmetry; apply N.eqb_neq; lia).
    reflexivity.
  - rewrite parse_literal_number by discriminate.
    apply (parse_number_integer true) with (s' := map (N.add 48) (d0 :: ds) ++ rest);
      [reflexivity|exact I|exact Hrest].
Qed.

(** [JSON.parse] reads the decimal digits of an integer as that integer. *)
Lemma parse_literal_Number_toString (n : Z) (rest : jsstring) :
  delimited rest = true ->
  parse_literal (Number_toString n ++ rest) = Some (JNumber n 0, rest).
Proof.
  intros Hrest. unfold Number_toString.
  destruct n as [|p|p]; cbn [Z.to_int NilZero.string_of_int].
  - destruct (number_tail rest Hrest) as [F E].
    change (lit (NilZero.string_of_uint (Decimal.D0 Decimal.Nil))) with [48%N].
    cbn [app]. rewrite parse_literal_number by discriminate.
    apply (parse_number_integer false _ (48%N :: rest) [0%N] rest);
      [reflexivity|reflexivity|exact Hrest].
  - destruct (to_uint_digits p) as (d0 & ds & D & H0 & L & V).
    assert (T : lit (NilZero.string_of_uint (Pos.to_uint p)) = map (N.add 48) (d0 :: ds)).
    { rewrite <- D, <- lit_string_of_uint. unfold NilZero.string_of_uint.
      destruct (Pos.to_uint p); try reflexivity. discriminate. }
    rewrite T, <- V. apply parse_number_digits; assumption.
  - destruct (to_uint_digits p) as (d0 & ds & D & H0 & L & V).
    assert (T : lit (String "-" (NilZero.string_of_uint (Pos.to_uint p)))
                = 45%N :: map (N.add 48) (d0 :: ds)).
    { rewrite <- D, <- lit_string_of_uint. unfold NilZero.string_of_uint.
      destruct (Pos.to_uint p); try reflexivity. discriminate. }
    rewrite T. change (Z.neg p) with (- Z.pos p)%Z. rewrite <- V.
    apply parse_number_digits; assumption.
Qed.

End StringifyFacts.

(** *** Structure *)

Section ReadsFacts.
Import JSONParse JSONStringify.

Lemma parse_value_more (fuel : nat) (s r : jsstring) (v : json) :
  parse_value fuel s = Some (v, r) ->
  forall fuel', 2 * length s <= fuel' -> parse_value fuel' s = Some (v, r).
Proof.
  intros H fuel' Hf. apply (proj1 (parse_fuel fuel) _ _ _ H). lia.
Qed.

Lemma parse_elements_more (fuel : nat) (s r : jsstring) (acc : list json) (v : json) :
  parse_elements fuel s acc = Some (v, r) ->
  forall fuel', 2 * length s + 1 <= fuel' -> parse_elements fuel' s acc = Some (v, r).
Proof.
  intros H fuel' Hf. apply (proj1 (proj2 (parse_fuel fuel)) _ _ _ _ H). lia.
Qed.

Lemma parse_members_more (fuel : nat) (s r : jsstring) (acc : list (jsstring * json))
  (v : json) :
  parse_members fuel s acc = Some (v, r) ->
  forall fuel', 2 * length s + 1 <= fuel' -> parse_members fuel' s acc = Some (v, r).
Proof.
  intros H fuel' Hf. apply (proj2 (proj2 (parse_fuel fuel)) _ _ _ _ H). lia.
Qed.

Lemma join_cons (sep x y : jsstring) (r : list jsstring) :
  join sep (x :: y :: r) = x ++ sep ++ join sep (y :: r).
Proof. reflexivity. Qed.

Lemma delimited_cases (rest : jsstring) :
  delimited rest = true ->
  rest = [] \/ exists c r, rest = c :: r /\ (c = 44%N \/ c = 93%N \/ c = 125%N).
Proof.
  destruct rest as [|c r]; [now left|]. simpl. intros H. right. exists c, r.
  split; [reflexivity|].
  apply orb_true_iff in H as [H|H]; [apply orb_true_iff in H as [H|H]|];
    apply N.eqb_eq in H; auto.
Qed.

(** One element of an array, followed by a comma or the closing
    bracket. *)
Lemma parse_elements_element (text tail : jsstring) (v : json) (acc : list json)
  (fuel F : nat) (c : char16) :
  parse_value fuel (text ++ c :: tail) = Some (v, c :: tail) ->
  2 * length (text ++ c :: tail) <= F ->
  c = 44%N \/ c = 93%N ->
  parse_elements (S F) (text ++ c :: tail) acc
  = if N.eqb c 44 then parse_elements F tail (v :: acc)
    else Some (JArray (rev (v :: acc)), tail).
Proof.
  intros H Hf Hc. cbn [parse_elements].
  rewrite (parse_value_more _ _ _ _ H F Hf).
  destruct Hc as [->| ->]; reflexivity.
Qed.

Lemma parse_elements_join (texts : list jsstring) (vs : list json) :
  Forall2 Reads texts vs -> texts <> [] ->
  forall acc rest,
    exists fuel,
      parse_elements fuel (join (lit ",") texts ++ 93%N :: rest) acc
      = Some (JArray (rev acc ++ vs), rest).
Proof.
  induction 1 as [|t v ts vs' Ht Hts IH]; [contradiction|]. intros _ acc rest.
  destruct ts as [|t2 ts'].
  - inversion Hts; subst. cbn [join].
    destruct (Ht (93%N :: rest) eq_refl) as [f Hf].
    exists (S (2 * length (t ++ 93%N :: rest))).
    rewrite (parse_elements_element _ _ _ _ _ _ _ Hf (le_n _)) by now right.
    reflexivity.
  - rewrite join_cons.
    destruct (IH ltac:(discriminate) (v :: acc) rest) as [f2 Hf2].
    remember (join (lit ",") (t2 :: ts') ++ 93%N :: rest) as tail eqn:Etail.
    assert (E : (t ++ lit "," ++ join (lit ",") (t2 :: ts')) ++ 93%N :: rest
                = t ++ 44%N :: tail).
    { subst tail. repeat rewrite <- app_assoc. reflexivity. }
    rewrite E.
    destruct (Ht (44%N :: tail) eq_refl) as [f Hf].
    exists (S (2 * length (t ++ 44%N :: tail) + 1)).
    rewrite (parse_elements_element _ _ _ _ _ _ _ Hf); [|apply Nat.le_add_r|now left].
    change (N.eqb 44 44) with true. cbv iota.
    rewrite (parse_elements_more _ _ _ _ _ Hf2).
    + cbn [rev]. rewrite <- app_assoc. reflexivity.
    + rewrite length_app. cbn [length]. lia.
Qed.

(** The text of an array is read as the array of the values its items are
    read as. *)
Lemma Reads_array (texts : list jsstring) (vs : list json) :
  Forall2 Reads texts vs -> Reads (stringifyArray texts) (JArray vs).
Proof.
  intros H rest _. unfold stringifyArray.
  destruct texts as [|t ts].
  - inversion H; subst. exists 1. reflexivity.
  - destruct (parse_elements_join _ _ H ltac:(discriminate) [] rest) as [f Hf].
    exists (S f).
    assert (E : (lit "[" ++ join (lit ",") (t :: ts) ++ lit "]") ++ rest
                = 91%N :: join (lit ",") (t :: ts) ++ 93%N :: rest).
    { repeat rewrite <- app_assoc. reflexivity. }
    rewrite E. cbn [parse_value skip_ws isJsonWhitespace existsb].
    change (N.eqb 91 32 || (N.eqb 91 9 || (N.eqb 91 10 || (N.eqb 91 13 || false))))
      with false. cbv iota.
    change (N.eqb 91 123) with false. change (N.eqb 91 91) with true. cbv iota.
    (* the elements are parsed from the first character that is not white
       space, which is not the closing bracket *)
    assert (W : exists c2 r2,
               skip_ws (join (lit ",") (t :: ts) ++ 93%N :: rest) = c2 :: r2
               /\ N.eqb c2 93 = false
               /\ parse_elements f (c2 :: r2) [] = Some (JArray vs, rest)).
    { destruct f as [|f']; [discriminate|].
      cbn [parse_elements] in Hf.
      destruct (parse_value f' (join (lit ",") (t :: ts) ++ 93%N :: rest))
        as [[x r]|] eqn:P; [|discriminate].
      destruct f' as [|f'']; [discriminate|].
      cbn [parse_value] in P.
      destruct (skip_ws (join (lit ",") (t :: ts) ++ 93%N :: rest)) as [|c2 r2] eqn:K;
        [discriminate|].
      exists c2, r2. split; [reflexivity|].
      assert (N93 : N.eqb c2 93 = false).
      { destruct (N.eqb_spec c2 93) as [->|]; [|reflexivity].
        change (N.eqb 93 123) with false in P. change (N.eqb 93 91) with false in P.
        change (N.eqb 93 34) with false in P. cbv iota in P. discriminate. }
      split; [exact N93|].
      assert (Hs : parse_value (S f'') (c2 :: r2) = Some (x, r)).
      { cbn [parse_value].
        assert (K2 : skip_ws (c2 :: r2) = c2 :: r2).
        { rewrite <- K. clear. induction (join (lit ",") (t :: ts) ++ 93%N :: rest)
            as [|a l IHl]; [reflexivity|].
          cbn [skip_ws]. destruct (isJsonWhitespace a) eqn:Wa; [exact IHl|].
          cbn [skip_ws]. rewrite Wa. reflexivity. }
        rewrite K2. exact P. }
      cbn [parse_elements]. rewrite Hs. exact Hf. }
    destruct W as (c2 & r2 & K & N93 & P). rewrite K, N93. exact P.
Qed.


(** One member of an object, followed by a comma or the closing brace. *)
Lemma parse_members_member (s k text tail : jsstring) (v : json)
  (acc : list (jsstring * json)) (fuel F : nat) (c : char16) :
  s = 34%N :: quoteChars k ++ 34%N :: 58%N :: text ++ c :: tail ->
  parse_value fuel (text ++ c :: tail) = Some (v, c :: tail) ->
  2 * length s <= F ->
  c = 44%N \/ c = 125%N ->
  parse_members (S F) s acc
  = if N.eqb c 44 then parse_members F tail (define k v acc)
    else Some (JObject (define k v acc), tail).
Proof.
  intros -> H Hf Hc. cbn [parse_members skip_ws isJsonWhitespace existsb].
  change (N.eqb 34 32 || (N.eqb 34 9 || (N.eqb 34 10 || (N.eqb 34 13 || false))))
    with false. cbv iota.
  change (N.eqb 34 34) with true. cbv iota.
  rewrite parse_string_chars_quoteChars.
  cbn [skip_ws isJsonWhitespace existsb].
  change (N.eqb 58 32 || (N.eqb 58 9 || (N.eqb 58 10 || (N.eqb 58 13 || false))))
    with false. cbv iota.
  change (N.eqb 58 58) with true. cbv iota.
  rewrite (parse_value_more _ _ _ _ H F).
  - destruct Hc as [->| ->]; reflexivity.
  - etransitivity; [|exact Hf]. cbn [length]. rewrite !length_app. cbn [length].
    rewrite !length_app. cbn [length]. lia.
Qed.

Lemma parse_members_join (fields : list (jsstring * jsstring * json)) :
  Forall (fun field => Reads (snd (fst field)) (snd field)) fields -> fields <> [] ->
  forall acc rest,
    exists fuel,
      parse_members fuel
        (join (lit ",") (map (fun member => quote (fst member) ++ lit ":" ++ snd member)
                             (map fst fields))
         ++ 125%N :: rest) acc
      = Some (JObject (defineAll fields acc), rest).
Proof.
  induction 1 as [|[[k text] v] fields Hf Hfs IH]; [contradiction|]. intros _ acc rest.
  cbn [fst snd] in Hf.
  destruct fields as [|field2 fields'].
  - cbn [map join fst snd].
    destruct (Hf (125%N :: rest) eq_refl) as [f Hp].
    eexists.
    erewrite (parse_members_member _ k text rest v acc f _ 125%N);
      [reflexivity| |exact Hp|apply le_n|now right].
    unfold quote. repeat rewrite <- app_assoc. reflexivity.
  - destruct (IH ltac:(discriminate) (define k v acc) rest) as [f2 Hf2].
    cbn [map] in Hf2 |- *. rewrite join_cons. cbn [fst snd].
    match type of Hf2 with
    | parse_members _ ?t _ = _ =>
      destruct (Hf (44%N :: t) eq_refl) as [f Hp];
      eexists;
      erewrite (parse_members_member _ k text t v acc f _ 44%N);
        [| |exact Hp|apply Nat.le_add_r|now left]
    end.
    + change (N.eqb 44 44) with true. cbv iota.
      apply (parse_members_more _ _ _ _ _ Hf2).
      apply Nat.le_add_l.
    + unfold quote. repeat rewrite <- app_assoc. reflexivity.
Qed.

(** The text of an object with at least one member is read as the object
    that has the values its members are read as. *)
Lemma Reads_object (fields : list (jsstring * jsstring * json)) :
  Forall (fun field => Reads (snd (fst field)) (snd field)) fields -> fields <> [] ->
  Reads (stringifyObject (map fst fields)) (JObject (defineAll fields [])).
Proof.
  intros H Hne rest _. unfold stringifyObject.
  destruct (parse_members_join fields H Hne [] rest) as [f Hf].
  exists (S f).
  match type of Hf with
  | parse_members _ ?t _ = _ =>
    assert (Q : exists r, t = 34%N :: r)
  end.
  { destruct fields as [|[[k text] v] [|field2 fields']]; [contradiction| |].
    - cbn [map join fst snd]. unfold quote. eexists.
      repeat rewrite <- app_assoc. reflexivity.
    - cbn [map]. rewrite join_cons. cbn [fst snd]. unfold quote. eexists.
      repeat rewrite <- app_assoc. reflexivity. }
  destruct Q as [r Q]. rewrite Q in Hf.
  match goal with
  | |- parse_value _ ?t = _ => assert (E : t = 123%N :: 34%N :: r)
  end.
  { rewrite <- Q. repeat rewrite <- app_assoc. reflexivity. }
  rewrite E. cbn [parse_value skip_ws isJsonWhitespace existsb].
  change (N.eqb 123 32 || (N.eqb 123 9 || (N.eqb 123 10 || (N.eqb 123 13 || false))))
    with false. cbv iota.
  change (N.eqb 123 123) with true. cbv iota.
  change (N.eqb 34 32 || (N.eqb 34 9 || (N.eqb 34 10 || (N.eqb 34 13 || false))))
    with false. cbv iota.
  change (N.eqb 34 125) with false. cbv iota. exact Hf.
Qed.

Lemma Reads_string (s : jsstring) : Reads (quote s) (JString s).
Proof.
  intros rest _. exists 1.
  assert (E : quote s ++ rest = 34%N :: quoteChars s ++ 34%N :: rest).
  { unfold quote. repeat rewrite <- app_assoc. reflexivity. }
  rewrite E. cbn [parse_value skip_ws isJsonWhitespace existsb].
  change (N.eqb 34 32 || (N.eqb 34 9 || (N.eqb 34 10 || (N.eqb 34 13 || false))))
    with false. cbv iota.
  change (N.eqb 34 123) with false. change (N.eqb 34 91) with false.
  change (N.eqb 34 34) with true. cbv iota.
  rewrite parse_string_chars_quoteChars. reflexivity.
Qed.

Lemma Reads_boolean (b : bool) : Reads (stringifyBoolean b) (JBool b).
Proof.
  intros rest _. exists 1.
  destruct b; simpl; unfold parse_literal; simpl; rewrite startsWith_nil; reflexivity.
Qed.

Lemma Reads_number (n : Z) : Reads (Number_toString n) (JNumber n 0).
Proof.
  intros rest Hrest. exists 1.
  pose proof (parse_literal_Number_toString n rest Hrest) as P.
  pose proof (Number_toString_chars n) as C.
  destruct (Number_toString n) as [|c r] eqn:E.
  { exfalso. pose proof (parse_literal_Number_toString n [] eq_refl) as P0.
    rewrite E in P0. discriminate. }
  inversion C as [|? ? Hc _]; subst.
  cbn [app] in P |- *. cbn [parse_value skip_ws].
  assert (W : isJsonWhitespace c = false /\ N.eqb c 123 = false /\ N.eqb c 91 = false
              /\ N.eqb c 34 = false).
  { destruct Hc as [Hc| ->]; [|repeat split; reflexivity].
    unfold isDigit in Hc. apply andb_true_iff in Hc as [H1 H2].
    apply N.leb_le in H1, H2. unfold isJsonWhitespace. cbn [existsb].
    repeat split; try (apply N.eqb_neq; lia).
    repeat (apply orb_false_iff; split); try reflexivity; apply N.eqb_neq; lia. }
  destruct W as (W1 & W2 & W3 & W4). rewrite W1, W2, W3, W4. exact P.
Qed.

End ReadsFacts.

(** *** The session collection *)

Section SessionRoundTrip.
Import JSONStringify.

Variable toISOString : Z -> jsstring.
Variable dislikedFirst : Message.t -> bool.

Lemma Reads_flagField (k : string) (flag : option bool) :
  Forall (fun field => Reads (snd (fst field)) (snd field)) (flagField k flag).
Proof.
  destruct flag as [b|]; simpl; [|constructor].
  constructor; [apply Reads_boolean|constructor].
Qed.

Lemma Reads_message (msg : Message.t) :
  Reads (stringifyMessage toISOString dislikedFirst msg)
        (messageValue toISOString dislikedFirst msg).
Proof.
  assert (E : stringifyMessage toISOString dislikedFirst msg
              = stringifyObject (map fst (messageFields toISOString dislikedFirst msg))).
  { unfold stringifyMessage, messageFields.
    destruct (dislikedFirst msg), (Message.isLiked msg), (Message.isDisliked msg);
      reflexivity. }
  rewrite E. apply Reads_object; [|discriminate].
  unfold messageFields.
  repeat (apply Forall_cons; [apply Reads_string|]).
  destruct (dislikedFirst msg); apply Forall_app; split; apply Reads_flagField.
Qed.

Lemma asMessage_messageValue (msg : Message.t) :
  Typed.asMessage (messageValue toISOString dislikedFirst msg)
  = Some (storedMessage toISOString msg).
Proof.
  unfold messageValue, messageFields, storedMessage.
  destruct msg as [i r c t l d]. cbn [Message.id Message.role Message.content
    Message.timestamp Message.isLiked Message.isDisliked].
  destruct (dislikedFirst _), r, t, l as [[|]|], d as [[|]|]; reflexivity.
Qed.

Lemma Reads_messages (messages : list Message.t) :
  Forall2 Reads (map (stringifyMessage toISOString dislikedFirst) messages)
                (map (messageValue toISOString dislikedFirst) messages).
Proof.
  induction messages as [|m ms IH]; simpl; constructor; [apply Reads_message|exact IH].
Qed.

Lemma asMessages_messageValues (messages : list Message.t) :
  Typed.asList Typed.asMessage (map (messageValue toISOString dislikedFirst) messages)
  = Some (map (storedMessage toISOString) messages).
Proof.
  induction messages as [|m ms IH]; [reflexivity|].
  cbn [map Typed.asList]. rewrite asMessage_messageValue, IH. reflexivity.
Qed.

Lemma Reads_session (session : ChatSession.t) :
  Reads (stringifySession toISOString dislikedFirst session)
        (sessionValue toISOString dislikedFirst session).
Proof.
  change (stringifySession toISOString dislikedFirst session)
    with (stringifyObject (map fst (sessionFields toISOString dislikedFirst session))).
  apply Reads_object; [|discriminate].
  unfold sessionFields.
  repeat (apply Forall_cons; [apply Reads_string|]).
  apply Forall_cons; [apply Reads_array, Reads_messages|].
  apply Forall_cons; [apply Reads_number|constructor].
Qed.

Lemma asChatSession_sessionValue (session : ChatSession.t) :
  Typed.asChatSession (sessionValue toISOString dislikedFirst session)
  = Some (storedSession toISOString session).
Proof.
  destruct session as [i t ms u].
  unfold Typed.asChatSession, sessionValue, sessionFields, storedSession.
  cbn [ChatSession.id ChatSession.title ChatSession.messages ChatSession.updatedAt].
  change (prop (JObject ?m) ?k) with (get k m).
  cbv [defineAll fold_left stringField fst snd].
  change (Typed.asString (get (lit "id") _)) with (Some i).
  change (Typed.asString (get (lit "title") _)) with (Some t).
  change (Typed.asMessages (get (lit "messages") _))
    with (Typed.asList Typed.asMessage (map (messageValue toISOString dislikedFirst) ms)).
  change (Typed.asInteger (get (lit "updatedAt") _)) with (Some (u * 10 ^ 0)%Z).
  rewrite asMessages_messageValues. change (10 ^ 0)%Z with 1%Z. rewrite Z.mul_1_r.
  reflexivity.
Qed.

Lemma Reads_sessions (sessions : list ChatSession.t) :
  Forall2 Reads (map (stringifySession toISOString dislikedFirst) sessions)
                (map (sessionValue toISOString dislikedFirst) sessions).
Proof.
  induction sessions as [|s l IH]; simpl; constructor; [apply Reads_session|exact IH].
Qed.

Lemma asChatSessions_sessionValues (sessions : list ChatSession.t) :
  Typed.asList Typed.asChatSession (map (sessionValue toISOString dislikedFirst) sessions)
  = Some (map (storedSession toISOString) sessions).
Proof.
  induction sessions as [|s l IH]; [reflexivity|].
  cbn [map Typed.asList]. rewrite asChatSession_sessionValue, IH. reflexivity.
Qed.

(** The written text parses, and the parsed array reads as the stored
    form of the collection. *)
Lemma JSON_stringify_reads :
  forall sessions : list ChatSession.t,
    JSON_parse (JSON_stringify toISOString dislikedFirst sessions)
    = Some (JArray (map (sessionValue toISOString dislikedFirst) sessions))
    /\ Typed.asList Typed.asChatSession
         (map (sessionValue toISOString dislikedFirst) sessions)
       = Some (map (storedSession toISOString) sessions)
    /\ roundTrips toISOString (JSON_stringify toISOString dislikedFirst) sessions.
Proof.
  intros sessions.
  assert (P : JSON_parse (JSON_stringify toISOString dislikedFirst sessions)
              = Some (JArray (map (sessionValue toISOString dislikedFirst) sessions))).
  { destruct (Reads_array _ _ (Reads_sessions sessions) [] eq_refl) as [fuel H].
    rewrite app_nil_r in H. exact (JSON_parse_complete _ _ _ _ H eq_refl). }
  split; [exact P|]. split; [apply asChatSessions_sessionValues|].
  eexists. split; [exact P|apply asChatSessions_sessionValues].
Qed.

(** X26: [JSON.parse] reads back what [JSON.stringify] writes for a session
    collection.  Whatever the sessions hold (quotes, backslashes, line
    breaks and other control characters, surrogates paired or not, any
    integer time, flags present or absent and in either order), the written
    text parses, and the parsed array reads, session by session, as the
    collection with each [Date] replaced by its ISO string. *)
Theorem JSON_stringify_roundTrips :
  forall sessions : list ChatSession.t,
    JSON_parse (JSON_stringify toISOString dislikedFirst sessions)
    = Some (JArray (map (sessionValue toISOString dislikedFirst) sessions))
    /\ Typed.asList Typed.asChatSession
         (map (sessionValue toISOString dislikedFirst) sessions)
       = Some (map (storedSession toISOString) sessions)
    /\ roundTrips toISOString (JSON_stringify toISOString dislikedFirst) sessions.
Proof. exact JSON_stringify_reads. Qed.

End SessionRoundTrip.

(** X27: Reloading.  In a state the store reaches through its views, with a
    current id that is not the empty string, let both auto-save writes fit.
    The next initialisation then loads the same sessions, in the same order,
    each [Date] as its ISO string, and selects the same session; the
    language is the initial one again, as it is not persisted. *)
Theorem displayed_reload :
  forall (toISOString : Z -> jsstring) (dislikedFirst : Message.t -> bool)
         (fits : LocalStorage -> jsstring -> jsstring -> bool)
         (st : AppState) (storage storage' : LocalStorage) (now : Clock)
         (current : jsstring),
    displayed st ->
    currentSessionId st = Some current ->
    current <> [] ->
    fits storage orion_sessions
         (JSONStringify.JSON_stringify toISOString dislikedFirst (sessions st)) = true ->
    persist (JSONStringify.JSON_stringify toISOString dislikedFirst) fits st storage
    = Some storage' ->
    initialize storage' now
    = Some {| language := zh;
              sessions := map (storedSession toISOString) (sessions st);
              currentSessionId := Some current;
              isInitialized := true |}.
Proof.
  intros toISOString dislikedFirst fits st storage storage' now current Hd Hc Hne Hf Hp.
  destruct (displayed_selected st Hd) as (Hi & current' & Hc' & Hin).
  assert (current' = current) by congruence. subst current'.
  destruct current as [|c current]; [contradiction|].
  destruct (persist_written _ _ _ _ _ _ _ Hi Hc Hf Hp) as [Hs Hid].
  destruct (JSON_stringify_reads toISOString dislikedFirst (sessions st))
    as (Hparse & Hread & _).
  assert (Hload : loadSessions storage' = Some (map (storedSession toISOString) (sessions st))).
  { unfold loadSessions. rewrite Hs.
    destruct (JSONStringify.JSON_stringify toISOString dislikedFirst (sessions st))
      as [|x text] eqn:E; [discriminate|].
    rewrite Hparse. exact Hread. }
  unfold initialize. rewrite Hload, Hid.
  destruct (sessions st) as [|first others] eqn:Es; [contradiction|].
  cbn [map].
  change (storedSession toISOString first :: map (storedSession toISOString) others)
    with (map (storedSession toISOString) (first :: others)).
  rewrite (existsb_stored toISOString (c :: current) (first :: others)).
  assert (E : existsb (fun s => str_eqb (ChatSession.id s) (c :: current)) (first :: others)
              = true).
  { apply existsb_exists. apply in_map_iff in Hin as (s & Hs' & Hin).
    exists s. split; [assumption|]. now apply str_eqb_eq. }
  rewrite E. reflexivity.
Qed.

Lemma previousMessages_sent (text : jsstring) (log : list Message.t) (now : Clock) :
  previousMessages text (log ++ [userMsg text now]) = previousMessages text log.
Proof.
  unfold previousMessages. rewrite filter_app. simpl. rewrite str_eqb_refl. simpl.
  apply app_nil_r.
Qed.

(** X28: The request of a send.  When [handleSend] goes on to call the
    service, the payload carries the text trimmed, which is not empty, and a
    context summary computed from the log as it was before the send: the
    message just appended is not part of it. *)
Theorem handleSend_payload :
  forall (render : AppState) (chat : ChatState) (manualInput : option jsstring)
         (now : Clock) (updated : list Message.t),
    updatedMessages render chat manualInput now = Some updated ->
    let text := textToUse manualInput chat in
    basePayload text updated = basePayload text (getCurrentMessages render)
    /\ free_text (basePayload text updated) = trim text
    /\ trim text <> [].
Proof.
  intros render chat manualInput now updated H text.
  unfold updatedMessages in H. fold text in H.
  destruct (str_eqb (trim text) []) eqn:E; [discriminate|].
  destruct (isLoading chat); [discriminate|]. simpl in H. injection H as <-.
  split; [|split; [reflexivity|now apply str_eqb_neq]].
  unfold basePayload, memoryContext. rewrite previousMessages_sent. reflexivity.
Qed.

(** X29: What the auto-save effects leave alone.  Before the store is
    initialised they write nothing; they never touch an entry other than the
    session collection and the current id; and when the collection does not
    fit the quota, the collection stored before stays as it was. *)
Theorem persist_frame :
  forall (JSON_stringify : list ChatSession.t -> jsstring)
         (fits : LocalStorage -> jsstring -> jsstring -> bool)
         (st : AppState) (storage0 : LocalStorage),
    (isInitialized st = false -> persist JSON_stringify fits st storage0 = Some storage0)
    /\ (forall storage' key,
          persist JSON_stringify fits st storage0 = Some storage' ->
          key <> orion_sessions -> key <> orion_current_session_id ->
          getItem storage' key = getItem storage0 key)
    /\ (forall storage',
          persist JSON_stringify fits st storage0 = Some storage' ->
          fits storage0 orion_sessions (JSON_stringify (sessions st)) = false ->
          getItem storage' orion_sessions = getItem storage0 orion_sessions).
Proof.
  intros JSON_stringify fits st storage0.
  unfold persist, saveCurrentSessionId, saveSessions, setItem.
  split; [|split].
  - intros ->. reflexivity.
  - intros storage' key H K1 K2.
    destruct (isInitialized st); [|injection H as <-; reflexivity].
    destruct (fits storage0 orion_sessions (JSON_stringify (sessions st)));
      destruct (currentSessionId st) as [[|c id]|];
      try (destruct (fits _ orion_current_session_id (c :: id)); [|discriminate]);
      injection H as <-;
      rewrite ?getItem_stored_other by assumption; reflexivity.
  - intros storage' H F. rewrite F in H.
    destruct (isInitialized st); [|injection H as <-; reflexivity].
    destruct (currentSessionId st) as [[|c id]|];
      try (destruct (fits _ orion_current_session_id (c :: id)); [|discriminate]);
      injection H as <-;
      rewrite ?getItem_stored_other by (intros E; discriminate E); reflexivity.
Qed.

(* ===================================================================== *)
(** ** Instances of the further properties                                 *)
(* ===================================================================== *)

Lemma findResponseText_first_answer_witness :
  findResponseText 2 (JArray ([JNumber 1 0; JString (lit "plain text")]
                                ++ Scenario.answer :: [JNull]))
  = findResponseText 1 Scenario.answer.
Proof.
  apply (proj1 (findResponseText_first_answer 1)
               [JNumber 1 0; JString (lit "plain text")] [JNull] Scenario.answer).
  - intros y [<-|[<-|[]]]; vm_compute; reflexivity.
  - vm_compute. discriminate.
Defined.

Lemma findResponseText_answer_witness :
  Answer (JString (lit "{" ++ Scenario.answerBody ++ lit "}")) (lit "hi")
  /\ lit "hi" <> [].
Proof.
  apply (findResponseText_answer 2 (JString (lit "{" ++ Scenario.answerBody ++ lit "}"))
                                 (lit "hi")).
  vm_compute. reflexivity.
Defined.

Lemma findResponseText_finds_carried_witness :
  exists c s, findResponseText 4 Scenario.nested = Normal (Some (c :: s)).
Proof.
  apply (findResponseText_finds_carried Scenario.nested 4).
  - eapply carries_element; [left; reflexivity|].
    eapply carries_member; [left; reflexivity|].
    apply (carries_here [(lit "content", JString (lit "x"))] (lit "content") (lit "x")).
    + simpl. tauto.
    + split; [reflexivity|discriminate].
  - unfold Scenario.nested. simpl. lia.
Defined.

Lemma findResponseText_wrapped_document_witness :
  findResponseText 2
    (JString (Scenario.fenceOpen ++ lit "{" ++ Scenario.answerBody ++ lit "}"
              ++ Scenario.fenceClose))
  = match findResponseText 1 Scenario.answer with
    | Normal found => Normal found
    | Throw _ => Normal None
    end.
Proof.
  apply (findResponseText_wrapped_document 1 Scenario.fenceOpen Scenario.answerBody
           Scenario.fenceClose Scenario.answer).
  - intros H. vm_compute in H. repeat (destruct H as [H|H]; [discriminate H|]). exact H.
  - intros H. vm_compute in H. repeat (destruct H as [H|H]; [discriminate H|]). exact H.
  - vm_compute. reflexivity.
  - vm_compute. reflexivity.
Defined.

Lemma findResponseText_stringified_document_witness :
  findResponseText 2 (JString (lit "  {" ++ Scenario.answerBody ++ lit "}  "))
  = Normal (Some (lit "hi")).
Proof.
  apply (findResponseText_stringified_document 1
           (lit "  {" ++ Scenario.answerBody ++ lit "}  ") Scenario.answer (lit "hi"));
    vm_compute; reflexivity.
Defined.

Lemma sendMessageToOrion_reply_nonempty_witness : lit "hello" <> [].
Proof.
  apply (sendMessageToOrion_reply_nonempty Sample.coerce
           (Sample.responds 200 (lit "hello")) 8 (lit "hi") []).
  vm_compute. reflexivity.
Defined.

Lemma sendMessageToOrion_rejection_witness :
  name (Error (unstableMessage 500)) <> lit "AbortError"
  /\ name (Error (unstableMessage 500)) <> lit "TypeError"
  /\ includes (message (Error (unstableMessage 500))) (lit "404") = false.
Proof.
  apply (sendMessageToOrion_rejection Sample.coerce (Sample.responds 500 (lit "{}"))
           8 (lit "hi") []).
  vm_compute. reflexivity.
Defined.

Lemma sendMessageToOrion_service_error_witness :
  sendMessageToOrion Sample.coerce (Sample.responds 500 Scenario.quotaExceeded)
    8 (lit "hi") []
  = Throw (Error (lit "quota exceeded")).
Proof.
  apply (proj1 (sendMessageToOrion_service_error Sample.coerce
                  (Sample.responds 500 Scenario.quotaExceeded) 8 (lit "hi") []
                  {| Response.status := 500; Response.text := Scenario.quotaExceeded |}
                  eq_refl eq_refl ltac:(discriminate))
               [(lit "message", JString (lit "quota exceeded"))] (lit "quota exceeded")).
  - vm_compute. reflexivity.
  - split; [reflexivity|discriminate].
Defined.

Lemma sendMessageToOrion_retry_policy_witness :
  received Scenario.blockedThenServed (lit "hi") []
  = Normal {| Response.status := 200; Response.text := lit "hello" |}.
Proof.
  exact (proj1 (sendMessageToOrion_retry_policy Sample.coerce Scenario.blockedThenServed
                  8 (lit "hi") [])
               Scenario.failedToFetch eq_refl eq_refl eq_refl).
Defined.

Lemma updateCurrentMessages_frame_witness :
  updateCurrentMessages (Sample.store Sample.twoSessions "19")
    [Sample.message user "late"] Sample.clock Scenario.twoSessionStore
  = Scenario.twoSessionStore.
Proof.
  apply (updateCurrentMessages_frame (Sample.store Sample.twoSessions "19")
           Scenario.twoSessionStore [Sample.message user "late"] Sample.clock).
  intros current E. injection E as <-. intros H. vm_compute in H.
  repeat (destruct H as [H|H]; [discriminate H|]). exact H.
Defined.

Lemma displayed_current_session_witness :
  isInitialized (freshStore Sample.clock) = true
  /\ exists s : ChatSession.t,
       getCurrentSession (freshStore Sample.clock) = Some s
       /\ In s (sessions (freshStore Sample.clock))
       /\ currentSessionId (freshStore Sample.clock) = Some (ChatSession.id s).
Proof.
  apply displayed_current_session.
  apply (displayed_init Sample.emptyStorage Sample.clock). reflexivity.
Defined.

Lemma initialize_without_sessions_witness :
  initialize Scenario.brokenStorage Sample.clock = Some (freshStore Sample.clock).
Proof.
  apply initialize_without_sessions.
  intros text first items H. vm_compute in H. injection H as <-.
  vm_compute. discriminate.
Defined.

Lemma deleteSession_current_session_witness :
  sessions (deleteSession Scenario.twoSessionStore Sample.clock (lit "17")
              Scenario.twoSessionStore)
  = [Sample.session "18" "trip" []]
  /\ currentSessionId (deleteSession Scenario.twoSessionStore Sample.clock (lit "17")
                         Scenario.twoSessionStore)
     = Some (lit "18")
  /\ getCurrentSession (deleteSession Scenario.twoSessionStore Sample.clock (lit "17")
                          Scenario.twoSessionStore)
     = Some (Sample.session "18" "trip" []).
Proof.
  apply (deleteSession_current_session Scenario.twoSessionStore Sample.clock
           (Sample.session "17" "hello" [Sample.message user "hello"])
           (Sample.session "18" "trip" []) [] [Sample.session "18" "trip" []] []).
  - repeat constructor; simpl; intuition discriminate.
  - reflexivity.
  - reflexivity.
  - reflexivity.
Defined.

Lemma handleSend_appends_witness :
  isLoading (snd (handleSend Sample.coerce (Sample.responds 200 (lit "sunny")) 8
                    Scenario.twoSessionStore (Scenario.typed "weather?") None
                    Sample.clock Sample.clock)) = false.
Proof.
  apply (handleSend_appends Sample.coerce (Sample.responds 200 (lit "sunny")) 8
           Scenario.twoSessionStore (Scenario.typed "weather?") None
           Sample.clock Sample.clock
           (Sample.session "17" "hello" [Sample.message user "hello"])).
  - reflexivity.
  - discriminate.
  - vm_compute. discriminate.
  - reflexivity.
Defined.

Lemma handleSend_late_reply_witness :
  exists s',
    nth_error
      (sessions
         (handleSend_settled Scenario.twoSessionStore [Sample.message user "hello"]
            (Normal (lit "sunny")) Sample.clock (Sample.store Sample.twoSessions "18"))) 0
    = Some s'
    /\ ChatSession.messages s'
       = [Sample.message user "hello"] ++ [aiMsg (lit "sunny") Sample.clock].
Proof.
  apply (proj1 (proj1 (proj2 (proj2
           (handleSend_late_reply Scenario.twoSessionStore
              (Sample.store Sample.twoSessions "18")
              [Sample.message user "hello"] (lit "sunny") Sample.clock)))
           (lit "17") eq_refl ltac:(discriminate))
           0%nat (Sample.session "17" "hello" [Sample.message user "hello"]));
    reflexivity.
Defined.

Lemma handleToggleFeedback_flags_witness :
  length (getCurrentMessages
            (handleToggleFeedback Scenario.repliedStore (lit "1767225600001") like
               Sample.clock Scenario.repliedStore)) = 2.
Proof.
  apply (handleToggleFeedback_flags Scenario.repliedStore (lit "1767225600001") like
           Sample.clock
           (Sample.session "17" "hello" [Sample.message user "hello"; Scenario.reply])).
  - reflexivity.
  - discriminate.
Defined.

Lemma toggleFeedback_twice_witness :
  flagged (Message.isLiked
             (toggleFeedback (lit "1767225600001") like
                (toggleFeedback (lit "1767225600001") like Scenario.reply)))
  = flagged (Message.isLiked Scenario.reply)
  /\ flagged (Message.isDisliked
                (toggleFeedback (lit "1767225600001") like
                   (toggleFeedback (lit "1767225600001") like Scenario.reply)))
     = false.
Proof.
  apply (toggleFeedback_twice (lit "1767225600001") Scenario.reply). reflexivity.
Defined.

Lemma handleSend_payload_witness :
  trim (textToUse None (Scenario.typed " weather? ")) <> [].
Proof.
  apply (handleSend_payload Scenario.twoSessionStore (Scenario.typed " weather? ") None
           Sample.clock
           ([Sample.message user "hello"] ++ [userMsg (lit " weather? ") Sample.clock])).
  vm_compute. reflexivity.
Defined.

Lemma getDisplayTitle_shown_witness :
  length (getDisplayTitle en
            (Sample.session "17" "New Chat"
               [Sample.message user "  what is the weather in Paris today  "])) <= 23.
Proof.
  apply (getDisplayTitle_shown en
           (Sample.session "17" "New Chat"
              [Sample.message user "  what is the weather in Paris today  "])).
  right. vm_compute. auto 6.
Defined.

Lemma getDisplayTitle_derived_witness :
  getDisplayTitle en (createSessionObject zh Sample.clock) = defaultTitle en.
Proof.
  apply (proj2 (getDisplayTitle_derived en (createSessionObject zh Sample.clock))).
  - right. vm_compute. auto 6.
  - left. reflexivity.
Defined.

Lemma handleExportSession_file_witness :
  exists file,
    handleExportSession Scenario.toLocaleString Scenario.twoSessionStore Sample.clock
    = Some file
    /\ fileName file = lit "Orion-Chat-hello-1767225600001.txt".
Proof.
  destruct (proj2 (handleExportSession_file Scenario.toLocaleString
                     Scenario.twoSessionStore Sample.clock))
    as (file & H & _ & N & _).
  - vm_compute. discriminate.
  - exists file. split; [exact H|]. rewrite N. vm_compute. reflexivity.
Defined.

Lemma handleImageUpload_stored_witness :
  initializeBackground
    (storage (handleImageUpload Sample.fits zh (Some Scenario.picture) None
                Sample.emptyStorage))
  = Some (lit "data:image/png;base64,AAAA").
Proof.
  apply (proj2 (handleImageUpload_stored Sample.fits zh Scenario.picture None
                  Sample.emptyStorage)
               ltac:(vm_compute; discriminate)
               (lit "data:image/png;base64,AAAA") eq_refl).
  - reflexivity.
  - discriminate.
Defined.

Lemma onFetch_policy_witness :
  ServiceWorker.status Scenario.served = 200%Z
  /\ ServiceWorker.method Scenario.page = lit "GET".
Proof.
  destruct (proj2 (proj2 (onFetch_policy None (Normal Scenario.served) Scenario.page))
                  (Normal Scenario.served) Scenario.served eq_refl)
    as (_ & _ & _ & _ & S & _ & M).
  split; [exact S|exact M].
Defined.

Lemma displayed_reload_witness :
  initialize
    (stored (stored Sample.emptyStorage orion_sessions
               (JSONStringify.JSON_stringify Sample.toISOString Scenario.dislikedFirst
                  [createSessionObject zh Sample.clock]))
            orion_current_session_id (lit "1767225600000"))
    Sample.clock
  = Some {| language := zh;
            sessions := map (storedSession Sample.toISOString)
                            [createSessionObject zh Sample.clock];
            currentSessionId := Some (lit "1767225600000");
            isInitialized := true |}.
Proof.
  apply (displayed_reload Sample.toISOString Scenario.dislikedFirst Sample.fits
           (freshStore Sample.clock) Sample.emptyStorage).
  - apply (displayed_init Sample.emptyStorage Sample.clock). reflexivity.
  - reflexivity.
  - discriminate.
  - reflexivity.
  - reflexivity.
Defined.

(** The text written for the two sessions of the example, character by
    character. *)
Example JSON_stringify_twoSessions :
  JSONStringify.JSON_stringify Sample.toISOString Scenario.dislikedFirst Sample.twoSessions
  = Sample.twoSessionsText.
Proof. vm_compute. reflexivity. Qed.

(** The escapes of [QuoteJSONString]: a quote, a line feed, a form feed and
    a lone surrogate. *)
Example quote_escapes :
  JSONStringify.quote [34; 10; 12; 55357]%N
  = [34; 92; 34; 92; 110; 92; 102; 92; 117; 100; 56; 51; 100; 34]%N.
Proof. vm_compute. reflexivity. Qed.
